(** * use-form-path: a path-addressed form store

    A shallow embedding of [src/use-form-path.jsx] (the [FormProvider]
    store, [keyify], the [push]/[remove] registry helpers) together with the
    parts of lodash the store is written against ([get], [set], [pullAt],
    [cloneDeep], [uniqueId]).

    The JavaScript fragment that is modelled:
    - values are [undefined], [null], booleans, integer numbers, strings,
      function objects (known by their identity), arrays (with holes) and
      plain objects (own enumerable string-keyed properties, in
      [Object.keys] order);
    - strings are byte strings; numbers are integers;
    - property lookup sees own properties, plus [length] of arrays and
      strings; members inherited from a prototype are not part of the model,
      and a function object has no properties;
    - where JavaScript would produce a value the data model cannot hold
      (a named property on an array or on a function object), the embedding
      stops with the error [OutsideModel];
    - validators and the context validator are pure functions of their
      arguments, observers are opaque callbacks whose invocation is recorded
      in a log;
    - a tree is a value: the trees of the store share no part with each
      other or with the arguments of a call, so that a write through one
      reference that would show through another is not part of the model. *)

From Stdlib Require Import ZArith NArith String Ascii List Bool Lia Wf_nat.
From stdpp Require Import gmap strings list pretty.

Open Scope string_scope.
Open Scope list_scope.

#[local] Set Warnings "-clear-no-such-hyp".

(** ** JavaScript values *)

Unset Elimination Schemes.

Inductive value : Type :=
| VUndef
| VNull
| VBool (b : bool)
| VNum (n : Z)
| VStr (s : string)
| VFun (f : nat)
| VArr (elems : list (option value))
| VObj (props : list (string * value)).

Set Elimination Schemes.

(** [Boolean(v)] *)
Definition truthy (v : value) : bool :=
  match v with
  | VUndef | VNull => false
  | VBool b => b
  | VNum n => negb (n =? 0)%Z
  | VStr s => negb (String.eqb s EmptyString)
  | VFun _ | VArr _ | VObj _ => true
  end.

(** [typeof v === 'object' && v !== null] *)
Definition is_object_non_null (v : value) : bool :=
  match v with
  | VArr _ | VObj _ => true
  | _ => false
  end.

(** lodash [isObject]: objects, arrays and functions. *)
Definition isObject (v : value) : bool :=
  match v with
  | VArr _ | VObj _ | VFun _ => true
  | _ => false
  end.

(** [v == null] *)
Definition is_nullish (v : value) : bool :=
  match v with
  | VUndef | VNull => true
  | _ => false
  end.

(** ** Characters and numeric strings *)

Definition is_digit (c : ascii) : bool :=
  let n := N_of_ascii c in ((48 <=? n) && (n <=? 57))%N.

(** The class [\w]. *)
Definition is_word_char (c : ascii) : bool :=
  let n := N_of_ascii c in
  (((48 <=? n) && (n <=? 57)) || ((65 <=? n) && (n <=? 90))
   || ((97 <=? n) && (n <=? 122)) || (n =? 95))%N.

(** The characters that [rePropName] never puts in a bare key: [.], [[], []]. *)
Definition is_special (c : ascii) : bool :=
  let n := N_of_ascii c in ((n =? 46) || (n =? 91) || (n =? 93))%N.

(** Line terminators, which the regular expression atom [.] refuses. *)
Definition is_line_terminator (c : ascii) : bool :=
  let n := N_of_ascii c in ((n =? 10) || (n =? 13))%N.

Fixpoint string_forallb (p : ascii -> bool) (s : string) : bool :=
  match s with
  | EmptyString => true
  | String c r => p c && string_forallb p r
  end.

Fixpoint digits_value (acc : N) (s : string) : N :=
  match s with
  | EmptyString => acc
  | String c r => digits_value (acc * 10 + (N_of_ascii c - 48))%N r
  end.

(** lodash [reIsUint]: the canonical decimal numerals, that is [0] or a
    numeral without a leading zero. *)
Definition parse_uint (k : string) : option N :=
  match k with
  | EmptyString => None
  | String c r =>
      if string_forallb is_digit k
         && (negb (Ascii.eqb c "0") || String.eqb r EmptyString)
      then Some (digits_value 0 k) else None
  end.

(** lodash [isIndex(value)] on a string key, with the default bound
    [MAX_SAFE_INTEGER]. *)
Definition isIndex (k : string) : bool :=
  match parse_uint k with
  | Some n => (n <? 9007199254740991)%N
  | None => false
  end.

(** An array index in the sense of the language: a canonical numeral below
    [2^32 - 1]. Such keys address the elements of an array, and come first,
    in ascending order, among the keys of an object. *)
Definition array_index (k : string) : option N :=
  match parse_uint k with
  | Some n => if (n <? 4294967295)%N then Some n else None
  | None => None
  end.

(** ** Own properties *)

Fixpoint assoc {A : Type} (k : string) (kvs : list (string * A)) : option A :=
  match kvs with
  | [] => None
  | (k', v) :: r => if String.eqb k k' then Some v else assoc k r
  end.

Definition nth_elem (n : N) (xs : list (option value)) : value :=
  match nth_error xs (N.to_nat n) with
  | Some (Some v) => v
  | _ => VUndef
  end.

Definition char_at (n : N) (s : string) : value :=
  match String.get (N.to_nat n) s with
  | Some c => VStr (String c EmptyString)
  | None => VUndef
  end.

Definition num_of_nat (n : nat) : value := VNum (Z.of_nat n).

(** [object[key]] for an [object] that is neither [null] nor [undefined]. *)
Definition prop (o : value) (k : string) : value :=
  match o with
  | VObj kvs => default VUndef (assoc k kvs)
  | VArr xs =>
      match array_index k with
      | Some n => nth_elem n xs
      | None => if String.eqb k "length" then num_of_nat (List.length xs) else VUndef
      end
  | VStr s =>
      match array_index k with
      | Some n => char_at n s
      | None => if String.eqb k "length" then num_of_nat (String.length s) else VUndef
      end
  | _ => VUndef
  end.

(** [key in Object(object)], own properties only. *)
Definition has_prop (o : value) (k : string) : bool :=
  match o with
  | VObj kvs => match assoc k kvs with Some _ => true | None => false end
  | VArr xs =>
      match array_index k with
      | Some n => match nth_error xs (N.to_nat n) with Some (Some _) => true | _ => false end
      | None => String.eqb k "length"
      end
  | VStr s =>
      match array_index k with
      | Some n => (n <? N.of_nat (String.length s))%N
      | None => String.eqb k "length"
      end
  | _ => false
  end.

(** [Object.keys(o)] for a non-nullish [o]: the indices of the elements that
    are present, or of the characters, or the keys of an object. *)
Fixpoint present_indices (i : N) (xs : list (option value)) : list string :=
  match xs with
  | [] => []
  | Some _ :: r => pretty i :: present_indices (N.succ i) r
  | None :: r => present_indices (N.succ i) r
  end.

Fixpoint char_indices (i : N) (s : string) : list string :=
  match s with
  | EmptyString => []
  | String _ r => pretty i :: char_indices (N.succ i) r
  end.

Definition object_keys (o : value) : list string :=
  match o with
  | VObj kvs => map fst kvs
  | VArr xs => present_indices 0 xs
  | VStr s => char_indices 0 s
  | _ => []
  end.

(** ** lodash: paths

    [stringToPath] scans the path with the global regular expression
    [rePropName], whose three alternatives are, in this order: a run of
    characters other than [.], [[] and []]; a bracketed number or quoted
    string; an empty match in front of [.] or [[]] when that is followed by
    [.], [[]] or the end of the string. Characters that start no match are
    skipped. *)

Fixpoint take_plain (s : string) : string * string :=
  match s with
  | EmptyString => (EmptyString, EmptyString)
  | String c r =>
      if is_special c then (EmptyString, s)
      else let '(t, rest) := take_plain r in (String c t, rest)
  end.

Fixpoint take_digits (s : string) : string * string :=
  match s with
  | EmptyString => (EmptyString, EmptyString)
  | String c r =>
      if is_digit c then let '(t, rest) := take_digits r in (String c t, rest)
      else (EmptyString, s)
  end.

(** The number of the second alternative: an optional minus sign, digits,
    optionally a dot and digits, and then the closing bracket. The argument
    starts after the opening bracket. *)
Definition bracket_number (s : string) : option (string * string) :=
  let '(sign, s1) :=
    match s with
    | String "-" r => ("-", r)
    | _ => (EmptyString, s)
    end in
  let '(int, s2) := take_digits s1 in
  if String.eqb int EmptyString then None
  else
    let '(frac, s3) :=
      match s2 with
      | String "." r =>
          let '(f, r') := take_digits r in
          if String.eqb f EmptyString then (EmptyString, s2) else ("." +:+ f, r')
      | _ => (EmptyString, s2)
      end in
    match s3 with
    | String "]" rest => Some (sign +:+ int +:+ frac, rest)
    | _ => None
    end.

Definition dquote : ascii := ascii_of_N 34.
Definition squote : ascii := ascii_of_N 39.
Definition backslash : ascii := ascii_of_N 92.

(** The quoted string of the second alternative: the text between two
    quotes [q], made of characters other than [q] and the backslash, and of
    backslash escapes; the closing quote is followed by the closing bracket.
    The argument starts after the opening quote. *)
Fixpoint quoted_body (q : ascii) (s : string) : option (string * string) :=
  match s with
  | EmptyString => None
  | String c r =>
      if Ascii.eqb c q then
        match r with
        | String "]" rest => Some (EmptyString, rest)
        | _ => None
        end
      else if Ascii.eqb c backslash then
        match r with
        | String d r' =>
            if is_line_terminator d then None
            else match quoted_body q r' with
                 | Some (t, rest) => Some (String c (String d t), rest)
                 | None => None
                 end
        | EmptyString => None
        end
      else match quoted_body q r with
           | Some (t, rest) => Some (String c t, rest)
           | None => None
           end
  end.

Definition is_quote (c : ascii) : bool :=
  Ascii.eqb c dquote || Ascii.eqb c squote.

(** The replacement of the escape pattern (a backslash and an optional second
    backslash) by its group: a doubled backslash gives one, a single backslash
    is dropped. *)
Fixpoint unescape (s : string) : string :=
  match s with
  | EmptyString => EmptyString
  | String c r =>
      if Ascii.eqb c backslash then
        match r with
        | String d r' =>
            if Ascii.eqb d backslash then String d (unescape r') else unescape r
        | EmptyString => EmptyString
        end
      else String c (unescape r)
  end.

(** The second alternative of [rePropName], after its opening bracket: the
    key it pushes and the rest of the input. *)
Definition bracket_token (s : string) : option (string * string) :=
  match bracket_number s with
  | Some (num, rest) => Some (num, rest)
  | None =>
      match s with
      | String q r =>
          if is_quote q then
            match quoted_body q r with
            | Some (t, rest) => Some (unescape t, rest)
            | None => None
            end
          else None
      | EmptyString => None
      end
  end.

Definition separator (s : string) : option string :=
  match s with
  | String "." r => Some r
  | String "[" (String "]" r) => Some r
  | _ => None
  end.

(** The third alternative of [rePropName]: the lookahead for an empty key. *)
Definition empty_key_here (s : string) : bool :=
  match separator s with
  | Some EmptyString => true
  | Some r => match separator r with Some _ => true | None => false end
  | None => false
  end.

(** The matches of [rePropName] from left to right. Every step consumes at
    least one character, so the length of the input is enough fuel. *)
Fixpoint scan (fuel : nat) (s : string) : list string :=
  match fuel with
  | O => []
  | S fuel' =>
      match s with
      | EmptyString => []
      | String c r =>
          if negb (is_special c) then
            let '(t, rest) := take_plain s in t :: scan fuel' rest
          else
            match (if Ascii.eqb c "[" then bracket_token r else None) with
            | Some (t, rest) => t :: scan fuel' rest
            | None =>
                if empty_key_here s then EmptyString :: scan fuel' r
                else scan fuel' r
            end
      end
  end.

(** Modelled from the spec: the syntax of paths, dot-separated keys and
    bracketed indices, that the source leaves to lodash, which is not under
    src/. The definition is lodash's [stringToPath]: a leading dot gives an
    empty first key, then come the matches of [rePropName]. *)
Definition stringToPath (s : string) : list string :=
  match s with
  | String "." _ => [EmptyString]
  | _ => []
  end ++ scan (String.length s) s.

(** [reIsPlainProp]: word characters only. *)
Definition reIsPlainProp (s : string) : bool := string_forallb is_word_char s.

Fixpoint simple_bracket (s : string) : bool :=
  match s with
  | EmptyString => false
  | String c r =>
      if Ascii.eqb c "]" then true
      else if Ascii.eqb c "[" then false
      else simple_bracket r
  end.

Definition quoted_bracket (s : string) : bool :=
  match s with
  | String q r =>
      is_quote q && match quoted_body q r with Some _ => true | None => false end
  | EmptyString => false
  end.

(** [reIsDeepProp]: a dot somewhere, or an opening bracket followed by
    characters other than brackets, or by a quoted string, and a closing
    bracket. *)
Fixpoint reIsDeepProp (s : string) : bool :=
  match s with
  | EmptyString => false
  | String c r =>
      Ascii.eqb c "."
      || (Ascii.eqb c "[" && (simple_bracket r || quoted_bracket r))
      || reIsDeepProp r
  end.

Definition isKey (p : string) (o : value) : bool :=
  reIsPlainProp p || negb (reIsDeepProp p)
  || (negb (is_nullish o) && has_prop o p).

Definition castPath (p : string) (o : value) : list string :=
  if isKey p o then [p] else stringToPath p.

(** ** lodash: [get] *)

(** The loop of [baseGet]: it stops at [null] or [undefined]. *)
Fixpoint walk (o : value) (segs : list string) : value :=
  match segs with
  | [] => o
  | k :: r => if is_nullish o then VUndef else walk (prop o k) r
  end.

Definition baseGet (o : value) (p : string) : value :=
  match castPath p o with
  | [] => VUndef
  | segs => walk o segs
  end.

(** Modelled from the spec: [get(tree, path, default)] of the path accessor,
    which the source imports from lodash, not under src/. It is the value
    found along the keys of the path, or the default when nothing, or
    [undefined], is found. *)
Definition get (o : value) (p : string) (defaultValue : value) : value :=
  let result := if is_nullish o then VUndef else baseGet o p in
  match result with
  | VUndef => defaultValue
  | _ => result
  end.

(** ** Errors *)

Inductive error : Type :=
| TypeError
| InvalidValidate (path : string)
| NotAnArray (path : string)
| OutsideModel.

Inductive outcome (A : Type) : Type :=
| Ok (a : A)
| Throw (e : error).

Arguments Ok {A} a.
Arguments Throw {A} e.

Definition outcome_bind {A B : Type} (x : outcome A) (f : A -> outcome B) : outcome B :=
  match x with
  | Ok a => f a
  | Throw e => Throw e
  end.

(** ** lodash: [set] *)

Fixpoint obj_replace (k : string) (v : value) (kvs : list (string * value))
  : list (string * value) :=
  match kvs with
  | [] => []
  | (k', v') :: r =>
      if String.eqb k k' then (k', v) :: r else (k', v') :: obj_replace k v r
  end.

(** A new key that is an array index goes among the index keys, in ascending
    order; they precede the other keys. *)
Fixpoint insert_index (n : N) (k : string) (v : value) (kvs : list (string * value))
  : list (string * value) :=
  match kvs with
  | [] => [(k, v)]
  | (k', v') :: r =>
      match array_index k' with
      | Some m => if (m <? n)%N then (k', v') :: insert_index n k v r else (k, v) :: kvs
      | None => (k, v) :: kvs
      end
  end.

(** [object[k] = v] on a plain object. *)
Definition obj_put (k : string) (v : value) (kvs : list (string * value))
  : list (string * value) :=
  match assoc k kvs with
  | Some _ => obj_replace k v kvs
  | None =>
      match array_index k with
      | Some n => insert_index n k v kvs
      | None => kvs ++ [(k, v)]
      end
  end.

Fixpoint replace_nth (n : nat) (v : value) (xs : list (option value))
  : list (option value) :=
  match n, xs with
  | _, [] => []
  | O, _ :: r => Some v :: r
  | S n', x :: r => x :: replace_nth n' v r
  end.

(** [array[n] = v]: beyond the end the array grows, leaving holes. *)
Definition arr_put (n : N) (v : value) (xs : list (option value)) : list (option value) :=
  let i := N.to_nat n in
  if (i <? List.length xs)%nat then replace_nth i v xs
  else xs ++ repeat None (i - List.length xs) ++ [Some v].

(** The keys that recent releases of lodash refuse to write in [baseSet] and
    older ones write through the prototype. *)
Definition unsafe_key (k : string) : bool :=
  String.eqb k "__proto__" || String.eqb k "constructor" || String.eqb k "prototype".

(** [assignValue(o, k, v)] for an [o] that [isObject]. *)
Definition assignValue (o : value) (k : string) (v : value) : outcome value :=
  if unsafe_key k then Throw OutsideModel
  else
    match o with
    | VObj kvs => Ok (VObj (obj_put k v kvs))
    | VArr xs =>
        match array_index k with
        | Some n => Ok (VArr (arr_put n v xs))
        | None => Throw OutsideModel
        end
    | _ => Throw OutsideModel
    end.

(** The loop of [baseSet]: below a key that is not the last one, an object is
    kept and anything else is replaced by a fresh array or object, by the
    look of the next key. *)
Fixpoint baseSet_loop (nested : value) (segs : list string) (v : value) : outcome value :=
  match segs with
  | [] => Ok nested
  | k :: rest =>
      match rest with
      | [] => assignValue nested k v
      | k2 :: _ =>
          let objValue := prop nested k in
          let newValue :=
            if isObject objValue then objValue
            else if isIndex k2 then VArr [] else VObj [] in
          outcome_bind (baseSet_loop newValue rest v) (assignValue nested k)
      end
  end.

(** Modelled from the spec: [set(tree, path, value)] of the path accessor,
    which the source imports from lodash, not under src/. It writes the value
    at the path and creates the containers that are missing on the way. The
    source changes the tree in place; here the new tree is returned. *)
Definition set (o : value) (p : string) (v : value) : outcome value :=
  if is_nullish o then Ok o
  else if negb (isObject o) then Ok o
  else baseSet_loop o (castPath p o) v.

(** ** lodash: [pullAt], [cloneDeep], [uniqueId] *)

Definition remove_nth {A : Type} (n : nat) (xs : list A) : list A :=
  firstn n xs ++ skipn (S n) xs.

(** Modelled from the spec: the removal of one index of an array, with the
    later elements shifted down by one, which the source leaves to lodash's
    [pullAt], not under src/. The definition gives the new content of the
    object [a], which lodash changes in place. [basePullAt] does nothing on a
    falsy [a]; for an index that [isIndex] it runs [splice.call(a, index, 1)]
    whatever [a] is. [Array.prototype.splice] shifts the elements of an
    array; on a string it tries to assign or delete the characters, which are
    read-only, and throws a [TypeError]; on a number or a boolean it finds no
    length and nothing to move. For an index that is not [isIndex],
    [baseUnset] deletes the property of that name, and an array has none. *)
Definition pullAt (a : value) (index : Z) : outcome value :=
  if negb (truthy a) then Ok a
  else
    match a with
    | VArr xs =>
        if (0 <=? index)%Z then Ok (VArr (remove_nth (Z.to_nat index) xs)) else Ok a
    | VStr _ =>
        if (0 <=? index)%Z && (index <? 9007199254740991)%Z then Throw TypeError
        else Ok a
    | VNum _ | VBool _ => Ok a
    | _ => Throw OutsideModel
    end.

(** [baseClone] below the root: arrays and plain objects are copied, every
    index of an array is assigned (a hole becomes [undefined]), a function
    object is shared. *)
Fixpoint baseClone (v : value) : value :=
  match v with
  | VArr xs =>
      VArr (map (fun x => Some (match x with Some y => baseClone y | None => VUndef end)) xs)
  | VObj kvs => VObj (map (fun kv => (fst kv, baseClone (snd kv))) kvs)
  | _ => v
  end.

(** Modelled from the spec: the deep copy of the initial value tree, lodash's
    [cloneDeep], not under src/. At the root a function is cloned to an empty
    object. *)
Definition cloneDeep (v : value) : value :=
  match v with
  | VFun _ => VObj []
  | _ => baseClone v
  end.

(** Modelled from the spec: a process-unique identifier, a counter behind a
    fixed prefix; lodash's [uniqueId], not under src/, with its counter made
    explicit. *)
Definition uniqueId (prefix : string) (idCounter : N) : string * N :=
  let id := N.succ idCounter in (prefix +:+ pretty id, id).

(** ** [keyify] *)

(** One step of the [reduce] in [keyify], for the key [el] holding [v]:
    [nested] is the [forEach] over the elements of a non-empty array [v],
    whose result is dropped, and [deeper] is [keyify(v, prefix + el + '.')]. *)
Definition keyify_entry (prefix el : string) (v : value)
    (nested : outcome unit) (deeper : outcome (list string)) (res : list string)
  : outcome (list string) :=
  outcome_bind nested (fun _ =>
    if is_object_non_null v
    then outcome_bind deeper (fun r => Ok (res ++ r))
    else Ok (res ++ [prefix +:+ el])).

(** [keyify(obj, prefix)]. [Object.keys] fails on [null] and [undefined],
    lists the indices of a string or of an array (without its holes) and
    the keys of an object, and is empty for the other values. *)
Fixpoint keyify (obj : value) (prefix : string) {struct obj} : outcome (list string) :=
  let forEach_nested (v : value) : outcome unit :=
    match v with
    | VArr ys =>
        (fix each (ys : list (option value)) (i : N) {struct ys} : outcome unit :=
           match ys with
           | [] => Ok tt
           | None :: r => each r (N.succ i)
           | Some nestedObj :: r =>
               outcome_bind (keyify nestedObj (prefix +:+ "[" +:+ pretty i +:+ "]."))
                 (fun _ => each r (N.succ i))
           end) ys 0%N
    | _ => Ok tt
    end in
  match obj with
  | VUndef | VNull => Throw TypeError
  | VObj kvs =>
      (fix entries (kvs : list (string * value)) (res : list string) {struct kvs}
         : outcome (list string) :=
         match kvs with
         | [] => Ok res
         | (el, v) :: rest =>
             outcome_bind
               (keyify_entry prefix el v (forEach_nested v)
                  (keyify v (prefix +:+ el +:+ ".")) res)
               (entries rest)
         end) kvs []
  | VArr xs =>
      (fix elems (xs : list (option value)) (i : N) (res : list string) {struct xs}
         : outcome (list string) :=
         match xs with
         | [] => Ok res
         | None :: rest => elems rest (N.succ i) res
         | Some v :: rest =>
             outcome_bind
               (keyify_entry prefix (pretty i) v (forEach_nested v)
                  (keyify v (prefix +:+ pretty i +:+ ".")) res)
               (elems rest (N.succ i))
         end) xs 0%N []
  | VStr s => Ok (map (fun el => prefix +:+ el) (char_indices 0 s))
  | VBool _ | VNum _ | VFun _ => Ok []
  end.

(** ** The store of [FormProvider] *)

(** The refs of [FormProvider]. The two registries map a path to the list of
    the function objects pushed under it. [idCounter] is the counter of
    lodash's [uniqueId]; [rendered] logs the force-update callbacks in the
    order in which they were called. *)
Record store : Type := mkStore {
  initState : value;
  formValue : value;
  formDirty : value;
  formError : value;
  formUniqueIds : value;
  localValidators : list (string * list nat);
  formValid : bool;
  invalidPathSet : gset string;
  forceUpdates : list nat;
  forceUpdatesByPath : list (string * list nat);
  idCounter : N;
  rendered : list nat
}.

Definition with_initState (v : value) (s : store) : store :=
  mkStore v (formValue s) (formDirty s) (formError s) (formUniqueIds s)
    (localValidators s) (formValid s) (invalidPathSet s) (forceUpdates s)
    (forceUpdatesByPath s) (idCounter s) (rendered s).

Definition with_formValue (v : value) (s : store) : store :=
  mkStore (initState s) v (formDirty s) (formError s) (formUniqueIds s)
    (localValidators s) (formValid s) (invalidPathSet s) (forceUpdates s)
    (forceUpdatesByPath s) (idCounter s) (rendered s).

Definition with_formDirty (v : value) (s : store) : store :=
  mkStore (initState s) (formValue s) v (formError s) (formUniqueIds s)
    (localValidators s) (formValid s) (invalidPathSet s) (forceUpdates s)
    (forceUpdatesByPath s) (idCounter s) (rendered s).

Definition with_formError (v : value) (s : store) : store :=
  mkStore (initState s) (formValue s) (formDirty s) v (formUniqueIds s)
    (localValidators s) (formValid s) (invalidPathSet s) (forceUpdates s)
    (forceUpdatesByPath s) (idCounter s) (rendered s).

Definition with_formUniqueIds (v : value) (s : store) : store :=
  mkStore (initState s) (formValue s) (formDirty s) (formError s) v
    (localValidators s) (formValid s) (invalidPathSet s) (forceUpdates s)
    (forceUpdatesByPath s) (idCounter s) (rendered s).

Definition with_localValidators (r : list (string * list nat)) (s : store) : store :=
  mkStore (initState s) (formValue s) (formDirty s) (formError s) (formUniqueIds s)
    r (formValid s) (invalidPathSet s) (forceUpdates s)
    (forceUpdatesByPath s) (idCounter s) (rendered s).

Definition with_formValid (b : bool) (s : store) : store :=
  mkStore (initState s) (formValue s) (formDirty s) (formError s) (formUniqueIds s)
    (localValidators s) b (invalidPathSet s) (forceUpdates s)
    (forceUpdatesByPath s) (idCounter s) (rendered s).

Definition with_invalidPathSet (x : gset string) (s : store) : store :=
  mkStore (initState s) (formValue s) (formDirty s) (formError s) (formUniqueIds s)
    (localValidators s) (formValid s) x (forceUpdates s)
    (forceUpdatesByPath s) (idCounter s) (rendered s).

Definition with_forceUpdates (l : list nat) (s : store) : store :=
  mkStore (initState s) (formValue s) (formDirty s) (formError s) (formUniqueIds s)
    (localValidators s) (formValid s) (invalidPathSet s) l
    (forceUpdatesByPath s) (idCounter s) (rendered s).

Definition with_forceUpdatesByPath (r : list (string * list nat)) (s : store) : store :=
  mkStore (initState s) (formValue s) (formDirty s) (formError s) (formUniqueIds s)
    (localValidators s) (formValid s) (invalidPathSet s) (forceUpdates s)
    r (idCounter s) (rendered s).

Definition with_idCounter (n : N) (s : store) : store :=
  mkStore (initState s) (formValue s) (formDirty s) (formError s) (formUniqueIds s)
    (localValidators s) (formValid s) (invalidPathSet s) (forceUpdates s)
    (forceUpdatesByPath s) n (rendered s).

Definition with_rendered (l : list nat) (s : store) : store :=
  mkStore (initState s) (formValue s) (formDirty s) (formError s) (formUniqueIds s)
    (localValidators s) (formValid s) (invalidPathSet s) (forceUpdates s)
    (forceUpdatesByPath s) (idCounter s) l.

(** Store operations: a state monad in which an exception keeps the state
    reached when it was thrown. *)
Definition M (A : Type) : Type := store -> outcome A * store.

Definition ret {A : Type} (a : A) : M A := fun s => (Ok a, s).

Definition throw {A : Type} (e : error) : M A := fun s => (Throw e, s).

Definition bind {A B : Type} (m : M A) (f : A -> M B) : M B :=
  fun s =>
    match m s with
    | (Ok a, s') => f a s'
    | (Throw e, s') => (Throw e, s')
    end.

Definition gets {A : Type} (f : store -> A) : M A := fun s => (Ok (f s), s).

Definition modify (f : store -> store) : M unit := fun s => (Ok tt, f s).

Definition lift {A : Type} (o : outcome A) : M A := fun s => (o, s).

Declare Scope store_scope.
Delimit Scope store_scope with store.
Notation "x <- m ;; k" := (bind m (fun x => k))
  (at level 100, m at next level, right associativity) : store_scope.
Notation "m ;; k" := (bind m (fun _ => k))
  (at level 100, right associativity) : store_scope.
Open Scope store_scope.

Fixpoint forEach {A : Type} (l : list A) (f : A -> M unit) : M unit :=
  match l with
  | [] => ret tt
  | x :: r => f x ;; forEach r f
  end.

(** The registry helpers [push] and [remove]. A registry is read at its own
    entries: [container[path] || []] is the list stored for [path], or the
    empty list. In the source the registry is a plain object, so that a
    [path] that names a member inherited from [Object.prototype]
    ([toString], [constructor], ...) finds that member instead, and the
    call on it ([push], [filter], [forEach]) throws a [TypeError]; such
    paths are not part of the model (see [inherited] below). *)
Fixpoint reg_put (path : string) (fs : list nat) (c : list (string * list nat))
  : list (string * list nat) :=
  match c with
  | [] => [(path, fs)]
  | (p, l) :: r =>
      if String.eqb path p then (p, fs) :: r else (p, l) :: reg_put path fs r
  end.

(** [container[path] = container[path] || []; container[path].push(functionToAdd)],
    for a [path] that names no inherited member. *)
Definition push (container : list (string * list nat)) (path : string) (functionToAdd : nat)
  : list (string * list nat) :=
  reg_put path (default [] (assoc path container) ++ [functionToAdd]) container.

(** [func !== functionToRemove] *)
Definition differs (func : nat) (functionToRemove : value) : bool :=
  match functionToRemove with
  | VFun g => negb (Nat.eqb func g)
  | _ => true
  end.

(** [container[path] = (container[path] || []).filter(func => func !== functionToRemove)],
    for a [path] that names no inherited member. *)
Definition remove (container : list (string * list nat)) (path : string)
    (functionToRemove : value) : list (string * list nat) :=
  reg_put path
    (List.filter (fun func => differs func functionToRemove)
       (default [] (assoc path container)))
    container.

(** A registry as the object it is in the source, for [get]. *)
Definition registry_object (c : list (string * list nat)) : value :=
  VObj (map (fun e => (fst e, VArr (map (fun f => Some (VFun f)) (snd e)))) c).

(** The initial refs, for the prop [initValue]; a prop that is not given
    takes its default, the empty object. *)
Definition FormProvider (initValue : value) : store :=
  let initValue := match initValue with VUndef => VObj [] | _ => initValue end in
  mkStore (cloneDeep initValue) (cloneDeep initValue) (VObj []) (VObj []) (VObj [])
    [] true ∅ [] [] 0%N [].

Section Provider.

(** [call f v] is the result of calling the function object [f] on [v]. *)
Variable call : nat -> value -> value.

(** The prop [validate] of the provider, when it is given. *)
Variable contextValidator : option (value -> value -> value).

Definition getFormValues (path : string) (s : store) : value :=
  if String.eqb path EmptyString then formValue s
  else get (formValue s) path (VStr EmptyString).

Definition getFormDirty (path : string) (s : store) : value :=
  if String.eqb path EmptyString then formDirty s
  else get (formDirty s) path (VStr EmptyString).

Definition getFormError (path : string) (s : store) : value :=
  if String.eqb path EmptyString then formError s
  else get (formError s) path (VBool false).

Definition getFormValid (s : store) : bool := formValid s.

Definition setFormDirty (path : string) (v : value) : M unit :=
  d <- gets formDirty ;;
  t <- lift (set d path v) ;;
  modify (with_formDirty t).

Definition setFormError (path : string) (v : value) : M unit :=
  e <- gets formError ;;
  t <- lift (set e path v) ;;
  modify (with_formError t).

(** [validators.reduce((acc, validator) => acc || validator(value), acc)] *)
Fixpoint reduce_validators (validators : list (option value)) (v acc : value)
  : outcome value :=
  match validators with
  | [] => Ok acc
  | None :: r => reduce_validators r v acc
  | Some validator :: r =>
      if truthy acc then reduce_validators r v acc
      else
        match validator with
        | VFun f => reduce_validators r v (call f v)
        | _ => Throw TypeError
        end
  end.

Definition runLocalValidators (path : string) (v : value) : M unit :=
  c <- gets localValidators ;;
  match get (registry_object c) path (VArr []) with
  | VArr validators =>
      errorMessage <- lift (reduce_validators validators v (VStr EmptyString)) ;;
      setFormError path errorMessage
  | _ => throw TypeError
  end.

(** A force-update callback only asks for a render. *)
Definition forceUpdate (f : nat) : M unit :=
  modify (fun s => with_rendered (rendered s ++ [f]) s).

(** [(forceUpdatesByPath.current[path] || []).forEach(f => f())], for a
    [path] that names no inherited member: the registry is read at its own
    entries. *)
Definition forceUpdatePath (path : string) : M unit :=
  fs <- gets (fun s => default [] (assoc path (forceUpdatesByPath s))) ;;
  forEach fs forceUpdate.

(** The callback of the [forEach] over the paths of the error object that
    the context validator returned, inside [setFormValue(path, value)]. *)
Definition mergeErrorPath (path : string) (errorObject : value) (errorPath : string)
  : M unit :=
  let newErrorMessage := get errorObject errorPath VUndef in
  modify (fun s => with_invalidPathSet ({[ path ]} ∪ invalidPathSet s) s) ;;
  setFormError errorPath newErrorMessage.

(** The block of [setFormValue] that runs the context validator and merges
    the leaves of the error object it returns into the error tree. *)
Definition runContextValidator (path : string) : M unit :=
  match contextValidator with
  | Some validate =>
      values <- gets formValue ;;
      errors <- gets formError ;;
      let errorObject := validate values errors in
      errorPaths <- lift (keyify errorObject EmptyString) ;;
      forEach errorPaths (mergeErrorPath path errorObject)
  | None => ret tt
  end.

(** The block that keeps track of the invalid fields. *)
Definition trackInvalidPath (path : string) : M unit :=
  errorMessage <- gets (fun s => get (formError s) path VUndef) ;;
  modify (fun s =>
    with_invalidPathSet
      (if truthy errorMessage then {[ path ]} ∪ invalidPathSet s
       else invalidPathSet s ∖ {[ path ]}) s).

(** [formValid.current = !invalidPathSet.current.size] *)
Definition updateFormValid : M unit :=
  modify (fun s => with_formValid (Nat.eqb (size (invalidPathSet s)) 0) s).

(** The force updates of the whole form, then those of the path. *)
Definition triggerForceUpdates (path : string) : M unit :=
  fs <- gets forceUpdates ;;
  forEach fs forceUpdate ;;
  forceUpdatePath path.

Definition setFormValue (path : string) (v : value) : M unit :=
  o <- gets formValue ;;
  t <- lift (set o path v) ;;
  modify (with_formValue t) ;;
  runLocalValidators path v ;;
  runContextValidator path ;;
  trackInvalidPath path ;;
  updateFormValid ;;
  triggerForceUpdates path.

(** The disposer that [subscribe({ path, validate })] returns. *)
Definition unsubscribe (path : string) (validate : value) : M unit :=
  match validate with
  | VArr ((_ :: _) as functions) =>
      forEach functions (fun validateFunction =>
        match validateFunction with
        | None => ret tt
        | Some f =>
            modify (fun s => with_localValidators (remove (localValidators s) path f) s)
        end)
  | _ => modify (fun s => with_localValidators (remove (localValidators s) path validate) s)
  end.

(** [subscribe({ path, validate })], which returns its disposer. Subscribing
    the empty path would store the value tree inside itself, which a tree
    cannot represent. *)
Definition subscribe (path : string) (validate : value) : M (M unit) :=
  match validate with
  | VArr ((_ :: _) as functions) =>
      forEach functions (fun validateFunction =>
        match validateFunction with
        | None => ret tt
        | Some (VFun f) =>
            modify (fun s => with_localValidators (push (localValidators s) path f) s)
        | Some _ => throw (InvalidValidate path)
        end)
  | _ => ret tt
  end ;;
  match validate with
  | VFun f => modify (fun s => with_localValidators (push (localValidators s) path f) s)
  | _ => ret tt
  end ;;
  (if String.eqb path EmptyString then throw OutsideModel else ret tt) ;;
  v <- gets (getFormValues path) ;;
  setFormValue path v ;;
  d <- gets (getFormDirty path) ;;
  setFormDirty path d ;;
  e <- gets (getFormError path) ;;
  setFormError path e ;;
  ret (unsubscribe path validate).

Definition setAllFormDirty (b : bool) : M unit :=
  d <- gets formDirty ;;
  paths <- lift (keyify d EmptyString) ;;
  forEach paths (fun path =>
    setFormDirty path (VBool b) ;;
    forceUpdatePath path).

(** [initialize(newFormState, replaceInitState = true, { keepDirty = false })]:
    the third parameter is destructured, which fails when it is missing. *)
Definition initialize (newFormState replaceInitState options : value) : M unit :=
  (if is_nullish options then throw TypeError else ret tt) ;;
  let keepDirty :=
    match prop options "keepDirty" with
    | VUndef => VBool false
    | k => k
    end in
  let replaceInitState :=
    match replaceInitState with
    | VUndef => VBool true
    | r => r
    end in
  (if truthy replaceInitState
   then modify (with_initState (cloneDeep newFormState))
   else ret tt) ;;
  paths <- lift (keyify newFormState EmptyString) ;;
  forEach paths (fun path => setFormValue path (get newFormState path VUndef)) ;;
  if negb (truthy keepDirty) then setAllFormDirty false else ret tt.

Definition reset : M unit :=
  i <- gets initState ;;
  initialize i (VBool false) (VObj [("keepDirty", VBool false)]).

Record submission : Type := mkSubmission {
  valid : bool;
  values : value;
  errors : value
}.

Definition submit : M submission :=
  setAllFormDirty true ;;
  gets (fun s =>
    mkSubmission (getFormValid s) (getFormValues EmptyString s)
      (getFormError EmptyString s)).

(** [arrayPush(path, value = null)] *)
Definition arrayPush (path : string) (v : value) : M unit :=
  let v := match v with VUndef => VNull | _ => v end in
  currentValue <- gets (fun s => get (formValue s) path VUndef) ;;
  let currentArrayLength :=
    match currentValue with
    | VArr xs => N.of_nat (List.length xs)
    | _ => 0%N
    end in
  (if truthy v
   then setFormValue (path +:+ "[" +:+ pretty currentArrayLength +:+ "]") v
   else ret tt) ;;
  forceUpdatePath path.

(** The tree [o] with the node reached by [segs] replaced, for the arrays
    that [pullAt] changes in place. *)
Fixpoint replace_at (o : value) (segs : list string) (v : value) : value :=
  match segs with
  | [] => v
  | k :: r =>
      match o with
      | VObj kvs =>
          VObj (obj_replace k (replace_at (default VUndef (assoc k kvs)) r v) kvs)
      | VArr xs =>
          match array_index k with
          | Some n =>
              if has_prop o k
              then VArr (replace_nth (N.to_nat n) (replace_at (nth_elem n xs) r v) xs)
              else o
          | None => o
          end
      | _ => o
      end
  end.

(** [const array = get(container, path); pullAt(array, index);] *)
Definition pullAt_in (container : value) (path : string) (index : Z) : outcome value :=
  let array := get container path VUndef in
  outcome_bind (pullAt array index) (fun array' =>
    match array with
    | VArr _ => Ok (replace_at container (castPath path container) array')
    | _ => Ok container
    end).

Definition arrayRemove (path : string) (index : Z) : M unit :=
  currentValue <- gets (fun s => get (formValue s) path VUndef) ;;
  match currentValue with
  | VArr _ => ret tt
  | _ => throw (NotAnArray path)
  end ;;
  forEach
    [(formValue, with_formValue); (formError, with_formError);
     (formDirty, with_formDirty); (formUniqueIds, with_formUniqueIds)]
    (fun ref =>
       container <- gets (fst ref) ;;
       t <- lift (pullAt_in container path index) ;;
       modify (snd ref t)) ;;
  forceUpdatePath path.

(** [subscribeForceUpdate(path = '', forceUpdate)] and its disposer. *)
Definition subscribeForceUpdate (path : string) (f : nat) : M unit :=
  if negb (String.eqb path EmptyString)
  then modify (fun s => with_forceUpdatesByPath (push (forceUpdatesByPath s) path f) s)
  else modify (fun s => with_forceUpdates (forceUpdates s ++ [f]) s).

Definition unsubscribeForceUpdate (path : string) (f : nat) : M unit :=
  if negb (String.eqb path EmptyString)
  then modify (fun s =>
         with_forceUpdatesByPath (remove (forceUpdatesByPath s) path (VFun f)) s)
  else modify (fun s =>
         with_forceUpdates (List.filter (fun func => negb (Nat.eqb func f)) (forceUpdates s)) s).

Definition getFormItemUniqueId (path : string) : M value :=
  ids <- gets formUniqueIds ;;
  if truthy (get ids path VUndef) then ret (get ids path VUndef)
  else
    c <- gets idCounter ;;
    let '(id, c') := uniqueId "formItem_" c in
    modify (with_idCounter c') ;;
    t <- lift (set ids path (VStr id)) ;;
    modify (with_formUniqueIds t) ;;
    ret (VStr id).

(** The operations that the context offers to the components. *)
Inductive operation : Type :=
| UpdateValue (path : string) (v : value)
| UpdateDirty (path : string) (v : value)
| Initialize (newFormState replaceInitState options : value)
| Reset
| Submit
| ArrayPush (path : string) (v : value)
| ArrayRemove (path : string) (index : Z)
| Subscribe (path : string) (validate : value)
| Unsubscribe (path : string) (validate : value)
| SubscribeForceUpdate (path : string) (f : nat)
| UnsubscribeForceUpdate (path : string) (f : nat)
| GetFormItemUniqueId (path : string).

Definition run (o : operation) : M unit :=
  match o with
  | UpdateValue path v => setFormValue path v
  | UpdateDirty path v => setFormDirty path v
  | Initialize newFormState replaceInitState options =>
      initialize newFormState replaceInitState options
  | Reset => reset
  | Submit => submit ;; ret tt
  | ArrayPush path v => arrayPush path v
  | ArrayRemove path index => arrayRemove path index
  | Subscribe path validate => subscribe path validate ;; ret tt
  | Unsubscribe path validate => unsubscribe path validate
  | SubscribeForceUpdate path f => subscribeForceUpdate path f
  | UnsubscribeForceUpdate path f => unsubscribeForceUpdate path f
  | GetFormItemUniqueId path => getFormItemUniqueId path ;; ret tt
  end.

End Provider.

(** ** The hooks *)

(** What [useFormItem({ path, validate })] returns at a render: the value,
    the validity, the dirtiness and the error that the store holds for the
    path. Its [update] is [setLocalState] below; its two effects are
    [subscribeForceUpdate(path, forceUpdate)] and
    [subscribe({ path, validate })]. *)
Record formItem : Type := mkFormItem {
  item_value : value;
  item_valid : bool;
  item_dirty : value;
  item_error : value
}.

Definition useFormItem (path : string) (s : store) : formItem :=
  mkFormItem (getFormValues path s) (negb (truthy (getFormError path s)))
    (getFormDirty path s) (getFormError path s).

(** The [update] of a form item: [updateDirty(path, true)], then
    [updateValue(path, newValue)]. *)
Definition setLocalState (call : nat -> value -> value)
    (contextValidator : option (value -> value -> value))
    (path : string) (newValue : value) : M unit :=
  setFormDirty path (VBool true) ;;
  setFormValue call contextValidator path newValue.

(** The length that [useFormArrayLength({ path })] returns at a render. *)
Definition useFormArrayLength (path : string) (s : store) : nat :=
  match getFormValues path s with
  | VArr xs => List.length xs
  | _ => 0
  end.

(** [useFormValues], [useFormError] and [useFormValid] return what the
    getters of the context return; [getFormValid] takes no argument, so the
    path that [useFormValid] passes is dropped. *)
Definition useFormValues (path : string) (s : store) : value := getFormValues path s.

Definition useFormError (path : string) (s : store) : value := getFormError path s.

Definition useFormValid (path : string) (s : store) : bool := getFormValid s.

(** * Vocabulary of the statements *)

(** ** Outcomes of a run *)

(** A run that stays inside the modelled fragment of the language. *)
Definition in_model {A : Type} (r : outcome A * store) : Prop :=
  match fst r with
  | Throw OutsideModel => False
  | _ => True
  end.

(** An action that cannot fail, except by leaving the model. *)
Definition throws_only_outside {A : Type} (m : M A) : Prop :=
  forall s e, fst (m s) = Throw e -> e = OutsideModel.

(** An action that leaves one component of the store alone. *)
Definition preserves {A B : Type} (proj : store -> B) (m : M A) : Prop :=
  forall s, proj (snd (m s)) = proj s.

(** A property of the store that an action maintains, however it ends. *)
Definition maintains {A : Type} (P : store -> Prop) (m : M A) : Prop :=
  forall s, P s -> P (snd (m s)).

(** An action that leaves the set of invalid paths and the flag alone. *)
Definition untouched {A : Type} (m : M A) : Prop :=
  forall s,
    invalidPathSet (snd (m s)) = invalidPathSet s
    /\ formValid (snd (m s)) = formValid s.

(** ** The validity flag *)

(** [getValid()] holds exactly when the set of invalid paths is empty. *)
Definition validity_invariant (s : store) : Prop :=
  getFormValid s = true <-> invalidPathSet s = ∅.

(** The set of invalid paths is exactly the set of the paths with a truthy
    entry in the error tree. *)
Definition invalid_paths_exact (s : store) : Prop :=
  forall p, p ∈ invalidPathSet s <-> truthy (get (formError s) p VUndef) = true.

(** An action that keeps the flag in step with the set, as long as it stays
    inside the model. *)
Definition keeps {A : Type} (m : M A) : Prop :=
  forall s, validity_invariant s -> in_model (m s) -> validity_invariant (snd (m s)).

(** The same for the runs of an action that end with a JavaScript
    exception. *)
Definition keeps_on_throw {A : Type} (m : M A) : Prop :=
  forall s e, validity_invariant s ->
    fst (m s) = Throw e -> e <> OutsideModel -> validity_invariant (snd (m s)).

(** An action that puts the flag in step with the set, whatever they were. *)
Definition establishes {A : Type} (m : M A) : Prop :=
  forall s, in_model (m s) -> validity_invariant (snd (m s)).

(** The operations that call [setFormValue]. *)
Definition writes_values (o : operation) : bool :=
  match o with
  | UpdateValue _ _ | Initialize _ _ _ | Reset | ArrayPush _ _ | Subscribe _ _ => true
  | _ => false
  end.

(** An action that changes the set of invalid paths at most at [path]. *)
Definition elsewhere {A : Type} (path : string) (m : M A) : Prop :=
  forall s q, q <> path -> q ∈ invalidPathSet (snd (m s)) <-> q ∈ invalidPathSet s.

(** ** The registry of validators *)

(** The validators stored for a path; a path without an entry has none. *)
Definition validators_in (c : list (string * list nat)) (path : string) : list nat :=
  default [] (assoc path c).

(** [localValidators.current[path] || []] *)
Definition validators_at (s : store) (path : string) : list nat :=
  validators_in (localValidators s) path.

(** The function objects that [subscribe] pushes for the argument
    [validate]: the function itself, or the functions of a list. *)
Definition registers (validate : value) (g : nat) : bool :=
  match validate with
  | VFun f => Nat.eqb g f
  | VArr fs =>
      existsb (fun x => match x with Some (VFun f) => Nat.eqb g f | _ => false end) fs
  | _ => false
  end.

(** The registry after the [forEach] of the disposer. *)
Definition remove_each (path : string) (functions : list (option value))
    (c : list (string * list nat)) : list (string * list nat) :=
  fold_left
    (fun c x => match x with Some f => remove c path f | None => c end)
    functions c.

(** The registry that the disposer leaves. *)
Definition disposed (path : string) (validate : value) (c : list (string * list nat))
  : list (string * list nat) :=
  match validate with
  | VArr ((_ :: _) as functions) => remove_each path functions c
  | _ => remove c path validate
  end.

(** ** Paths and trees *)

(** A string without [.], [[] and []]. *)
Definition no_special (s : string) : bool :=
  string_forallb (fun c => negb (is_special c)) s.

(** A string without an opening bracket. *)
Definition bracket_free (s : string) : bool :=
  string_forallb (fun c => negb (Ascii.eqb c "[")) s.

(** A value in which no key of any object has an opening bracket. *)
Fixpoint keys_bracket_free (v : value) : bool :=
  match v with
  | VArr xs =>
      forallb (fun x => match x with Some y => keys_bracket_free y | None => true end) xs
  | VObj kvs =>
      forallb (fun kv => bracket_free (fst kv) && keys_bracket_free (snd kv)) kvs
  | _ => true
  end.

(** Deep equality of values, as lodash's [isEqual] decides it on plain data:
    arrays are compared index by index (a hole reads as [undefined]), objects
    by their sets of keys and the values under each key. *)
Fixpoint deep_equal (a b : value) {struct a} : bool :=
  match a, b with
  | VUndef, VUndef => true
  | VNull, VNull => true
  | VBool x, VBool y => Bool.eqb x y
  | VNum x, VNum y => (x =? y)%Z
  | VStr x, VStr y => String.eqb x y
  | VFun f, VFun g => Nat.eqb f g
  | VArr xs, VArr ys =>
      (fix elems (xs ys : list (option value)) {struct xs} : bool :=
         match xs, ys with
         | [], [] => true
         | x :: xs', y :: ys' =>
             match x, y with
             | Some u, Some w => deep_equal u w
             | Some u, None => deep_equal u VUndef
             | None, Some w => match w with VUndef => true | _ => false end
             | None, None => true
             end && elems xs' ys'
         | _, _ => false
         end) xs ys
  | VObj kvs, VObj kvs' =>
      Nat.eqb (List.length kvs) (List.length kvs')
      && (fix entries (kvs : list (string * value)) {struct kvs} : bool :=
            match kvs with
            | [] => true
            | (k, u) :: r =>
                match assoc k kvs' with
                | Some w => deep_equal u w
                | None => false
                end && entries r
            end) kvs
  | _, _ => false
  end.

(** The keys of a flat form are non-empty words; its values are neither
    objects nor arrays. *)
Definition flat_key (k : string) : bool :=
  reIsPlainProp k && negb (String.eqb k EmptyString).

(** A flat form, such as the login form of the demonstration. *)
Definition flat_form (v : value) : bool :=
  match v with
  | VObj kvs =>
      forallb (fun kv => flat_key (fst kv) && negb (is_object_non_null (snd kv))) kvs
  | _ => false
  end.

(** A store whose value tree is a plain object. *)
Definition rooted (s : store) : Prop := exists kvs, formValue s = VObj kvs.

(** The store after a sequence of [setValue] calls; a call that throws leaves
    the store as it was when it threw. *)
Definition setValues (call : nat -> value -> value)
    (contextValidator : option (value -> value -> value))
    (calls : list (string * value)) (s : store) : store :=
  fold_left (fun s c => snd (setFormValue call contextValidator (fst c) (snd c) s)) calls s.

(** What [pullAt] leaves of the entry of a tree at the path of the array. *)
Definition shifted (index : Z) (a : value) : value :=
  match a with
  | VArr ys => if (0 <=? index)%Z then VArr (remove_nth (Z.to_nat index) ys) else a
  | _ => a
  end.

(** An overlay tree is aligned at a path when it holds an array there, or
    nothing, or a value that [pullAt] passes over: the empty string that a
    passing validator leaves, a number or a boolean. *)
Definition array_or_absent (a : value) : Prop :=
  match a with
  | VArr _ | VUndef | VNull | VNum _ | VBool _ => True
  | VStr s => s = EmptyString
  | _ => False
  end.

(** ** Observers *)

(** The observers that [setValue(path, _)] calls: those of the whole form,
    then those of the path. *)
Definition observers_of (s : store) (path : string) : list nat :=
  forceUpdates s ++ default [] (assoc path (forceUpdatesByPath s)).

(** The observers of the paths [keys], path after path. *)
Definition observers_of_paths (s : store) (keys : list string) : list nat :=
  concat (map (fun k => default [] (assoc k (forceUpdatesByPath s))) keys).

(** The names of the members that a plain object inherits from
    [Object.prototype]. In the source a registry is a plain object, and
    [container[path]] finds these members under their names. *)
Definition inherited (path : string) : bool :=
  existsb (String.eqb path)
    ["constructor"; "__defineGetter__"; "__defineSetter__"; "hasOwnProperty";
     "__lookupGetter__"; "__lookupSetter__"; "isPrototypeOf";
     "propertyIsEnumerable"; "toString"; "valueOf"; "__proto__"; "toLocaleString"].

(** ** The steps of [setFormValue] and of [subscribe] *)

(** [setFormValue] up to the force updates. *)
Definition before_notify (call : nat -> value -> value)
    (contextValidator : option (value -> value -> value))
    (path : string) (v : value) : M unit :=
  o <- gets formValue ;;
  t <- lift (set o path v) ;;
  modify (with_formValue t) ;;
  runLocalValidators call path v ;;
  runContextValidator contextValidator path ;;
  trackInvalidPath path ;;
  updateFormValid.

(** The first half of [setFormValue]: the write and the local validators. *)
Definition write_and_validate (call : nat -> value -> value) (path : string) (v : value)
  : M unit :=
  o <- gets formValue ;;
  t <- lift (set o path v) ;;
  modify (with_formValue t) ;;
  runLocalValidators call path v.

(** The second half: the context validator, the bookkeeping of validity and
    the force updates. *)
Definition after_validation (contextValidator : option (value -> value -> value))
    (path : string) : M unit :=
  runContextValidator contextValidator path ;;
  trackInvalidPath path ;;
  updateFormValid ;;
  triggerForceUpdates path.

(** The registration of the validators: the first two steps of [subscribe]. *)
Definition register_validators (path : string) (validate : value) : M unit :=
  match validate with
  | VArr ((_ :: _) as functions) =>
      forEach functions (fun validateFunction =>
        match validateFunction with
        | None => ret tt
        | Some (VFun f) =>
            modify (fun s => with_localValidators (push (localValidators s) path f) s)
        | Some _ => throw (InvalidValidate path)
        end)
  | _ => ret tt
  end ;;
  match validate with
  | VFun f => modify (fun s => with_localValidators (push (localValidators s) path f) s)
  | _ => ret tt
  end.

(** The initialisation of the path: the rest of [subscribe]. *)
Definition initialise_path (call : nat -> value -> value)
    (contextValidator : option (value -> value -> value))
    (path : string) (validate : value) : M (M unit) :=
  (if String.eqb path EmptyString then throw OutsideModel else ret tt) ;;
  v <- gets (getFormValues path) ;;
  setFormValue call contextValidator path v ;;
  d <- gets (getFormDirty path) ;;
  setFormDirty path d ;;
  e <- gets (getFormError path) ;;
  setFormError path e ;;
  ret (unsubscribe path validate).

(** A context validator that reports nothing: there is none, or the tree it
    returns has no leaf. *)
Definition quiet (contextValidator : option (value -> value -> value)) : Prop :=
  match contextValidator with
  | Some validate =>
      forall values errors, keyify (validate values errors) EmptyString = Ok []
  | None => True
  end.

(** The message that the validators [fs], called in this order on [v], leave:
    the first truthy result, or else the last result, or else the empty
    string. *)
Definition first_message (call : nat -> value -> value) (fs : list nat) (v : value)
  : value :=
  fold_left (fun acc f => if truthy acc then acc else call f v) fs (VStr EmptyString).

(** The list of validators of a path, as the registry holds it. *)
Definition validator_list (fs : list nat) : value :=
  VArr (map (fun f => Some (VFun f)) fs).

(** A tree in which [path] can be written and read back: it is an object and
    the path has at least one key. *)
Definition addressable (path : string) (o : value) : Prop :=
  isObject o = true /\ castPath path o <> [].

(** ** Sequences of operations *)

(** The store after a sequence of operations; an operation that throws
    leaves the store as it was when it threw. *)
Definition runs (call : nat -> value -> value)
    (contextValidator : option (value -> value -> value))
    (ops : list operation) (s : store) : store :=
  fold_left (fun s o => snd (run call contextValidator o s)) ops s.



(** ** The parameters of [initialize] *)

(** The parameter [replaceInitState], whose default is [true]. *)
Definition replaces_snapshot (replaceInitState : value) : bool :=
  truthy (match replaceInitState with VUndef => VBool true | r => r end).

(** The option [keepDirty], whose default is [false]. *)
Definition keeps_dirty (options : value) : bool :=
  truthy (prop options "keepDirty").

(** ** Items of a list *)

(** The path of the item [n] of the list at [path], as [arrayPush] writes
    it. *)
Definition item_path (path : string) (n : N) : string :=
  path +:+ "[" +:+ pretty n +:+ "]".

(** ** Trees on which [keyify] fails *)

(** An array with an element that is [null] or [undefined]. *)
Definition has_nullish_item (c : value) : bool :=
  match c with
  | VArr ys => existsb (fun y => match y with Some z => is_nullish z | None => false end) ys
  | _ => false
  end.

(** A tree in which some array that is the value of a key, or an element of
    an array, holds [null] or [undefined]. *)
Fixpoint trips (v : value) : bool :=
  match v with
  | VArr xs =>
      existsb (fun x => match x with
                        | Some c => has_nullish_item c || trips c
                        | None => false
                        end) xs
  | VObj kvs => existsb (fun kv => has_nullish_item (snd kv) || trips (snd kv)) kvs
  | _ => false
  end.

(** [null] or [undefined] among the elements of an array, or an element on
    which [keyify] fails. *)
Definition nested_trips (c : value) : bool :=
  match c with
  | VArr ys =>
      existsb (fun y => match y with Some z => is_nullish z || trips z | None => false end) ys
  | _ => false
  end.

(** The outcome [o] is a [TypeError] when [b] holds, and a result when not. *)
Definition fails_when {A : Type} (o : outcome A) (b : bool) : Prop :=
  match o with
  | Ok _ => b = false
  | Throw e => e = TypeError /\ b = true
  end.

(** [keyify] fails on [v], whatever the prefix, exactly when [v] is [null]
    or [undefined] or trips. *)
Definition keyify_fails_when (v : value) : Prop :=
  forall prefix, fails_when (keyify v prefix) (is_nullish v || trips v).

(** The same for the elements of [v], when [v] is an array. *)
Definition items_fail_when (v : value) : Prop :=
  match v with
  | VArr ys =>
      Forall (fun y => match y with Some z => keyify_fails_when z | None => True end) ys
  | _ => True
  end.

(** ** The leaves of a tree *)

(** A leaf under the key [k]. *)
Definition under (k : string) (l : list string * value) : list string * value :=
  (k :: fst l, snd l).

(** The leaves of a tree, each with the keys that lead to it, in the order
    of [Object.keys]: the values under a key, or an index, that are neither
    objects nor arrays. An empty container has no leaf. *)
Fixpoint leaves (v : value) : list (list string * value) :=
  match v with
  | VObj kvs =>
      flat_map (fun kv =>
        if is_object_non_null (snd kv)
        then map (under (fst kv)) (leaves (snd kv))
        else [([fst kv], snd kv)]) kvs
  | VArr xs =>
      (fix elems (xs : list (option value)) (i : N) {struct xs}
         : list (list string * value) :=
         match xs with
         | [] => []
         | None :: rest => elems rest (N.succ i)
         | Some c :: rest =>
             (if is_object_non_null c
              then map (under (pretty i)) (leaves c)
              else [([pretty i], c)])
             ++ elems rest (N.succ i)
         end) xs 0%N
  | VStr s =>
      (fix chars (s : string) (i : N) {struct s} : list (list string * value) :=
         match s with
         | EmptyString => []
         | String c r => ([pretty i], VStr (String c EmptyString)) :: chars r (N.succ i)
         end) s 0%N
  | _ => []
  end.

(** The path that [keyify] writes for a leaf: the keys, joined by dots,
    after the prefix. *)
Definition path_of (prefix : string) (l : list string * value) : string :=
  prefix +:+ String.concat "." (fst l).

(** The leaves under one key or index. *)
Definition leaves_below (k : string) (c : value) : list (list string * value) :=
  if is_object_non_null c then map (under k) (leaves c) else [([k], c)].

(** A key that a path can carry: not empty, and without [.], [[] and []]. *)
Definition simple_key (k : string) : bool :=
  no_special k && negb (String.eqb k EmptyString).

(** A list of keys without a repetition. *)
Fixpoint distinct (ks : list string) : bool :=
  match ks with
  | [] => true
  | k :: r => negb (existsb (String.eqb k) r) && distinct r
  end.

(** A tree whose objects have distinct, simple keys, and whose arrays are no
    longer than an array of the language can be. *)
Fixpoint well_keyed (v : value) : bool :=
  match v with
  | VObj kvs =>
      distinct (map fst kvs)
      && forallb (fun kv => simple_key (fst kv) && well_keyed (snd kv)) kvs
  | VArr xs =>
      (N.of_nat (List.length xs) <=? 4294967295)%N
      && forallb (fun x => match x with Some y => well_keyed y | None => true end) xs
  | _ => true
  end.

(** ** Writes along the keys of leaves *)





(** ** Test data *)

(** The validators used in the examples below: function [0] is
    [v => v ? '' : 'required'], function [1] is
    [v => v.length > 1 ? 'too many' : ''] on arrays; every other function
    object accepts every value. *)
Definition example_call (f : nat) (v : value) : value :=
  match f, v with
  | 0, _ => if truthy v then VStr EmptyString else VStr "required"
  | 1, VArr (_ :: _ :: _) => VStr "too many"
  | _, _ => VStr EmptyString
  end.

(** A context validator that always reports an error at the path [other]. *)
Definition example_contextValidator (values errors : value) : value :=
  VObj [("other", VStr "bad")].

(** A form with a list of two numbers. *)
Definition two_items : value := VObj [("items", VArr [Some (VNum 1); Some (VNum 2)])].

(** A form whose list [items] holds two strings. *)
Definition two_strings : value :=
  VObj [("items", VArr [Some (VStr "a"); Some (VStr "b")])].

(** That form with validator [1] registered on the list itself, which
    rejects it, and with observer [7] watching the list. *)
Definition validated_list : store :=
  snd ((subscribe example_call None "items" (VFun 1) ;;
        subscribeForceUpdate "items" 7) (FormProvider two_strings)).

(** An empty form on which function [0] is registered once, then twice,
    for the path [a]. *)
Definition once_registered : store :=
  snd (subscribe example_call None "a" (VFun 0) (FormProvider (VObj []))).

Definition twice_registered : store :=
  snd (subscribe example_call None "a" (VFun 0) once_registered).

(** A form with one blank item, whose field [items[0]] is required. *)
Definition one_blank : value := VObj [("items", VArr [Some (VStr EmptyString)])].

(** That field registered, and the item then removed. *)
Definition blank_removed : outcome unit * store :=
  (subscribe example_call None "items[0]" (VFun 0) ;; arrayRemove "items" 0)
    (FormProvider one_blank).

(** A form with an empty password. *)
Definition password_form : store := FormProvider (VObj [("password", VStr EmptyString)]).


(** The form of the demonstration, and the store after two edits of it, one
    of them at a path that the form does not have. *)
Definition login_form : value := VObj [("username", VStr "123"); ("password", VStr "123")].

Definition login_edited : store :=
  setValues example_call None
    [("username", VStr "ann"); ("extra", VNum 1)] (FormProvider login_form).

(** A context validator that returns nothing. *)
Definition silent_validator (values errors : value) : value := VUndef.

(** The form of the demonstration with the field [username] mounted as a
    required field, and observer [7] watching it. *)
Definition login_mounted : store :=
  snd ((subscribe example_call None "username" (VFun 0) ;;
        subscribeForceUpdate "username" 7) (FormProvider login_form)).

(** An empty form initialized with the form of the demonstration. *)
Definition login_initialized : store :=
  snd (initialize example_call None login_form VUndef (VObj []) (FormProvider (VObj []))).

(** A form with an empty list [items], and validator [0] registered on the
    list itself. *)
Definition watched_list : store :=
  snd (subscribe example_call None "items" (VFun 0)
         (FormProvider (VObj [("items", VArr [])]))).

(** A tree with a list of two objects. *)
Definition two_rows : value :=
  VObj [("k", VArr [Some (VObj [("x", VNum 1)]); Some (VObj [("x", VNum 2)])])].



(** * Proofs *)

(** ** Runs *)

Lemma bind_Ok_inv {A B : Type} (m : M A) (f : A -> M B) s b s' :
  bind m f s = (Ok b, s') ->
  exists a s1, m s = (Ok a, s1) /\ f a s1 = (Ok b, s').
Proof.
  unfold bind. destruct (m s) as [[a|e] s1]; [|discriminate].
  intros H. exists a, s1. split; [reflexivity|exact H].
Qed.

Lemma preserves_ret {A B : Type} (proj : store -> B) (a : A) : preserves proj (ret a).
Proof. intros s. reflexivity. Qed.

Lemma preserves_throw {A B : Type} (proj : store -> B) (e : error) :
  preserves proj (@throw A e).
Proof. intros s. reflexivity. Qed.

Lemma preserves_gets {A B : Type} (proj : store -> B) (f : store -> A) :
  preserves proj (gets f).
Proof. intros s. reflexivity. Qed.

Lemma preserves_lift {A B : Type} (proj : store -> B) (o : outcome A) :
  preserves proj (lift o).
Proof. intros s. reflexivity. Qed.

Lemma preserves_modify {B : Type} (proj : store -> B) (f : store -> store) :
  (forall s, proj (f s) = proj s) -> preserves proj (modify f).
Proof. intros H s. apply H. Qed.

Lemma preserves_bind {A B C : Type} (proj : store -> C) (m : M A) (f : A -> M B) :
  preserves proj m -> (forall a, preserves proj (f a)) -> preserves proj (bind m f).
Proof.
  intros Hm Hf s. unfold bind. specialize (Hm s).
  destruct (m s) as [[a|e] s1]; simpl in *.
  - rewrite (Hf a s1). exact Hm.
  - exact Hm.
Qed.

Lemma preserves_forEach {A C : Type} (proj : store -> C) (l : list A) (f : A -> M unit) :
  (forall x, preserves proj (f x)) -> preserves proj (forEach l f).
Proof.
  intros Hf. induction l as [|x l IH]; simpl.
  - apply preserves_ret.
  - apply preserves_bind; [apply Hf|intros _; exact IH].
Qed.

Ltac preserve :=
  repeat first
    [ progress intros
    | apply preserves_ret
    | apply preserves_throw
    | apply preserves_gets
    | apply preserves_lift
    | apply preserves_bind
    | apply preserves_forEach
    | apply preserves_modify; intros; reflexivity
    | match goal with
      | |- preserves _ (match ?x with _ => _ end) => destruct x
      end ].

Ltac unfold_store :=
  unfold setFormValue, runLocalValidators, runContextValidator, mergeErrorPath,
    trackInvalidPath, updateFormValid, triggerForceUpdates, forceUpdatePath,
    forceUpdate, setFormError, setFormDirty.

(** ** [keyify] *)

Lemma keyify_skip_empty_array prefix kvs1 kvs2 k :
  keyify (VObj (kvs1 ++ (k, VArr []) :: kvs2)) prefix
  = keyify (VObj (kvs1 ++ kvs2)) prefix.
Proof.
  cbn [keyify]. generalize (@nil string) as res.
  induction kvs1 as [|[el v] kvs1 IH]; intros res.
  - cbn. rewrite app_nil_r. reflexivity.
  - cbn [app].
    match goal with
    | |- outcome_bind ?x _ = outcome_bind ?y _ => change y with x; destruct x as [r|e]
    end.
    + cbn [outcome_bind]. apply IH.
    + reflexivity.
Qed.

Lemma keyify_skip_empty_object prefix kvs1 kvs2 k :
  keyify (VObj (kvs1 ++ (k, VObj []) :: kvs2)) prefix
  = keyify (VObj (kvs1 ++ kvs2)) prefix.
Proof.
  cbn [keyify]. generalize (@nil string) as res.
  induction kvs1 as [|[el v] kvs1 IH]; intros res.
  - cbn. rewrite app_nil_r. reflexivity.
  - cbn [app].
    match goal with
    | |- outcome_bind ?x _ = outcome_bind ?y _ => change y with x; destruct x as [r|e]
    end.
    + cbn [outcome_bind]. apply IH.
    + reflexivity.
Qed.

Lemma keyify_scalar_last prefix kvs k v :
  is_object_non_null v = false ->
  keyify (VObj (kvs ++ [(k, v)])) prefix
  = outcome_bind (keyify (VObj kvs) prefix) (fun r => Ok (r ++ [prefix +:+ k])).
Proof.
  intros Hv. cbn [keyify].
  match goal with
  | |- ?F (kvs ++ _) [] = outcome_bind (?F kvs []) ?g =>
      enough (H : forall res, F (kvs ++ [(k, v)]) res = outcome_bind (F kvs res) g)
        by apply H
  end.
  induction kvs as [|[el w] kvs IH]; intros res.
  - destruct v; try discriminate Hv; reflexivity.
  - cbn [app].
    match goal with
    | |- outcome_bind ?x _ = outcome_bind (outcome_bind ?y _) _ =>
        change y with x; destruct x as [r|e]
    end.
    + cbn [outcome_bind]. apply IH.
    + reflexivity.
Qed.

(** C9. [keyify({a: {b: 1}, c: []})] is exactly [['a.b']]; more generally a
    key that holds an empty array, or an empty object, adds no path to the
    result wherever it stands in the object, and a key that holds a scalar
    adds its own path. *)
Theorem keyify_empty_containers :
  keyify (VObj [("a", VObj [("b", VNum 1)]); ("c", VArr [])]) EmptyString = Ok ["a.b"]
  /\ (forall prefix kvs1 kvs2 k,
        keyify (VObj (kvs1 ++ (k, VArr []) :: kvs2)) prefix
        = keyify (VObj (kvs1 ++ kvs2)) prefix)
  /\ (forall prefix kvs1 kvs2 k,
        keyify (VObj (kvs1 ++ (k, VObj []) :: kvs2)) prefix
        = keyify (VObj (kvs1 ++ kvs2)) prefix)
  /\ (forall prefix kvs k v,
        is_object_non_null v = false ->
        keyify (VObj (kvs ++ [(k, v)])) prefix
        = outcome_bind (keyify (VObj kvs) prefix) (fun r => Ok (r ++ [prefix +:+ k]))).
Proof.
  split; [reflexivity|].
  split; [exact keyify_skip_empty_array|].
  split; [exact keyify_skip_empty_object|].
  exact keyify_scalar_last.
Qed.

(** ** [keyify] never writes a bracket *)

Section ValueInduction.

Variable P : value -> Prop.
Hypothesis HUndef : P VUndef.
Hypothesis HNull : P VNull.
Hypothesis HBool : forall b, P (VBool b).
Hypothesis HNum : forall n, P (VNum n).
Hypothesis HStr : forall s, P (VStr s).
Hypothesis HFun : forall f, P (VFun f).
Hypothesis HArr : forall xs,
  Forall (fun x => match x with Some y => P y | None => True end) xs -> P (VArr xs).
Hypothesis HObj : forall kvs, Forall (fun kv => P (snd kv)) kvs -> P (VObj kvs).

Fixpoint value_induction (v : value) : P v :=
  match v with
  | VUndef => HUndef
  | VNull => HNull
  | VBool b => HBool b
  | VNum n => HNum n
  | VStr s => HStr s
  | VFun f => HFun f
  | VArr xs =>
      HArr xs
        ((fix each (xs : list (option value))
            : Forall (fun x => match x with Some y => P y | None => True end) xs :=
            match xs with
            | [] => @List.Forall_nil _ _
            | x :: r =>
                @List.Forall_cons _ _ x r
                  (match x as x0 return match x0 with Some y => P y | None => True end
                   with
                   | Some y => value_induction y
                   | None => I
                   end)
                  (each r)
            end) xs)
  | VObj kvs =>
      HObj kvs
        ((fix each (kvs : list (string * value)) : Forall (fun kv => P (snd kv)) kvs :=
            match kvs with
            | [] => @List.Forall_nil _ _
            | kv :: r => @List.Forall_cons _ _ kv r (value_induction (snd kv)) (each r)
            end) kvs)
  end.

End ValueInduction.

Lemma string_forallb_append p a b :
  string_forallb p (a +:+ b) = string_forallb p a && string_forallb p b.
Proof.
  induction a as [|c a IH]; [reflexivity|].
  simpl. rewrite IH. apply andb_assoc.
Qed.

Lemma pretty_N_char_digit x : is_digit (pretty_N_char x) = true.
Proof. unfold pretty_N_char. repeat case_match; reflexivity. Qed.

Lemma pretty_N_go_digits x : forall s,
  string_forallb is_digit s = true -> string_forallb is_digit (pretty_N_go x s) = true.
Proof.
  induction (N.lt_wf_0 x) as [x _ IH]. intros s Hs.
  destruct (N.eq_dec x 0%N) as [->|Hx].
  - rewrite pretty_N_go_0. exact Hs.
  - rewrite pretty_N_go_step by lia. apply IH.
    + apply N.div_lt; lia.
    + cbn [string_forallb]. rewrite pretty_N_char_digit. exact Hs.
Qed.

Lemma pretty_N_digits (x : N) : string_forallb is_digit (pretty x) = true.
Proof.
  unfold pretty, pretty_N. destruct (decide (x = 0%N)); [reflexivity|].
  apply pretty_N_go_digits. reflexivity.
Qed.

Lemma digit_not_bracket c : is_digit c = true -> negb (Ascii.eqb c "[") = true.
Proof.
  destruct c as [[] [] [] [] [] [] [] []]; intros H;
    first [reflexivity | discriminate H].
Qed.

Lemma digits_bracket_free s :
  string_forallb is_digit s = true -> bracket_free s = true.
Proof.
  unfold bracket_free. induction s as [|c r IH]; cbn [string_forallb]; [reflexivity|].
  intros H. apply andb_prop in H as [H1 H2].
  rewrite (digit_not_bracket _ H1), (IH H2). reflexivity.
Qed.

Lemma bracket_free_append a b :
  bracket_free a = true -> bracket_free b = true -> bracket_free (a +:+ b) = true.
Proof.
  unfold bracket_free. intros Ha Hb. rewrite string_forallb_append, Ha, Hb. reflexivity.
Qed.

Lemma char_indices_bracket_free prefix s : forall i,
  bracket_free prefix = true ->
  Forall (fun p => bracket_free p = true)
    (map (fun el => prefix +:+ el) (char_indices i s)).
Proof.
  induction s as [|c r IH]; intros i Hp; cbn [char_indices map]; constructor.
  - apply bracket_free_append; [exact Hp|].
    apply digits_bracket_free, pretty_N_digits.
  - apply IH, Hp.
Qed.

(** One step of the [reduce] adds paths without brackets to paths without
    brackets. *)
Lemma keyify_entry_bracket_free prefix el v nested deeper res paths :
  bracket_free prefix = true -> bracket_free el = true ->
  (forall r, deeper = Ok r -> Forall (fun p => bracket_free p = true) r) ->
  Forall (fun p => bracket_free p = true) res ->
  keyify_entry prefix el v nested deeper res = Ok paths ->
  Forall (fun p => bracket_free p = true) paths.
Proof.
  intros Hp Hel Hdeep Hres. unfold keyify_entry.
  destruct nested as [[]|e]; [|discriminate]. cbn [outcome_bind].
  destruct (is_object_non_null v).
  - destruct deeper as [r|e]; [|discriminate]. cbn [outcome_bind].
    intros H. injection H as <-. apply Forall_app. split; [exact Hres|].
    apply Hdeep. reflexivity.
  - intros H. injection H as <-. apply Forall_app. split; [exact Hres|].
    constructor; [|constructor]. apply bracket_free_append; assumption.
Qed.

(** X1. When neither the prefix nor a key of the tree contains an opening
    bracket, no path that [keyify] returns contains one: the bracketed
    prefixes that the code builds for the elements of an array never reach
    the result. *)
Lemma keyify_bracket_free v : forall prefix paths,
  keys_bracket_free v = true ->
  bracket_free prefix = true ->
  keyify v prefix = Ok paths ->
  Forall (fun p => bracket_free p = true) paths.
Proof.
  induction v as [| | | | | |xs IH|kvs IH] using value_induction;
    intros prefix paths Hkeys Hprefix; cbn [keyify];
    try discriminate;
    try (intros H; injection H as <-; constructor).
  - intros H. injection H as <-. apply char_indices_bracket_free, Hprefix.
  - cbn [keys_bracket_free] in Hkeys.
    match goal with
    | |- ?elems xs 0%N [] = Ok paths -> _ =>
        enough (H : forall i res,
                  Forall (fun p => bracket_free p = true) res ->
                  elems xs i res = Ok paths ->
                  Forall (fun p => bracket_free p = true) paths)
          by (apply H; constructor)
    end.
    induction IH as [|x xs Hx _ IHxs]; intros i res Hres.
    + intros H. injection H as <-. exact Hres.
    + cbn [forallb] in Hkeys. apply andb_prop in Hkeys as [Hkx Hkxs].
      destruct x as [y|]; [|exact (IHxs Hkxs _ _ Hres)].
      match goal with
      | |- outcome_bind ?e _ = _ -> _ => destruct e as [r|e'] eqn:E
      end; [|discriminate].
      cbn [outcome_bind]. refine (IHxs Hkxs _ _ _).
      revert E. apply keyify_entry_bracket_free; try assumption.
      * apply digits_bracket_free, pretty_N_digits.
      * intros r0 Hr0. revert Hr0. apply Hx; [exact Hkx|].
        repeat apply bracket_free_append; try assumption; try reflexivity.
        apply digits_bracket_free, pretty_N_digits.
  - cbn [keys_bracket_free] in Hkeys.
    match goal with
    | |- ?entries kvs [] = Ok paths -> _ =>
        enough (H : forall res,
                  Forall (fun p => bracket_free p = true) res ->
                  entries kvs res = Ok paths ->
                  Forall (fun p => bracket_free p = true) paths)
          by (apply H; constructor)
    end.
    induction IH as [|[el y] kvs Hy _ IHkvs]; intros res Hres.
    + intros H. injection H as <-. exact Hres.
    + cbn [forallb fst snd] in Hkeys. apply andb_prop in Hkeys as [Hk Hkkvs].
      apply andb_prop in Hk as [Hel Hky].
      match goal with
      | |- outcome_bind ?e _ = _ -> _ => destruct e as [r|e'] eqn:E
      end; [|discriminate].
      cbn [outcome_bind]. refine (IHkvs Hkkvs _ _).
      revert E. apply keyify_entry_bracket_free; try assumption.
      intros r0 Hr0. revert Hr0. apply Hy; [exact Hky|].
      repeat apply bracket_free_append; try assumption; reflexivity.
Qed.

Lemma keyify_bracket_free_witness :
  Forall (fun p => bracket_free p = true) ["k.0.x"; "k.1.x"].
Proof.
  apply (keyify_bracket_free two_rows EmptyString); reflexivity.
Defined.

(** C2 (code at the failing input). For [{k: [{x: 1}, {x: 2}]}] the paths
    that [keyify] emits address the elements through dotted indices
    ([k.0.x], [k.1.x]); no path in bracket notation is emitted. *)
Theorem keyify_array_dotted :
  keyify (VObj [("k", VArr [Some (VObj [("x", VNum 1)]); Some (VObj [("x", VNum 2)])])])
    EmptyString
  = Ok ["k.0.x"; "k.1.x"].
Proof. reflexivity. Qed.

(** ** The context validator *)

(** C3 (code at the failing input). With a context validator that returns
    [{other: 'bad'}], [setValue('x', 1)] on an empty form writes the message
    into the error tree at [other], yet [other] is not added to the set of
    invalid paths, which stays empty, and the form is reported valid. *)
Theorem setFormValue_context_paths_not_marked :
  let s := snd (setFormValue example_call (Some example_contextValidator)
                  "x" (VNum 1) (FormProvider (VObj []))) in
  getFormError "other" s = VStr "bad"
  /\ ("other" ∉ invalidPathSet s)
  /\ invalidPathSet s = ∅
  /\ getFormValid s = true.
Proof.
  intros s.
  assert (H : invalidPathSet s = ∅) by (vm_compute; reflexivity).
  split; [vm_compute; reflexivity|].
  split; [rewrite H; apply not_elem_of_empty|].
  split; [exact H|vm_compute; reflexivity].
Qed.

(** ** Registration of validators *)

(** C5 (code at the failing input). Registering the string ['required'] as
    the validator of a path throws nothing: [subscribe] returns normally and
    the registry of validators stays empty. A list with a non-function
    element, on the other hand, is refused. *)
Theorem subscribe_string_validator_ignored :
  fst (subscribe example_call None "a" (VStr "required") (FormProvider (VObj [])))
  = Ok (unsubscribe "a" (VStr "required"))
  /\ localValidators
       (snd (subscribe example_call None "a" (VStr "required") (FormProvider (VObj []))))
     = []
  /\ fst (subscribe example_call None "a" (VArr [Some (VStr "required")])
            (FormProvider (VObj [])))
     = Throw (InvalidValidate "a").
Proof. repeat split; vm_compute; reflexivity. Qed.

(** ** Arrays *)

(** C7 (code at the failing input). On [items: [1, 2]], pushing [0], the
    empty string or [false] leaves the array as it is, while pushing [7]
    appends it. *)
Theorem arrayPush_falsy_not_appended :
  formValue (snd (arrayPush example_call None "items" (VNum 0) (FormProvider two_items)))
  = two_items
  /\ formValue (snd (arrayPush example_call None "items" (VStr EmptyString)
                       (FormProvider two_items)))
     = two_items
  /\ formValue (snd (arrayPush example_call None "items" (VBool false)
                       (FormProvider two_items)))
     = two_items
  /\ formValue (snd (arrayPush example_call None "items" (VNum 7) (FormProvider two_items)))
     = VObj [("items", VArr [Some (VNum 1); Some (VNum 2); Some (VNum 7)])].
Proof. repeat split; vm_compute; reflexivity. Qed.

(** C6 (code at the failing input). When the error tree holds a message for
    the list itself, [arrayRemove('items', 0)] removes the element from the
    value tree and then fails with a [TypeError] on the error tree: the dirty
    tree is not reached and the observers of the path are not called. *)
Theorem arrayRemove_fails_on_list_error :
  getFormError "items" validated_list = VStr "too many"
  /\ (let r := arrayRemove "items" 0 validated_list in
      fst r = Throw TypeError
      /\ formValue (snd r) = VObj [("items", VArr [Some (VStr "b")])]
      /\ formError (snd r) = formError validated_list
      /\ rendered (snd r) = rendered validated_list).
Proof. repeat split; vm_compute; reflexivity. Qed.

(** ** The registry of validators *)

Lemma assoc_reg_put_eq path fs c : assoc path (reg_put path fs c) = Some fs.
Proof.
  induction c as [|[p l] c IH]; simpl.
  - rewrite String.eqb_refl. reflexivity.
  - destruct (String.eqb path p) eqn:E; simpl; rewrite E; [reflexivity|exact IH].
Qed.

Lemma assoc_reg_put_ne path q fs c :
  q <> path -> assoc q (reg_put path fs c) = assoc q c.
Proof.
  intros Hq. apply String.eqb_neq in Hq.
  induction c as [|[p l] c IH]; simpl.
  - rewrite Hq. reflexivity.
  - destruct (String.eqb path p) eqn:E; simpl.
    + apply String.eqb_eq in E. subst p. rewrite Hq. reflexivity.
    + rewrite IH. reflexivity.
Qed.

Lemma validators_in_remove_eq c path v :
  validators_in (remove c path v) path
  = List.filter (fun g => differs g v) (validators_in c path).
Proof. unfold validators_in, remove. rewrite assoc_reg_put_eq. reflexivity. Qed.

Lemma assoc_remove_ne c path q v :
  q <> path -> assoc q (remove c path v) = assoc q c.
Proof. intros Hq. unfold remove. apply assoc_reg_put_ne, Hq. Qed.

Lemma with_localValidators_twice c c' s :
  with_localValidators c (with_localValidators c' s) = with_localValidators c s.
Proof. reflexivity. Qed.

Lemma with_localValidators_same s : with_localValidators (localValidators s) s = s.
Proof. destruct s; reflexivity. Qed.

Lemma forEach_remove path functions s :
  forEach functions (fun validateFunction =>
    match validateFunction with
    | None => ret tt
    | Some f =>
        modify (fun s => with_localValidators (remove (localValidators s) path f) s)
    end) s
  = (Ok tt, with_localValidators (remove_each path functions (localValidators s)) s).
Proof.
  revert s. induction functions as [|x functions IH]; intros s.
  - simpl. unfold ret. rewrite with_localValidators_same. reflexivity.
  - simpl. unfold bind. destruct x as [f|]; simpl.
    + rewrite IH. reflexivity.
    + rewrite IH. reflexivity.
Qed.

Lemma unsubscribe_run path validate s :
  unsubscribe path validate s
  = (Ok tt,
     with_localValidators
       match validate with
       | VArr ((_ :: _) as functions) => remove_each path functions (localValidators s)
       | _ => remove (localValidators s) path validate
       end s).
Proof.
  unfold unsubscribe.
  destruct validate as [| | | | | |[|x functions]|]; try reflexivity.
  apply forEach_remove.
Qed.

Lemma validators_in_remove_each path functions c :
  validators_in (remove_each path functions c) path
  = List.filter
      (fun g => forallb (fun x => match x with Some v => differs g v | None => true end)
                  functions)
      (validators_in c path).
Proof.
  revert c. induction functions as [|x functions IH]; intros c.
  - simpl. induction (validators_in c path) as [|g l IHl]; simpl; [reflexivity|].
    rewrite <- IHl. reflexivity.
  - change (remove_each path (x :: functions) c)
      with (remove_each path functions
              match x with Some f => remove c path f | None => c end).
    rewrite IH. simpl. destruct x as [v|].
    + rewrite validators_in_remove_eq.
      induction (validators_in c path) as [|g l IHl]; simpl; [reflexivity|].
      destruct (differs g v); simpl.
      * destruct (forallb _ functions); simpl; rewrite IHl; reflexivity.
      * exact IHl.
    + reflexivity.
Qed.

Lemma assoc_remove_each_ne path q functions c :
  q <> path -> assoc q (remove_each path functions c) = assoc q c.
Proof.
  intros Hq. revert c. induction functions as [|x functions IH]; intros c.
  - reflexivity.
  - change (remove_each path (x :: functions) c)
      with (remove_each path functions
              match x with Some f => remove c path f | None => c end).
    rewrite IH. destruct x; [apply assoc_remove_ne, Hq|reflexivity].
Qed.

Lemma differs_registers fs g :
  forallb (fun x => match x with Some v => differs g v | None => true end) fs
  = negb (registers (VArr fs) g).
Proof.
  induction fs as [|x fs IH]; simpl; [reflexivity|].
  simpl in IH. rewrite IH.
  destruct x as [[]|]; simpl; try reflexivity.
  destruct (Nat.eqb g f); reflexivity.
Qed.

Lemma validators_in_disposed path validate c :
  validators_in (disposed path validate c) path
  = List.filter (fun g => negb (registers validate g)) (validators_in c path).
Proof.
  unfold disposed.
  destruct validate as [| | | | |f|[|x functions]|];
    try (rewrite validators_in_remove_eq; apply filter_ext; intros g; reflexivity).
  rewrite validators_in_remove_each.
  apply filter_ext. intros g. apply differs_registers.
Qed.

Lemma assoc_disposed_ne path q validate c :
  q <> path -> assoc q (disposed path validate c) = assoc q c.
Proof.
  intros Hq. unfold disposed.
  destruct validate as [| | | | | |[|x functions]|];
    try (apply assoc_remove_ne, Hq).
  apply assoc_remove_each_ne, Hq.
Qed.

Lemma filter_all_true {A : Type} (p : A -> bool) (l : list A) :
  (forall x, In x l -> p x = true) -> List.filter p l = l.
Proof.
  induction l as [|a l IH]; simpl; intros H; [reflexivity|].
  rewrite (H a (or_introl eq_refl)). f_equal. apply IH. intros x Hx. apply H. right. exact Hx.
Qed.

(** What the disposer of [subscribe({ path, validate })] does to a store. *)
Lemma unsubscribe_filters (path : string) (validate : value) (s : store) :
  let r := unsubscribe path validate s in
  fst r = Ok tt
  /\ validators_at (snd r) path
     = List.filter (fun g => negb (registers validate g)) (validators_at s path)
  /\ (forall f, registers validate f = true -> ~ In f (validators_at (snd r) path))
  /\ (forall q, q <> path ->
        assoc q (localValidators (snd r)) = assoc q (localValidators s))
  /\ snd r = with_localValidators (localValidators (snd r)) s
  /\ ((forall f, registers validate f = true -> ~ In f (validators_at s path)) ->
      forall q, validators_at (snd r) q = validators_at s q).
Proof.
  intros r. subst r. rewrite unsubscribe_run. cbn [fst snd].
  change (match validate with
          | VArr ((_ :: _) as functions) => remove_each path functions (localValidators s)
          | _ => remove (localValidators s) path validate
          end) with (disposed path validate (localValidators s)).
  assert (Hat : validators_at
                  (with_localValidators (disposed path validate (localValidators s)) s) path
                = List.filter (fun g => negb (registers validate g)) (validators_at s path))
    by apply validators_in_disposed.
  split; [reflexivity|].
  split; [exact Hat|].
  split.
  { intros f Hf Hin. rewrite Hat in Hin. apply filter_In in Hin.
    destruct Hin as [_ Hin]. rewrite Hf in Hin. discriminate Hin. }
  split; [intros q Hq; apply assoc_disposed_ne, Hq|].
  split; [reflexivity|].
  intros Habsent q. destruct (String.eqb q path) eqn:E.
  - apply String.eqb_eq in E. subst q. rewrite Hat.
    apply filter_all_true. intros g Hg.
    destruct (registers validate g) eqn:R; [|reflexivity].
    exfalso. exact (Habsent g R Hg).
  - apply String.eqb_neq in E. unfold validators_at, validators_in. cbn.
    rewrite assoc_disposed_ne by exact E. reflexivity.
Qed.

Lemma validators_in_push c path f :
  validators_in (push c path f) path = validators_in c path ++ [f].
Proof. unfold validators_in, push. rewrite assoc_reg_put_eq. reflexivity. Qed.

Section Disposer.

Variable call : nat -> value -> value.
Variable contextValidator : option (value -> value -> value).

(** The [forEach] of [subscribe] over a list of validators, when it ends
    normally, has pushed every function of the list and removed nothing. *)
Lemma forEach_push_registers path functions : forall s sa,
  forEach functions (fun validateFunction =>
    match validateFunction with
    | None => ret tt
    | Some (VFun f) =>
        modify (fun s => with_localValidators (push (localValidators s) path f) s)
    | Some _ => throw (InvalidValidate path)
    end) s = (Ok tt, sa) ->
  (forall g, In g (validators_at s path) -> In g (validators_at sa path))
  /\ (forall f, registers (VArr functions) f = true -> In f (validators_at sa path)).
Proof.
  induction functions as [|x functions IH]; intros s sa H.
  - cbn in H. injection H as <-. split; [auto|discriminate].
  - cbn [forEach] in H. apply bind_Ok_inv in H as ([] & s1 & H1 & H).
    destruct (IH s1 sa H) as [Hmono Hreg].
    destruct x as [[| | | | |f| |]|]; try discriminate H1.
    + unfold modify in H1. injection H1 as <-. split.
      * intros g Hg. apply Hmono. unfold validators_at in *.
        cbn [localValidators with_localValidators].
        rewrite validators_in_push. apply in_or_app. left. exact Hg.
      * intros g Hg. cbn [registers existsb] in Hg.
        apply orb_prop in Hg as [Hg|Hg]; [|exact (Hreg g Hg)].
        apply Nat.eqb_eq in Hg. subst g. apply Hmono. unfold validators_at.
        cbn [localValidators with_localValidators].
        rewrite validators_in_push. apply in_or_app. right. left. reflexivity.
    + unfold ret in H1. injection H1 as <-. split; [exact Hmono|exact Hreg].
Qed.

Lemma preserves_localValidators_mount path validate :
  preserves localValidators
    ((if String.eqb path EmptyString then throw OutsideModel else ret tt) ;;
     v <- gets (getFormValues path) ;;
     setFormValue call contextValidator path v ;;
     d <- gets (getFormDirty path) ;;
     setFormDirty path d ;;
     e <- gets (getFormError path) ;;
     setFormError path e ;;
     ret (unsubscribe path validate)).
Proof. unfold_store. preserve. Qed.

(** When [subscribe] returns, it returns the disposer for its arguments, and
    every function that it was given is registered for the path. *)
Lemma subscribe_returns path validate s dispose s1 :
  subscribe call contextValidator path validate s = (Ok dispose, s1) ->
  dispose = unsubscribe path validate
  /\ (forall f, registers validate f = true -> In f (validators_at s1 path)).
Proof.
  unfold subscribe. intros H.
  apply bind_Ok_inv in H as ([] & sa & Ha & H).
  apply bind_Ok_inv in H as ([] & sb & Hb & H).
  pose proof (preserves_localValidators_mount path validate sb) as Hsame.
  rewrite H in Hsame. cbn [snd] in Hsame.
  split.
  - apply bind_Ok_inv in H as (? & ? & _ & H).
    apply bind_Ok_inv in H as (? & ? & _ & H).
    apply bind_Ok_inv in H as (? & ? & _ & H).
    apply bind_Ok_inv in H as (? & ? & _ & H).
    apply bind_Ok_inv in H as (? & ? & _ & H).
    apply bind_Ok_inv in H as (? & ? & _ & H).
    apply bind_Ok_inv in H as (? & ? & _ & H).
    unfold ret in H. injection H as <- _. reflexivity.
  - intros f Hf. unfold validators_at. rewrite Hsame.
    destruct validate as [| | | | |g|[|x functions]|]; try discriminate Hf.
    + unfold modify in Hb. injection Hb as <-.
      cbn [localValidators with_localValidators].
      rewrite validators_in_push. apply in_or_app. right.
      cbn in Hf. apply Nat.eqb_eq in Hf. subst g. left. reflexivity.
    + unfold ret in Hb. injection Hb as <-.
      destruct (forEach_push_registers path (x :: functions) s sa Ha) as [_ Hreg].
      exact (Hreg f Hf).
Qed.

End Disposer.

(** C10. The disposer that [subscribe({ path, validate })] returns, invoked
    on any later store, never fails. It filters the validators of [path] by
    identity, so every occurrence of every function that [subscribe] pushed
    for [validate] is gone, however often it was registered; the entries of
    the other paths and the rest of the store are untouched; and when none
    of these functions is registered for [path] any more, the validators of
    every path are what they were. *)
Theorem disposer_removes_by_identity
    (call : nat -> value -> value)
    (contextValidator : option (value -> value -> value))
    (path : string) (validate : value) (s0 s1 : store) (dispose : M unit) (s : store) :
  subscribe call contextValidator path validate s0 = (Ok dispose, s1) ->
  (forall f, registers validate f = true -> In f (validators_at s1 path))
  /\ fst (dispose s) = Ok tt
  /\ validators_at (snd (dispose s)) path
     = List.filter (fun g => negb (registers validate g)) (validators_at s path)
  /\ (forall f, registers validate f = true -> ~ In f (validators_at (snd (dispose s)) path))
  /\ (forall q, q <> path ->
        assoc q (localValidators (snd (dispose s))) = assoc q (localValidators s))
  /\ snd (dispose s) = with_localValidators (localValidators (snd (dispose s))) s
  /\ ((forall f, registers validate f = true -> ~ In f (validators_at s path)) ->
      forall q, validators_at (snd (dispose s)) q = validators_at s q).
Proof.
  intros H.
  destruct (subscribe_returns call contextValidator path validate s0 dispose s1 H)
    as [-> Hreg].
  split; [exact Hreg|]. exact (unsubscribe_filters path validate s).
Qed.

(** The function [0] registered twice for the path [a]: one disposal removes
    both copies, and a second disposal changes nothing. *)
Lemma disposer_removes_by_identity_witness :
  subscribe example_call None "a" (VFun 0) once_registered
  = (Ok (unsubscribe "a" (VFun 0)), twice_registered)
  /\ validators_at twice_registered "a" = [0; 0]
  /\ validators_at (snd (unsubscribe "a" (VFun 0) twice_registered)) "a" = []
  /\ fst (unsubscribe "a" (VFun 0) (snd (unsubscribe "a" (VFun 0) twice_registered)))
     = Ok tt.
Proof.
  assert (H : subscribe example_call None "a" (VFun 0) once_registered
              = (Ok (unsubscribe "a" (VFun 0)), twice_registered))
    by (vm_compute; reflexivity).
  split; [exact H|].
  split; [vm_compute; reflexivity|]. split.
  - destruct (disposer_removes_by_identity example_call None "a" (VFun 0)
                once_registered twice_registered (unsubscribe "a" (VFun 0))
                twice_registered H) as (_ & _ & Hfilter & _).
    rewrite Hfilter. vm_compute. reflexivity.
  - destruct (disposer_removes_by_identity example_call None "a" (VFun 0)
                once_registered twice_registered (unsubscribe "a" (VFun 0))
                (snd (unsubscribe "a" (VFun 0) twice_registered)) H)
      as (_ & Hok & _).
    exact Hok.
Defined.

(** ** The validity flag and the set of invalid paths *)

Lemma untouched_ret {A : Type} (a : A) : untouched (ret a).
Proof. intros s. split; reflexivity. Qed.

Lemma untouched_throw {A : Type} (e : error) : untouched (@throw A e).
Proof. intros s. split; reflexivity. Qed.

Lemma untouched_gets {A : Type} (f : store -> A) : untouched (gets f).
Proof. intros s. split; reflexivity. Qed.

Lemma untouched_lift {A : Type} (o : outcome A) : untouched (lift o).
Proof. intros s. split; reflexivity. Qed.

Lemma untouched_modify (f : store -> store) :
  (forall s, invalidPathSet (f s) = invalidPathSet s /\ formValid (f s) = formValid s) ->
  untouched (modify f).
Proof. intros H s. apply H. Qed.

Lemma untouched_bind {A B : Type} (m : M A) (f : A -> M B) :
  untouched m -> (forall a, untouched (f a)) -> untouched (bind m f).
Proof.
  intros Hm Hf s. unfold bind. specialize (Hm s).
  destruct (m s) as [[a|e] s1]; simpl in *.
  - destruct (Hf a s1) as [H1 H2]. destruct Hm as [H3 H4].
    split; congruence.
  - exact Hm.
Qed.

Lemma untouched_forEach {A : Type} (l : list A) (f : A -> M unit) :
  (forall x, untouched (f x)) -> untouched (forEach l f).
Proof.
  intros Hf. induction l as [|x l IH]; simpl.
  - apply untouched_ret.
  - apply untouched_bind; [apply Hf|intros _; exact IH].
Qed.

Ltac frame :=
  repeat first
    [ progress intros
    | apply untouched_ret
    | apply untouched_throw
    | apply untouched_gets
    | apply untouched_lift
    | apply untouched_bind
    | apply untouched_forEach
    | apply untouched_modify; intros; split; reflexivity
    | match goal with
      | |- untouched (match ?x with _ => _ end) => destruct x
      end ].

Lemma untouched_setFormDirty path v : untouched (setFormDirty path v).
Proof. unfold setFormDirty. frame. Qed.

Lemma untouched_setFormError path v : untouched (setFormError path v).
Proof. unfold setFormError. frame. Qed.

Lemma untouched_forceUpdate f : untouched (forceUpdate f).
Proof. unfold forceUpdate. frame. Qed.

Lemma untouched_forceUpdatePath path : untouched (forceUpdatePath path).
Proof. unfold forceUpdatePath. frame. Qed.

Lemma untouched_triggerForceUpdates path : untouched (triggerForceUpdates path).
Proof.
  unfold triggerForceUpdates. frame; try apply untouched_forceUpdatePath.
Qed.

Lemma untouched_setAllFormDirty b : untouched (setAllFormDirty b).
Proof.
  unfold setAllFormDirty. frame;
    try first [apply untouched_setFormDirty | apply untouched_forceUpdatePath].
Qed.

Lemma untouched_arrayRemove path index : untouched (arrayRemove path index).
Proof. unfold arrayRemove. cbn [forEach]. frame; try apply untouched_forceUpdatePath. Qed.

Lemma untouched_unsubscribe path validate : untouched (unsubscribe path validate).
Proof. unfold unsubscribe. frame. Qed.

Lemma untouched_subscribeForceUpdate path f : untouched (subscribeForceUpdate path f).
Proof. unfold subscribeForceUpdate. frame. Qed.

Lemma untouched_unsubscribeForceUpdate path f : untouched (unsubscribeForceUpdate path f).
Proof. unfold unsubscribeForceUpdate. frame. Qed.

Lemma untouched_getFormItemUniqueId path : untouched (getFormItemUniqueId path).
Proof. unfold getFormItemUniqueId, uniqueId. frame. Qed.

Lemma untouched_keeps {A : Type} (m : M A) : untouched m -> keeps m.
Proof.
  intros Hm s Hs _. destruct (Hm s) as [H1 H2].
  unfold validity_invariant, getFormValid in *. rewrite H1, H2. exact Hs.
Qed.

Lemma keeps_bind {A B : Type} (m : M A) (f : A -> M B) :
  keeps m -> (forall a, keeps (f a)) -> keeps (bind m f).
Proof.
  intros Hm Hf s Hs. specialize (Hm s Hs). unfold bind, in_model in *.
  destruct (m s) as [[a|e] s1]; simpl in *.
  - intros Hin. apply (Hf a s1); [apply Hm; exact I|exact Hin].
  - exact Hm.
Qed.

Lemma keeps_forEach {A : Type} (l : list A) (f : A -> M unit) :
  (forall x, keeps (f x)) -> keeps (forEach l f).
Proof.
  intros Hf. induction l as [|x l IH]; simpl.
  - apply untouched_keeps, untouched_ret.
  - apply keeps_bind; [apply Hf|intros _; exact IH].
Qed.

Lemma keeps_bind_establishes {A B : Type} (m : M A) (f : A -> M B) :
  keeps_on_throw m -> (forall a, establishes (f a)) -> keeps (bind m f).
Proof.
  intros Hm Hf s Hs. specialize (Hm s). unfold bind, in_model in *.
  destruct (m s) as [[a|e] s1]; simpl in *.
  - apply Hf.
  - intros He. apply (Hm e Hs eq_refl). intros ->. exact He.
Qed.

(** [set] itself never throws: the only failure of its embedding is a write
    that the data model cannot represent. *)
Lemma assignValue_throws o k v e : assignValue o k v = Throw e -> e = OutsideModel.
Proof.
  unfold assignValue. destruct (unsafe_key k); [congruence|].
  destruct o; try congruence. destruct (array_index k); congruence.
Qed.

Lemma baseSet_loop_throws segs : forall nested v e,
  baseSet_loop nested segs v = Throw e -> e = OutsideModel.
Proof.
  induction segs as [|k rest IH]; intros nested v e; simpl.
  - discriminate.
  - destruct rest as [|k2 rest'].
    + apply assignValue_throws.
    + match goal with
      | |- outcome_bind ?x _ = _ -> _ => destruct x as [t|e'] eqn:E
      end; simpl.
      * apply assignValue_throws.
      * intros H. injection H as <-. exact (IH _ _ _ E).
Qed.

Lemma set_throws o p v e : set o p v = Throw e -> e = OutsideModel.
Proof.
  unfold set. destruct (is_nullish o); [discriminate|].
  destruct (negb (isObject o)); [discriminate|]. apply baseSet_loop_throws.
Qed.

Lemma setFormError_throws path v : throws_only_outside (setFormError path v).
Proof.
  intros s e. unfold setFormError, bind, gets, lift, modify. simpl.
  destruct (set (formError s) path v) as [t|e'] eqn:E; simpl; [discriminate|].
  intros H. injection H as <-. exact (set_throws _ _ _ _ E).
Qed.

Lemma throws_only_outside_forEach {A : Type} (l : list A) (f : A -> M unit) :
  (forall x, throws_only_outside (f x)) -> throws_only_outside (forEach l f).
Proof.
  intros Hf. induction l as [|x l IH]; intros s e; simpl.
  - discriminate.
  - unfold bind. specialize (Hf x s). destruct (f x s) as [[a|e'] s1]; simpl in *.
    + apply IH.
    + intros H. injection H as <-. apply Hf. reflexivity.
Qed.

Lemma size_zero_empty (X : gset string) : Nat.eqb (size X) 0 = true <-> X = ∅.
Proof.
  rewrite Nat.eqb_eq, size_empty_iff. apply leibniz_equiv_iff.
Qed.

Section Validity.

Variable call : nat -> value -> value.
Variable contextValidator : option (value -> value -> value).

Lemma untouched_runLocalValidators path v : untouched (runLocalValidators call path v).
Proof. unfold runLocalValidators. frame; try apply untouched_setFormError. Qed.

Lemma runContextValidator_run validate path s :
  runContextValidator (Some validate) path s
  = match keyify (validate (formValue s) (formError s)) EmptyString with
    | Ok errorPaths =>
        forEach errorPaths
          (mergeErrorPath path (validate (formValue s) (formError s))) s
    | Throw e => (Throw e, s)
    end.
Proof.
  unfold runContextValidator, bind, gets, lift. cbn.
  destruct (keyify _ _); reflexivity.
Qed.

Lemma mergeErrorPath_throws path errorObject errorPath :
  throws_only_outside (mergeErrorPath path errorObject errorPath).
Proof.
  intros s e. unfold mergeErrorPath. unfold bind at 1. unfold modify.
  cbv beta iota. apply setFormError_throws.
Qed.

Lemma keeps_on_throw_runContextValidator path :
  keeps_on_throw (runContextValidator contextValidator path).
Proof.
  intros s e Hs.
  destruct contextValidator as [validate|]; [|discriminate].
  rewrite runContextValidator_run.
  destruct (keyify _ _) as [errorPaths|e']; cbn [fst snd].
  - intros H Hne. exfalso. apply Hne.
    revert H. apply throws_only_outside_forEach.
    intros errorPath. apply mergeErrorPath_throws.
  - intros _ _. exact Hs.
Qed.

Lemma establishes_validity path :
  establishes (trackInvalidPath path ;; updateFormValid ;; triggerForceUpdates path).
Proof.
  intros s _. unfold bind at 1 2, trackInvalidPath, updateFormValid, bind at 1, gets, modify.
  cbn [fst snd].
  match goal with
  | |- validity_invariant (snd (triggerForceUpdates path ?s1)) =>
      destruct (untouched_triggerForceUpdates path s1) as [H1 H2];
      unfold validity_invariant, getFormValid; rewrite H1, H2
  end.
  cbn. apply size_zero_empty.
Qed.

Lemma keeps_setFormValue path v : keeps (setFormValue call contextValidator path v).
Proof.
  unfold setFormValue.
  apply keeps_bind; [apply untouched_keeps; frame|intros o].
  apply keeps_bind; [apply untouched_keeps; frame|intros t].
  apply keeps_bind; [apply untouched_keeps; frame|intros _].
  apply keeps_bind; [apply untouched_keeps, untouched_runLocalValidators|intros _].
  apply keeps_bind_establishes.
  - apply keeps_on_throw_runContextValidator.
  - intros _. apply establishes_validity.
Qed.

Lemma keeps_initialize newFormState replaceInitState options :
  keeps (initialize call contextValidator newFormState replaceInitState options).
Proof.
  unfold initialize.
  apply keeps_bind; [apply untouched_keeps; frame|intros _].
  apply keeps_bind; [apply untouched_keeps; frame|intros _].
  apply keeps_bind; [apply untouched_keeps; frame|intros paths].
  apply keeps_bind.
  - apply keeps_forEach. intros path. apply keeps_setFormValue.
  - intros _. apply untouched_keeps. frame; try apply untouched_setAllFormDirty.
Qed.

Lemma keeps_subscribe path validate :
  keeps (subscribe call contextValidator path validate).
Proof.
  unfold subscribe.
  apply keeps_bind; [apply untouched_keeps; frame|intros _].
  apply keeps_bind; [apply untouched_keeps; frame|intros _].
  apply keeps_bind; [apply untouched_keeps; frame|intros _].
  apply keeps_bind; [apply untouched_keeps; frame|intros v].
  apply keeps_bind; [apply keeps_setFormValue|intros _].
  apply untouched_keeps. frame;
    try first [apply untouched_setFormDirty | apply untouched_setFormError].
Qed.

Lemma keeps_arrayPush path v : keeps (arrayPush call contextValidator path v).
Proof.
  unfold arrayPush.
  apply keeps_bind; [apply untouched_keeps; frame|intros currentValue].
  apply keeps_bind.
  - destruct (truthy _); [apply keeps_setFormValue|apply untouched_keeps; frame].
  - intros _. apply untouched_keeps, untouched_forceUpdatePath.
Qed.

(** Every operation of the context keeps the flag in step with the set. *)
Lemma keeps_run (o : operation) : keeps (run call contextValidator o).
Proof.
  destruct o; simpl.
  - apply keeps_setFormValue.
  - apply untouched_keeps, untouched_setFormDirty.
  - apply keeps_initialize.
  - unfold reset. apply keeps_bind; [apply untouched_keeps; frame|intros i].
    apply keeps_initialize.
  - apply untouched_keeps. unfold submit. frame; try apply untouched_setAllFormDirty.
  - apply keeps_arrayPush.
  - apply untouched_keeps, untouched_arrayRemove.
  - apply keeps_bind; [apply keeps_subscribe|intros _].
    apply untouched_keeps, untouched_ret.
  - apply untouched_keeps, untouched_unsubscribe.
  - apply untouched_keeps, untouched_subscribeForceUpdate.
  - apply untouched_keeps, untouched_unsubscribeForceUpdate.
  - apply untouched_keeps. frame; try apply untouched_getFormItemUniqueId.
Qed.

Lemma elsewhere_untouched {A : Type} path (m : M A) : untouched m -> elsewhere path m.
Proof. intros Hm s q _. destruct (Hm s) as [-> _]. reflexivity. Qed.

Lemma elsewhere_bind {A B : Type} path (m : M A) (f : A -> M B) :
  elsewhere path m -> (forall a, elsewhere path (f a)) -> elsewhere path (bind m f).
Proof.
  intros Hm Hf s q Hq. unfold bind. specialize (Hm s q Hq).
  destruct (m s) as [[a|e] s1]; simpl in *.
  - rewrite (Hf a s1 q Hq). exact Hm.
  - exact Hm.
Qed.

Lemma elsewhere_forEach {A : Type} path (l : list A) (f : A -> M unit) :
  (forall x, elsewhere path (f x)) -> elsewhere path (forEach l f).
Proof.
  intros Hf. induction l as [|x l IH]; simpl.
  - apply elsewhere_untouched, untouched_ret.
  - apply elsewhere_bind; [apply Hf|intros _; exact IH].
Qed.

Lemma elsewhere_mergeErrorPath path errorObject errorPath :
  elsewhere path (mergeErrorPath path errorObject errorPath).
Proof.
  unfold mergeErrorPath. apply elsewhere_bind.
  - intros s q Hq. cbn. set_solver.
  - intros _. apply elsewhere_untouched, untouched_setFormError.
Qed.

Lemma elsewhere_trackInvalidPath path : elsewhere path (trackInvalidPath path).
Proof.
  intros s q Hq. unfold trackInvalidPath, bind, gets, modify. cbn.
  destruct (truthy _); set_solver.
Qed.

Lemma elsewhere_setFormValue path v :
  elsewhere path (setFormValue call contextValidator path v).
Proof.
  unfold setFormValue.
  apply elsewhere_bind; [apply elsewhere_untouched; frame|intros o].
  apply elsewhere_bind; [apply elsewhere_untouched; frame|intros t].
  apply elsewhere_bind; [apply elsewhere_untouched; frame|intros _].
  apply elsewhere_bind;
    [apply elsewhere_untouched, untouched_runLocalValidators|intros _].
  apply elsewhere_bind.
  { unfold runContextValidator. destruct contextValidator as [validate|].
    - apply elsewhere_bind; [apply elsewhere_untouched; frame|intros values].
      apply elsewhere_bind; [apply elsewhere_untouched; frame|intros errors].
      apply elsewhere_bind; [apply elsewhere_untouched; frame|intros errorPaths].
      apply elsewhere_forEach. intros errorPath. apply elsewhere_mergeErrorPath.
    - apply elsewhere_untouched, untouched_ret. }
  intros _. apply elsewhere_bind; [apply elsewhere_trackInvalidPath|intros _].
  apply elsewhere_bind; [intros s q _; reflexivity|intros _].
  apply elsewhere_untouched, untouched_triggerForceUpdates.
Qed.

Lemma preserves_formError_triggerForceUpdates path :
  preserves formError (triggerForceUpdates path).
Proof. unfold triggerForceUpdates, forceUpdatePath, forceUpdate. preserve. Qed.

Lemma setFormValue_tracks_path path v s s' :
  setFormValue call contextValidator path v s = (Ok tt, s') ->
  path ∈ invalidPathSet s' <-> truthy (get (formError s') path VUndef) = true.
Proof.
  unfold setFormValue. intros H.
  apply bind_Ok_inv in H as (o & s1 & _ & H).
  apply bind_Ok_inv in H as (t & s2 & _ & H).
  apply bind_Ok_inv in H as (? & s3 & _ & H).
  apply bind_Ok_inv in H as (? & s4 & _ & H).
  apply bind_Ok_inv in H as (? & s5 & _ & H).
  apply bind_Ok_inv in H as (? & s6 & H6 & H).
  apply bind_Ok_inv in H as (? & s7 & H7 & H).
  pose proof (untouched_triggerForceUpdates path s7) as [Hips _].
  pose proof (preserves_formError_triggerForceUpdates path s7) as Herr.
  rewrite H in Hips, Herr. cbn [snd] in Hips, Herr. rewrite Hips, Herr.
  unfold updateFormValid, modify in H7. inversion H7. subst s7. clear H7.
  unfold trackInvalidPath, bind, gets, modify in H6. inversion H6. subst s6. clear H6.
  cbn. destruct (truthy (get (formError s5) path VUndef)).
  - split; [reflexivity|]. intros _. apply elem_of_union_l, elem_of_singleton. reflexivity.
  - split; [|discriminate]. intros Hin. apply elem_of_difference in Hin as [_ Hin].
    exfalso. apply Hin. apply elem_of_singleton. reflexivity.
Qed.

Lemma untouched_run (o : operation) :
  writes_values o = false -> untouched (run call contextValidator o).
Proof.
  destruct o; try discriminate; intros _; simpl.
  - apply untouched_setFormDirty.
  - unfold submit. frame; try apply untouched_setAllFormDirty.
  - apply untouched_arrayRemove.
  - apply untouched_unsubscribe.
  - apply untouched_subscribeForceUpdate.
  - apply untouched_unsubscribeForceUpdate.
  - frame; try apply untouched_getFormItemUniqueId.
Qed.

End Validity.

(** C1 (code at the failing input). On a form whose only item is blank,
    registering the required field [items[0]] and then removing the item
    returns normally. The error tree is left without any message, yet
    [items[0]] is still in the set of invalid paths and [getValid()] is
    [false]: the set is not the set of the paths with a truthy error. *)
Theorem invalid_paths_not_exact :
  fst blank_removed = Ok tt
  /\ formError (snd blank_removed) = VObj [("items", VArr [])]
  /\ invalidPathSet (snd blank_removed) = {[ "items[0]" ]}
  /\ truthy (get (formError (snd blank_removed)) "items[0]" VUndef) = false
  /\ getFormValid (snd blank_removed) = false
  /\ ~ invalid_paths_exact (snd blank_removed).
Proof.
  assert (Hset : invalidPathSet (snd blank_removed) = ({[ "items[0]" ]} : gset string))
    by (vm_compute; reflexivity).
  split; [vm_compute; reflexivity|].
  split; [vm_compute; reflexivity|].
  split; [exact Hset|].
  split; [vm_compute; reflexivity|].
  split; [vm_compute; reflexivity|].
  intros Hexact.
  assert (Hin : "items[0]" ∈ invalidPathSet (snd blank_removed))
    by (rewrite Hset; apply elem_of_singleton; reflexivity).
  apply Hexact in Hin. vm_compute in Hin. discriminate Hin.
Qed.

(** X25. The validity flag is in step with the set of invalid paths:
    [getValid()] holds exactly when the set is empty, after construction and
    after every operation of the context that stays inside the modelled
    fragment. When [setValue(path, v)] returns, [path] is in the set exactly
    when the error tree holds a truthy entry at [path]; and the operations
    that do not call [setValue] leave the set as it is. *)
Theorem validity_flag_tracks_set
    (call : nat -> value -> value)
    (contextValidator : option (value -> value -> value)) :
  (forall initValue, validity_invariant (FormProvider initValue))
  /\ (forall o s,
        validity_invariant s ->
        in_model (run call contextValidator o s) ->
        validity_invariant (snd (run call contextValidator o s)))
  /\ (forall path v s s',
        setFormValue call contextValidator path v s = (Ok tt, s') ->
        (path ∈ invalidPathSet s' <-> truthy (get (formError s') path VUndef) = true))
  /\ (forall o s,
        writes_values o = false ->
        invalidPathSet (snd (run call contextValidator o s)) = invalidPathSet s).
Proof.
  split; [|split; [|split]].
  - intros initValue. unfold validity_invariant. cbn. split; reflexivity.
  - intros o. apply keeps_run.
  - intros path v s s' H.
    exact (setFormValue_tracks_path call contextValidator path v s s' H).
  - intros o s Ho. apply (untouched_run call contextValidator o Ho s).
Qed.

Lemma validity_flag_tracks_set_witness :
  validity_invariant password_form
  /\ in_model (run example_call None (Subscribe "password" (VFun 0)) password_form)
  /\ validity_invariant
       (snd (run example_call None (Subscribe "password" (VFun 0)) password_form))
  /\ getFormValid
       (snd (run example_call None (Subscribe "password" (VFun 0)) password_form))
     = false.
Proof.
  destruct (validity_flag_tracks_set example_call None) as (Hinit & Hkeeps & _).
  split; [apply Hinit|].
  split; [vm_compute; exact I|].
  split; [apply Hkeeps; [apply Hinit|vm_compute; exact I]|].
  vm_compute; reflexivity.
Defined.

(** ** Paths: the keys of a deep path *)

Lemma take_plain_spec s :
  no_special (fst (take_plain s)) = true
  /\ String.length (fst (take_plain s)) + String.length (snd (take_plain s))
     = String.length s.
Proof.
  induction s as [|c r IH]; cbn [take_plain]; [split; reflexivity|].
  destruct (is_special c) eqn:E; [split; reflexivity|].
  destruct (take_plain r) as [t rest].
  unfold no_special in *. cbn [fst snd string_forallb String.length] in *.
  rewrite E. destruct IH as [IH1 IH2]. split; [exact IH1|]. rewrite <- IH2. reflexivity.
Qed.

Lemma take_digits_length s :
  String.length (fst (take_digits s)) + String.length (snd (take_digits s))
  = String.length s.
Proof.
  induction s as [|c r IH]; simpl; [reflexivity|].
  destruct (is_digit c); simpl; [|reflexivity].
  destruct (take_digits r) as [t rest]; simpl in *. rewrite IH. reflexivity.
Qed.

Lemma length_append (a b : string) :
  String.length (a +:+ b) = String.length a + String.length b.
Proof. induction a as [|c a IH]; simpl; [reflexivity|]. rewrite IH. reflexivity. Qed.

Lemma bracket_number_length s num rest :
  bracket_number s = Some (num, rest) ->
  String.length num + 1 + String.length rest = String.length s.
Proof.
  unfold bracket_number.
  set (p := match s with String "-" r => ("-", r) | _ => (EmptyString, s) end).
  assert (Hp : String.length (fst p) + String.length (snd p) = String.length s).
  { subst p. destruct s as [|c r]; [reflexivity|].
    destruct c as [[] [] [] [] [] [] [] []]; reflexivity. }
  destruct p as [sign s1]. simpl in Hp.
  pose proof (take_digits_length s1) as H1.
  destruct (take_digits s1) as [int s2]. simpl in H1.
  destruct (String.eqb int EmptyString); [discriminate|].
  set (q := match s2 with
            | String "." r =>
                let '(f, r') := take_digits r in
                if String.eqb f EmptyString then (EmptyString, s2) else ("." +:+ f, r')
            | _ => (EmptyString, s2)
            end).
  assert (Hq : String.length (fst q) + String.length (snd q) = String.length s2).
  { subst q. destruct s2 as [|c r]; [reflexivity|].
    destruct c as [[] [] [] [] [] [] [] []]; try reflexivity.
    pose proof (take_digits_length r) as H2.
    destruct (take_digits r) as [f r']. simpl in H2.
    destruct (String.eqb f EmptyString); [reflexivity|].
    cbn [fst snd] in *. rewrite length_append. cbn [String.length]. lia. }
  destruct q as [frac s3]. simpl in Hq.
  destruct s3 as [|c rest']; [discriminate|].
  destruct c as [[] [] [] [] [] [] [] []]; try discriminate.
  intros H. injection H as <- <-.
  rewrite !length_append. simpl in Hq. lia.
Qed.

Lemma quoted_body_length q s t rest :
  quoted_body q s = Some (t, rest) ->
  String.length t + 2 + String.length rest = String.length s.
Proof.
  revert t rest. induction s as [s IH] using (well_founded_induction
    (well_founded_ltof _ String.length)).
  intros t rest. destruct s as [|c r]; simpl; [discriminate|].
  destruct (Ascii.eqb c q).
  - destruct r as [|d rest']; [discriminate|].
    destruct d as [[] [] [] [] [] [] [] []]; try discriminate.
    intros H. injection H as <- <-. simpl. lia.
  - destruct (Ascii.eqb c backslash).
    + destruct r as [|d r']; [discriminate|].
      destruct (is_line_terminator d); [discriminate|].
      destruct (quoted_body q r') as [[t' rest']|] eqn:E; [|discriminate].
      intros H. injection H as <- <-.
      apply IH in E; [simpl; lia|unfold ltof; simpl; lia].
    + destruct (quoted_body q r) as [[t' rest']|] eqn:E; [|discriminate].
      intros H. injection H as <- <-.
      apply IH in E; [simpl; lia|unfold ltof; simpl; lia].
Qed.

Lemma unescape_length s : String.length (unescape s) <= String.length s.
Proof.
  induction s as [s IH] using (well_founded_induction
    (well_founded_ltof _ String.length)).
  destruct s as [|c r]; simpl; [lia|].
  destruct (Ascii.eqb c backslash).
  - destruct r as [|d r']; [simpl; lia|].
    destruct (Ascii.eqb d backslash).
    + simpl. assert (String.length (unescape r') <= String.length r')
        by (apply IH; unfold ltof; simpl; lia). lia.
    + assert (String.length (unescape (String d r')) <= String.length (String d r'))
        by (apply IH; unfold ltof; simpl; lia). simpl in *. lia.
  - simpl. assert (String.length (unescape r) <= String.length r)
      by (apply IH; unfold ltof; simpl; lia). lia.
Qed.

Lemma bracket_token_length s t rest :
  bracket_token s = Some (t, rest) ->
  String.length t + 1 + String.length rest <= String.length s.
Proof.
  unfold bracket_token.
  destruct (bracket_number s) as [[num rest']|] eqn:E.
  - intros H. injection H as <- <-. apply bracket_number_length in E. lia.
  - destruct s as [|q r]; [discriminate|].
    destruct (is_quote q); [|discriminate].
    destruct (quoted_body q r) as [[t' rest']|] eqn:Q; [|discriminate].
    intros H. injection H as <- <-. apply quoted_body_length in Q.
    pose proof (unescape_length t'). simpl. lia.
Qed.

(** A key that [scan] produces is free of [.], [[] and []], or is shorter
    than the text it was cut from. *)
Lemma scan_keys fuel : forall s tok,
  In tok (scan fuel s) ->
  no_special tok = true \/ String.length tok < String.length s.
Proof.
  induction fuel as [|fuel IH]; intros s tok; simpl; [intros []|].
  destruct s as [|c r]; [intros []|].
  destruct (negb (is_special c)) eqn:Ec.
  - pose proof (take_plain_spec (String c r)) as [H1 H2].
    destruct (take_plain (String c r)) as [t rest]. simpl in H1, H2.
    intros [<-|Hin]; [left; exact H1|].
    apply IH in Hin. destruct Hin as [Hin|Hin]; [left; exact Hin|right].
    simpl. simpl in H2. lia.
  - destruct (if Ascii.eqb c "[" then bracket_token r else None)
      as [[t rest]|] eqn:Eb.
    + destruct (Ascii.eqb c "["); [|discriminate].
      apply bracket_token_length in Eb.
      intros [<-|Hin]; [right; simpl; lia|].
      apply IH in Hin. destruct Hin as [Hin|Hin]; [left; exact Hin|right].
      simpl. lia.
    + assert (Hrest : In tok (scan fuel r) ->
                      no_special tok = true \/ String.length tok < String.length (String c r)).
      { intros Hin. apply IH in Hin.
        destruct Hin as [Hin|Hin]; [left; exact Hin|right; simpl; lia]. }
      destruct (empty_key_here (String c r)); [|exact Hrest].
      intros [<-|Hin]; [left; reflexivity|exact (Hrest Hin)].
Qed.

Lemma stringToPath_keys s tok :
  In tok (stringToPath s) ->
  no_special tok = true \/ String.length tok < String.length s.
Proof.
  unfold stringToPath. intros Hin. apply in_app_or in Hin as [Hin|Hin].
  - left. destruct s as [|c r]; [destruct Hin|].
    destruct c as [[] [] [] [] [] [] [] []]; simpl in Hin; try contradiction.
    destruct Hin as [<-|[]]. reflexivity.
  - exact (scan_keys _ _ _ Hin).
Qed.

Lemma reIsDeepProp_special s : reIsDeepProp s = true -> no_special s = false.
Proof.
  unfold no_special.
  induction s as [|c r IH]; cbn [reIsDeepProp string_forallb]; [discriminate|].
  destruct (Ascii.eqb c ".") eqn:E1.
  - apply Ascii.eqb_eq in E1. subst c. reflexivity.
  - destruct (Ascii.eqb c "[") eqn:E2.
    + apply Ascii.eqb_eq in E2. subst c. reflexivity.
    + cbn [orb andb]. intros H. rewrite (IH H). apply andb_false_r.
Qed.

(** No key of a deep path is the path itself. *)
Lemma stringToPath_not_self s :
  reIsDeepProp s = true -> ~ In s (stringToPath s).
Proof.
  intros Hdeep Hin. apply stringToPath_keys in Hin as [Hin|Hin].
  - rewrite (reIsDeepProp_special _ Hdeep) in Hin. discriminate.
  - lia.
Qed.

(** ** Reading a property after writing it *)

Lemma assoc_obj_replace_eq k v kvs :
  assoc k kvs <> None -> assoc k (obj_replace k v kvs) = Some v.
Proof.
  induction kvs as [|[k' v'] kvs IH]; simpl; [congruence|].
  destruct (String.eqb k k') eqn:E; simpl; rewrite E; [reflexivity|exact IH].
Qed.

Lemma assoc_obj_replace_ne k p v kvs :
  p <> k -> assoc p (obj_replace k v kvs) = assoc p kvs.
Proof.
  intros Hp. induction kvs as [|[k' v'] kvs IH]; simpl; [reflexivity|].
  destruct (String.eqb k k') eqn:E; simpl.
  - apply String.eqb_eq in E. subst k'. apply String.eqb_neq in Hp. rewrite Hp. reflexivity.
  - rewrite IH. reflexivity.
Qed.

Lemma assoc_insert_index_eq n k v kvs :
  assoc k kvs = None -> assoc k (insert_index n k v kvs) = Some v.
Proof.
  induction kvs as [|[k' v'] kvs IH]; simpl.
  - rewrite String.eqb_refl. reflexivity.
  - destruct (String.eqb k k') eqn:E; [discriminate|]. intros H.
    destruct (array_index k') as [m|]; [destruct (m <? n)%N|]; simpl;
      rewrite ?E, ?String.eqb_refl; auto.
Qed.

Lemma assoc_insert_index_ne n k p v kvs :
  p <> k -> assoc p (insert_index n k v kvs) = assoc p kvs.
Proof.
  intros Hp. apply String.eqb_neq in Hp.
  induction kvs as [|[k' v'] kvs IH]; simpl.
  - rewrite Hp. reflexivity.
  - destruct (array_index k') as [m|]; [destruct (m <? n)%N|]; simpl;
      rewrite ?Hp, ?IH; reflexivity.
Qed.

Lemma assoc_app_last_eq k (v : value) kvs :
  assoc k kvs = None -> assoc k (kvs ++ [(k, v)]) = Some v.
Proof.
  induction kvs as [|[k' v'] kvs IH]; simpl.
  - rewrite String.eqb_refl. reflexivity.
  - destruct (String.eqb k k'); [discriminate|exact IH].
Qed.

Lemma assoc_app_last_ne k p (v : value) kvs :
  p <> k -> assoc p (kvs ++ [(k, v)]) = assoc p kvs.
Proof.
  intros Hp. apply String.eqb_neq in Hp.
  induction kvs as [|[k' v'] kvs IH]; simpl.
  - rewrite Hp. reflexivity.
  - destruct (String.eqb p k'); [reflexivity|exact IH].
Qed.

Lemma assoc_obj_put_eq k v kvs : assoc k (obj_put k v kvs) = Some v.
Proof.
  unfold obj_put. destruct (assoc k kvs) eqn:E.
  - apply assoc_obj_replace_eq. congruence.
  - destruct (array_index k);
      [apply assoc_insert_index_eq|apply assoc_app_last_eq]; exact E.
Qed.

Lemma assoc_obj_put_ne k p v kvs : p <> k -> assoc p (obj_put k v kvs) = assoc p kvs.
Proof.
  intros Hp. unfold obj_put. destruct (assoc k kvs).
  - apply assoc_obj_replace_ne, Hp.
  - destruct (array_index k);
      [apply assoc_insert_index_ne|apply assoc_app_last_ne]; exact Hp.
Qed.

Lemma nth_error_replace_nth_eq i v xs :
  (i < List.length xs)%nat -> nth_error (replace_nth i v xs) i = Some (Some v).
Proof.
  revert xs. induction i as [|i IH]; intros [|x xs]; simpl; try lia.
  - reflexivity.
  - intros H. apply IH. lia.
Qed.

Lemma nth_error_replace_nth_ne i j v xs :
  i <> j -> nth_error (replace_nth i v xs) j = nth_error xs j.
Proof.
  revert j xs. induction i as [|i IH]; intros [|j] [|x xs] H; simpl; try reflexivity;
    try congruence.
  apply IH. congruence.
Qed.

Lemma nth_elem_arr_put_eq n v xs : nth_elem n (arr_put n v xs) = v.
Proof.
  unfold nth_elem, arr_put.
  destruct (N.to_nat n <? List.length xs)%nat eqn:E.
  - apply Nat.ltb_lt in E. rewrite nth_error_replace_nth_eq by exact E. reflexivity.
  - apply Nat.ltb_ge in E.
    rewrite nth_error_app2 by exact E.
    rewrite nth_error_app2 by (rewrite repeat_length; lia).
    rewrite repeat_length, Nat.sub_diag. reflexivity.
Qed.

Lemma is_digit_word c : is_digit c = true -> is_word_char c = true.
Proof.
  destruct c as [[] [] [] [] [] [] [] []]; intros H;
    first [reflexivity | discriminate H].
Qed.

Lemma digits_plain s : string_forallb is_digit s = true -> reIsPlainProp s = true.
Proof.
  unfold reIsPlainProp. induction s as [|c r IH]; cbn [string_forallb]; [reflexivity|].
  intros H. apply andb_prop in H as [H1 H2].
  rewrite (is_digit_word _ H1), (IH H2). reflexivity.
Qed.

Lemma array_index_plain k n : array_index k = Some n -> reIsPlainProp k = true.
Proof.
  unfold array_index, parse_uint. destruct k as [|c r]; [discriminate|].
  destruct (string_forallb is_digit (String c r)) eqn:E; [|discriminate].
  intros _. apply digits_plain, E.
Qed.

(** A path that is not made of word characters is no property of an array. *)
Lemma has_prop_array_not_plain xs p :
  reIsPlainProp p = false -> has_prop (VArr xs) p = false.
Proof.
  intros Hp. unfold has_prop.
  destruct (array_index p) as [n|] eqn:E.
  - apply array_index_plain in E. congruence.
  - destruct (String.eqb p "length") eqn:El; [|reflexivity].
    apply String.eqb_eq in El. subst p. discriminate Hp.
Qed.

Lemma assignValue_read o k v t :
  assignValue o k v = Ok t ->
  prop t k = v /\ is_nullish t = false /\ isObject t = true.
Proof.
  unfold assignValue. destruct (unsafe_key k); [discriminate|].
  destruct o; try discriminate.
  - destruct (array_index k) as [n|] eqn:E; [|discriminate].
    intros H. injection H as <-. cbn. rewrite E.
    split; [apply nth_elem_arr_put_eq|split; reflexivity].
  - intros H. injection H as <-. cbn. rewrite assoc_obj_put_eq.
    split; [reflexivity|split; reflexivity].
Qed.

Lemma assignValue_has_prop o k v t :
  assignValue o k v = Ok t -> has_prop t k = true.
Proof.
  unfold assignValue. destruct (unsafe_key k); [discriminate|].
  destruct o; try discriminate.
  - destruct (array_index k) as [n|] eqn:E; [|discriminate].
    intros H. injection H as <-. cbn. rewrite E.
    pose proof (nth_elem_arr_put_eq n v elems) as Hn. unfold nth_elem in Hn.
    unfold arr_put in *.
    destruct (N.to_nat n <? List.length elems)%nat eqn:El.
    + apply Nat.ltb_lt in El. rewrite nth_error_replace_nth_eq by exact El. reflexivity.
    + apply Nat.ltb_ge in El.
      rewrite nth_error_app2 by exact El.
      rewrite nth_error_app2 by (rewrite repeat_length; lia).
      rewrite repeat_length, Nat.sub_diag. reflexivity.
  - intros H. injection H as <-. cbn. rewrite assoc_obj_put_eq. reflexivity.
Qed.

Lemma assignValue_has_prop_other o k v t p :
  assignValue o k v = Ok t ->
  p <> k -> reIsPlainProp p = false -> has_prop t p = has_prop o p.
Proof.
  unfold assignValue. destruct (unsafe_key k); [discriminate|].
  destruct o; try discriminate.
  - destruct (array_index k) as [n|]; [|discriminate].
    intros H Hp Hplain. injection H as <-.
    rewrite !has_prop_array_not_plain by exact Hplain. reflexivity.
  - intros H Hp _. injection H as <-. cbn. rewrite assoc_obj_put_ne by exact Hp.
    reflexivity.
Qed.

(** [baseGet] along the keys that [baseSet] has just followed finds the
    value that was written. *)
Lemma walk_baseSet_loop segs : forall nested v t,
  segs <> [] ->
  baseSet_loop nested segs v = Ok t ->
  walk t segs = v /\ is_nullish t = false.
Proof.
  induction segs as [|k rest IH]; intros nested v t Hne; [congruence|].
  cbn [baseSet_loop]. destruct rest as [|k2 rest'].
  - intros H. apply assignValue_read in H as (Hp & Hn & _).
    cbn [walk]. rewrite Hn, Hp. split; reflexivity.
  - match goal with
    | |- outcome_bind ?x _ = _ -> _ => destruct x as [child|e] eqn:E
    end; [|discriminate].
    cbn [outcome_bind]. intros H.
    apply assignValue_read in H as (Hp & Hn & _).
    apply IH in E as [Hw _]; [|discriminate].
    split; [|exact Hn].
    change (walk t (k :: k2 :: rest'))
      with (if is_nullish t then VUndef else walk (prop t k) (k2 :: rest')).
    rewrite Hn, Hp. exact Hw.
Qed.

Lemma baseSet_loop_root nested k rest v t :
  baseSet_loop nested (k :: rest) v = Ok t ->
  exists x, assignValue nested k x = Ok t.
Proof.
  cbn [baseSet_loop]. destruct rest as [|k2 rest'].
  - intros H. exists v. exact H.
  - match goal with
    | |- outcome_bind ?x _ = _ -> _ => destruct x as [child|e]
    end; [|discriminate].
    intros H. exists child. exact H.
Qed.

(** [castPath] reads a path the same way before and after the write. *)
Lemma castPath_after_set o p v t :
  set o p v = Ok t -> isObject o = true -> castPath p t = castPath p o.
Proof.
  unfold set. destruct (is_nullish o) eqn:En; [destruct o; discriminate|].
  intros H Ho. rewrite Ho in H. cbn [negb] in H.
  unfold castPath, isKey in *. rewrite En in *. cbn [negb andb] in *.
  destruct (reIsPlainProp p) eqn:Hplain; [reflexivity|].
  destruct (reIsDeepProp p) eqn:Hdeep; [|reflexivity].
  cbn [orb negb] in *.
  destruct (has_prop o p) eqn:Hhas.
  - cbn [baseSet_loop] in H. pose proof (assignValue_has_prop _ _ _ _ H) as Ht.
    apply assignValue_read in H as (_ & Hn & _). rewrite Hn, Ht. reflexivity.
  - destruct (stringToPath p) as [|k rest] eqn:Hsegs.
    + cbn in H. injection H as <-. rewrite En, Hhas. reflexivity.
    + apply baseSet_loop_root in H as [x H].
      assert (Hk : p <> k).
      { intros <-. apply (stringToPath_not_self p Hdeep). rewrite Hsegs. left. reflexivity. }
      rewrite (assignValue_has_prop_other _ _ _ _ _ H Hk Hplain), Hhas.
      apply assignValue_read in H as (_ & Hn & _). rewrite Hn. reflexivity.
Qed.

(** [get] after [set] at the same path. *)
Lemma get_after_set o p v t d :
  set o p v = Ok t ->
  isObject o = true -> castPath p o <> [] -> v <> VUndef ->
  get t p d = v.
Proof.
  intros Hset Ho Hsegs Hv.
  pose proof (castPath_after_set _ _ _ _ Hset Ho) as Hcast.
  unfold set in Hset. destruct (is_nullish o) eqn:En; [destruct o; discriminate|].
  rewrite Ho in Hset. cbn [negb] in Hset.
  apply walk_baseSet_loop in Hset as [Hw Hn]; [|exact Hsegs].
  unfold get, baseGet. rewrite Hn, Hcast.
  destruct (castPath p o) as [|k rest]; [congruence|].
  rewrite Hw. destruct v; congruence.
Qed.

(** ** Reading a value after setting it *)

Section ReadAfterWrite.

Variable call : nat -> value -> value.
Variable contextValidator : option (value -> value -> value).

(** What follows the write in [setFormValue] leaves the value tree alone. *)
Lemma preserves_formValue_after_write path v :
  preserves formValue
    (runLocalValidators call path v ;;
     runContextValidator contextValidator path ;;
     trackInvalidPath path ;;
     updateFormValid ;;
     triggerForceUpdates path).
Proof.
  unfold runLocalValidators, runContextValidator, mergeErrorPath, trackInvalidPath,
    updateFormValid, triggerForceUpdates, forceUpdatePath, forceUpdate, setFormError.
  preserve.
Qed.

Lemma setFormValue_formValue path v s t :
  set (formValue s) path v = Ok t ->
  formValue (snd (setFormValue call contextValidator path v s)) = t.
Proof.
  intros Hset. unfold setFormValue.
  unfold bind at 1. unfold gets at 1. cbv beta iota.
  unfold bind at 1. unfold lift at 1. rewrite Hset. cbv beta iota.
  unfold bind at 1. unfold modify at 1. cbv beta iota.
  rewrite preserves_formValue_after_write. reflexivity.
Qed.

End ReadAfterWrite.




(** ** [reset] *)

(** C4 (code at the failing input). On the form of the demonstration, after
    [setValue('username', 'ann')] and [setValue('extra', 1)], [reset()]
    returns normally and puts the initial value of [username] back, but the
    value that was set at [extra], a path outside the initial tree, is still
    there: the value tree is not deep-equal to the initial one. What
    [reset()] does restore is stated at the end, for trees of any depth. *)
Theorem reset_keeps_extra_paths :
  fst (reset example_call None login_edited) = Ok tt
  /\ getFormValues EmptyString (snd (reset example_call None login_edited))
     = VObj [("username", VStr "123"); ("password", VStr "123"); ("extra", VNum 1)]
  /\ deep_equal (getFormValues EmptyString (snd (reset example_call None login_edited)))
       login_form = false.
Proof. repeat split; vm_compute; reflexivity. Qed.

Lemma baseClone_scalar v : is_object_non_null v = false -> baseClone v = v.
Proof. destruct v; try reflexivity; discriminate. Qed.

Lemma cloneDeep_flat v : flat_form v = true -> cloneDeep v = v.
Proof.
  destruct v as [| | | | | | |kvs]; try discriminate. cbn [flat_form cloneDeep baseClone].
  intros H. f_equal. induction kvs as [|[k u] kvs IH]; [reflexivity|].
  cbn [forallb fst snd] in H. apply andb_prop in H as [H1 H2].
  apply andb_prop in H1 as [_ H1]. apply negb_true_iff in H1.
  cbn [map fst snd]. rewrite (baseClone_scalar _ H1), (IH H2). reflexivity.
Qed.

Lemma keyify_flat kvs :
  flat_form (VObj kvs) = true -> keyify (VObj kvs) EmptyString = Ok (map fst kvs).
Proof.
  cbn [flat_form keyify].
  change (Ok (map fst kvs)) with (@Ok (list string) ([] ++ map fst kvs)).
  generalize (@nil string) as res.
  induction kvs as [|[k u] kvs IH]; intros res H.
  - rewrite app_nil_r. reflexivity.
  - cbn [forallb fst snd] in H. apply andb_prop in H as [H1 H2].
    apply andb_prop in H1 as [_ H1]. apply negb_true_iff in H1.
    assert (E : forall n d,
               keyify_entry EmptyString k u n d res
               = outcome_bind n (fun _ => Ok (res ++ [k]))).
    { intros n d. unfold keyify_entry. rewrite H1. reflexivity. }
    rewrite E.
    assert (En : match u with
                 | VArr ys =>
                     (fix each (ys : list (option value)) (i : N) {struct ys} : outcome unit :=
                        match ys with
                        | [] => Ok tt
                        | None :: r => each r (N.succ i)
                        | Some nestedObj :: r =>
                            outcome_bind
                              (keyify nestedObj (EmptyString +:+ "[" +:+ pretty i +:+ "]."))
                              (fun _ => each r (N.succ i))
                        end) ys 0%N
                 | _ => Ok tt
                 end = Ok tt) by (destruct u; try reflexivity; discriminate).
    rewrite En. cbn [outcome_bind map fst].
    rewrite (IH (res ++ [k]) H2). rewrite <- app_assoc. reflexivity.
Qed.

Lemma get_empty_object p d : get (VObj []) p d = d.
Proof.
  unfold get, baseGet. cbn [is_nullish].
  destruct (castPath p (VObj [])) as [|k r]; [reflexivity|].
  cbn. destruct r; reflexivity.
Qed.

Lemma castPath_plain k o : reIsPlainProp k = true -> castPath k o = [k].
Proof. intros H. unfold castPath, isKey. rewrite H. reflexivity. Qed.

Lemma get_object_plain kvs k d :
  reIsPlainProp k = true ->
  get (VObj kvs) k d
  = match prop (VObj kvs) k with
    | VUndef => d
    | _ => prop (VObj kvs) k
    end.
Proof.
  intros H. unfold get, baseGet. rewrite castPath_plain by exact H. reflexivity.
Qed.

Lemma set_object kvs p v t : set (VObj kvs) p v = Ok t -> exists kvs', t = VObj kvs'.
Proof.
  unfold set. cbn [is_nullish isObject negb].
  destruct (castPath p (VObj kvs)) as [|k rest].
  - intros H. injection H as <-. exists kvs. reflexivity.
  - intros H. apply baseSet_loop_root in H as [x H].
    unfold assignValue in H. destruct (unsafe_key k); [discriminate|].
    injection H as <-. eexists. reflexivity.
Qed.

Lemma set_object_plain kvs k v t :
  reIsPlainProp k = true ->
  set (VObj kvs) k v = Ok t -> t = VObj (obj_put k v kvs).
Proof.
  intros Hk. unfold set. cbn [is_nullish isObject negb].
  rewrite castPath_plain by exact Hk. cbn [baseSet_loop]. unfold assignValue.
  destruct (unsafe_key k); [discriminate|]. intros H. injection H as <-. reflexivity.
Qed.

Lemma maintains_bind {A B : Type} (P : store -> Prop) (m : M A) (f : A -> M B) :
  maintains P m -> (forall a, maintains P (f a)) -> maintains P (bind m f).
Proof.
  intros Hm Hf s Hs. unfold bind. specialize (Hm s Hs).
  destruct (m s) as [[a|e] s1]; simpl in *; [apply Hf|]; exact Hm.
Qed.

Lemma maintains_forEach {A : Type} (P : store -> Prop) (l : list A) (f : A -> M unit) :
  (forall x, maintains P (f x)) -> maintains P (forEach l f).
Proof.
  intros Hf. induction l as [|x l IH]; simpl.
  - intros s Hs. exact Hs.
  - apply maintains_bind; [apply Hf|intros _; exact IH].
Qed.

Lemma preserves_maintains {A B : Type} (proj : store -> B) (Q : B -> Prop) (m : M A) :
  preserves proj m -> maintains (fun s => Q (proj s)) m.
Proof. intros Hm s Hs. rewrite (Hm s). exact Hs. Qed.

Section Reset.

Variable call : nat -> value -> value.
Variable contextValidator : option (value -> value -> value).

Lemma preserves_initState_setFormValue path v :
  preserves initState (setFormValue call contextValidator path v).
Proof. unfold_store. preserve. Qed.

Lemma preserves_formDirty_setFormValue path v :
  preserves formDirty (setFormValue call contextValidator path v).
Proof. unfold_store. preserve. Qed.

Lemma setFormValue_Ok_inv path v s s' :
  setFormValue call contextValidator path v s = (Ok tt, s') ->
  exists t, set (formValue s) path v = Ok t /\ formValue s' = t.
Proof.
  intros H. destruct (set (formValue s) path v) as [t|e] eqn:E.
  - exists t. split; [reflexivity|].
    rewrite <- (setFormValue_formValue call contextValidator path v s t E), H.
    reflexivity.
  - exfalso. unfold setFormValue in H.
    unfold bind at 1, gets at 1 in H. cbv beta iota in H.
    unfold bind at 1, lift at 1 in H. rewrite E in H. discriminate H.
Qed.

Lemma setFormValue_formValue_thrown path v s e :
  set (formValue s) path v = Throw e ->
  formValue (snd (setFormValue call contextValidator path v s)) = formValue s.
Proof.
  intros E. unfold setFormValue.
  unfold bind at 1, gets at 1. cbv beta iota.
  unfold bind at 1, lift at 1. rewrite E. reflexivity.
Qed.

Lemma maintains_rooted_setFormValue path v :
  maintains rooted (setFormValue call contextValidator path v).
Proof.
  intros s [kvs Hs]. unfold rooted.
  destruct (set (formValue s) path v) as [t|e] eqn:E.
  - rewrite (setFormValue_formValue call contextValidator path v s t E).
    rewrite Hs in E. exact (set_object _ _ _ _ E).
  - rewrite (setFormValue_formValue_thrown path v s e E). exists kvs. exact Hs.
Qed.

Lemma setValues_invariant (P : store -> Prop) calls s :
  (forall path v, maintains P (setFormValue call contextValidator path v)) ->
  P s -> P (setValues call contextValidator calls s).
Proof.
  intros HP. unfold setValues. revert s.
  induction calls as [|[path v] calls IH]; intros s Hs; [exact Hs|].
  cbn [fold_left fst snd]. apply IH, HP, Hs.
Qed.

(** [reset()], step by step. *)
Lemma reset_run s :
  reset call contextValidator s
  = match keyify (initState s) EmptyString with
    | Ok paths =>
        (forEach paths (fun path =>
           setFormValue call contextValidator path (get (initState s) path VUndef)) ;;
         setAllFormDirty false) s
    | Throw e => (Throw e, s)
    end.
Proof.
  unfold reset, initialize. unfold bind at 1, gets at 1. cbv beta iota.
  cbn [is_nullish truthy prop assoc String.eqb Ascii.eqb Bool.eqb default negb].
  unfold bind at 1, ret at 1. cbv beta iota.
  unfold bind at 1, ret at 1. cbv beta iota.
  unfold bind at 1, lift at 1.
  destruct (keyify (initState s) EmptyString); reflexivity.
Qed.

Lemma preserves_initState_reset : preserves initState (reset call contextValidator).
Proof.
  intros s. rewrite reset_run. destruct (keyify _ _) as [paths|e]; [|reflexivity].
  refine (preserves_bind initState _ _ _ _ s).
  - apply preserves_forEach. intros path. apply preserves_initState_setFormValue.
  - intros _. unfold setAllFormDirty. unfold_store. preserve.
Qed.

(** With nothing marked dirty, [reset()] leaves the dirty tree empty. *)
Lemma reset_clean_dirty s :
  formDirty s = VObj [] -> formDirty (snd (reset call contextValidator s)) = VObj [].
Proof.
  intros Hs. rewrite reset_run. destruct (keyify _ _) as [paths|e]; [|exact Hs].
  refine (maintains_bind (fun s => formDirty s = VObj []) _ _ _ _ s Hs).
  - apply maintains_forEach. intros path.
    apply (preserves_maintains formDirty (fun d => d = VObj [])).
    apply preserves_formDirty_setFormValue.
  - intros _ s1 H1. unfold setAllFormDirty.
    unfold bind at 1, gets at 1. cbv beta iota. rewrite H1.
    cbn. exact H1.
Qed.

(** The loop of [reset()] on a flat form: the keys of the form get back the
    values that the snapshot [i] holds, the other keys keep theirs. *)
Lemma restore_flat i keys : forall s s',
  forallb flat_key keys = true ->
  rooted s ->
  forEach keys (fun path =>
    setFormValue call contextValidator path (get i path VUndef)) s = (Ok tt, s') ->
  rooted s'
  /\ (forall k, In k keys -> prop (formValue s') k = get i k VUndef)
  /\ (forall k, ~ In k keys -> prop (formValue s') k = prop (formValue s) k).
Proof.
  induction keys as [|k keys IH]; intros s s' Hkeys Hroot H.
  - cbn in H. injection H as <-. split; [exact Hroot|]. split; [intros k []|reflexivity].
  - cbn [forallb] in Hkeys. apply andb_prop in Hkeys as [Hk Hkeys].
    apply andb_prop in Hk as [Hk _].
    cbn [forEach] in H. apply bind_Ok_inv in H as ([] & s1 & H1 & H).
    apply setFormValue_Ok_inv in H1 as (t & Hset & Ht).
    destruct Hroot as [kvs Hroot]. rewrite Hroot in Hset.
    apply set_object_plain in Hset; [|exact Hk]. subst t.
    assert (Hroot1 : rooted s1) by (eexists; exact Ht).
    destruct (IH s1 s' Hkeys Hroot1 H) as (Hroot' & Hin & Hout).
    split; [exact Hroot'|]. split.
    + intros k' [<-|Hk'].
      * destruct (in_dec string_dec k keys) as [Hmem|Hmem]; [exact (Hin k Hmem)|].
        rewrite (Hout k Hmem), Ht. cbn [prop]. rewrite assoc_obj_put_eq. reflexivity.
      * exact (Hin k' Hk').
    + intros k' Hk'.
      assert (Hne : k' <> k) by (intros ->; apply Hk'; left; reflexivity).
      rewrite Hout by (intros Hmem; apply Hk'; right; exact Hmem).
      rewrite Ht, Hroot. cbn [prop]. rewrite assoc_obj_put_ne by exact Hne. reflexivity.
Qed.

Lemma preserves_formValue_setAllFormDirty b : preserves formValue (setAllFormDirty b).
Proof. unfold setAllFormDirty. unfold_store. preserve. Qed.

End Reset.

Lemma flat_form_keys kvs :
  flat_form (VObj kvs) = true -> forallb flat_key (map fst kvs) = true.
Proof.
  cbn [flat_form]. induction kvs as [|[k u] kvs IH]; [reflexivity|].
  cbn [forallb map fst snd]. intros H. apply andb_prop in H as [H1 H2].
  apply andb_prop in H1 as [H1 _]. rewrite H1, (IH H2). reflexivity.
Qed.

Lemma get_undefined_default o p d :
  match get o p VUndef with VUndef => d | _ => get o p VUndef end = get o p d.
Proof. unfold get. destruct (if is_nullish o then VUndef else baseGet o p); reflexivity. Qed.

Lemma getFormValues_flat_key k s kvs :
  flat_key k = true -> formValue s = VObj kvs ->
  getFormValues k s
  = match prop (VObj kvs) k with
    | VUndef => VStr EmptyString
    | _ => prop (VObj kvs) k
    end.
Proof.
  unfold flat_key. intros Hk Hs. apply andb_prop in Hk as [Hplain Hne].
  unfold getFormValues. apply negb_true_iff in Hne. rewrite Hne, Hs.
  apply get_object_plain, Hplain.
Qed.

(** ** [arrayRemove] on aligned trees *)

Lemma prop_scalar o k :
  is_object_non_null o = false -> is_object_non_null (prop o k) = false.
Proof.
  destruct o; intros H; try discriminate H; try reflexivity.
  cbn [prop]. destruct (array_index k) as [n|].
  - unfold char_at. destruct (String.get (N.to_nat n) s); reflexivity.
  - destruct (String.eqb k "length"); reflexivity.
Qed.

Lemma walk_scalar segs : forall o,
  is_object_non_null o = false -> is_object_non_null (walk o segs) = false.
Proof.
  induction segs as [|k r IH]; intros o Ho; [exact Ho|].
  cbn [walk]. destruct (is_nullish o); [reflexivity|].
  apply IH, prop_scalar, Ho.
Qed.

Lemma walk_undefined segs : is_object_non_null (walk VUndef segs) = false.
Proof. apply walk_scalar. reflexivity. Qed.

Lemma assoc_obj_replace_some k q v kvs :
  match assoc q (obj_replace k v kvs) with Some _ => true | None => false end
  = match assoc q kvs with Some _ => true | None => false end.
Proof.
  induction kvs as [|[k' v'] kvs IH]; simpl; [reflexivity|].
  destruct (String.eqb k k') eqn:E; simpl.
  - destruct (String.eqb q k'); reflexivity.
  - destruct (String.eqb q k'); [reflexivity|exact IH].
Qed.

Lemma nth_error_replace_nth_some n m v (xs : list (option value)) w :
  nth_error xs n = Some (Some w) ->
  match nth_error (replace_nth n v xs) m with Some (Some _) => true | _ => false end
  = match nth_error xs m with Some (Some _) => true | _ => false end.
Proof.
  intros Hn. destruct (Nat.eq_dec n m) as [<-|Hne].
  - rewrite nth_error_replace_nth_eq, Hn; [reflexivity|].
    apply nth_error_Some. congruence.
  - rewrite nth_error_replace_nth_ne by exact Hne. reflexivity.
Qed.

(** Replacing the array that a walk reaches: the walk then reaches the new
    array, and the tree has the same properties as before. *)
Lemma walk_replace_at segs : forall o ys v,
  walk o segs = VArr ys ->
  walk (replace_at o segs v) segs = v
  /\ (segs <> [] ->
      is_nullish (replace_at o segs v) = false
      /\ forall q, has_prop (replace_at o segs v) q = has_prop o q).
Proof.
  induction segs as [|k r IH]; intros o ys v Hw.
  - split; [reflexivity|congruence].
  - cbn [walk] in Hw. destruct (is_nullish o) eqn:En; [discriminate Hw|].
    assert (Hchild : is_object_non_null (walk (prop o k) r) = true)
      by (rewrite Hw; reflexivity).
    destruct o as [| | | | | |xs|kvs];
      try (rewrite walk_scalar in Hchild by (apply prop_scalar; reflexivity);
           discriminate Hchild).
    + cbn [prop] in Hw, Hchild. destruct (array_index k) as [n|] eqn:Ek.
      2:{ rewrite walk_scalar in Hchild
            by (destruct (String.eqb k "length"); reflexivity).
          discriminate Hchild. }
      unfold nth_elem in Hw, Hchild.
      destruct (nth_error xs (N.to_nat n)) as [[child|]|] eqn:Hn;
        try (rewrite walk_undefined in Hchild; discriminate Hchild).
      destruct (IH child ys v Hw) as [IHw _].
      cbn [replace_at has_prop]. unfold nth_elem. rewrite Ek, Hn.
      assert (Hlt : (N.to_nat n < List.length xs)%nat)
        by (apply nth_error_Some; congruence).
      split.
      * cbn [walk is_nullish prop]. rewrite Ek. unfold nth_elem.
        rewrite nth_error_replace_nth_eq by exact Hlt. exact IHw.
      * intros _. split; [reflexivity|]. intros q. cbn [has_prop].
        destruct (array_index q) as [m|]; [|reflexivity].
        exact (nth_error_replace_nth_some _ _ _ _ _ Hn).
    + cbn [prop] in Hw, Hchild.
      destruct (assoc k kvs) as [child|] eqn:Hk;
        [|cbn in Hchild; rewrite walk_undefined in Hchild; discriminate Hchild].
      cbn [default] in Hw. destruct (IH child ys v Hw) as [IHw _].
      cbn [replace_at]. rewrite Hk. cbn [default]. split.
      * cbn [walk is_nullish prop].
        rewrite assoc_obj_replace_eq by congruence. exact IHw.
      * intros _. split; [reflexivity|]. intros q. cbn [has_prop].
        apply assoc_obj_replace_some.
Qed.

Lemma get_replace_at o p ys ys' :
  get o p VUndef = VArr ys ->
  get (replace_at o (castPath p o) (VArr ys')) p VUndef = VArr ys'.
Proof.
  unfold get, baseGet. destruct (is_nullish o) eqn:En; [discriminate|].
  destruct (castPath p o) as [|k r] eqn:Hsegs; [discriminate|].
  intros Hw.
  assert (Hw' : walk o (k :: r) = VArr ys)
    by (destruct (walk o (k :: r)); try discriminate Hw; exact Hw).
  destruct (walk_replace_at (k :: r) o ys (VArr ys') Hw') as [Hnew Hsame].
  destruct Hsame as [Hn Hhas]; [discriminate|].
  rewrite Hn.
  assert (Hkey : isKey p (replace_at o (k :: r) (VArr ys')) = isKey p o)
    by (unfold isKey; rewrite Hn, En, Hhas; reflexivity).
  assert (Hcast : castPath p (replace_at o (k :: r) (VArr ys')) = k :: r)
    by (unfold castPath in *; rewrite Hkey; exact Hsegs).
  rewrite Hcast, Hnew. reflexivity.
Qed.

Lemma pullAt_in_aligned container path index :
  array_or_absent (get container path VUndef) ->
  (0 <= index)%Z ->
  exists container',
    pullAt_in container path index = Ok container'
    /\ get container' path VUndef = shifted index (get container path VUndef).
Proof.
  intros Ha Hi. unfold pullAt_in.
  destruct (get container path VUndef) as [| |b|n|str| |ys|] eqn:Hg;
    try contradiction;
    try (exists container; split; [reflexivity|exact Hg]).
  - exists container. split; [destruct b; reflexivity|exact Hg].
  - exists container. split; [|exact Hg].
    unfold pullAt. destruct (negb (truthy (VNum n))); reflexivity.
  - cbn in Ha. subst str. exists container. split; [reflexivity|exact Hg].
  - cbn [pullAt truthy negb shifted]. apply Z.leb_le in Hi. rewrite Hi.
    cbn [outcome_bind]. eexists. split; [reflexivity|].
    exact (get_replace_at _ _ _ _ Hg).
Qed.

Lemma forEach_forceUpdate fs s :
  forEach fs forceUpdate s = (Ok tt, with_rendered (rendered s ++ fs) s).
Proof.
  revert s. induction fs as [|f fs IH]; intros s.
  - cbn. rewrite app_nil_r. destruct s; reflexivity.
  - cbn [forEach]. unfold bind, forceUpdate at 1, modify. rewrite IH.
    cbn. rewrite <- app_assoc. reflexivity.
Qed.

(** [arrayRemove] when [pullAt] passes on the four trees. *)
Lemma arrayRemove_pulls path index s xs tv te td tu :
  get (formValue s) path VUndef = VArr xs ->
  pullAt_in (formValue s) path index = Ok tv ->
  pullAt_in (formError s) path index = Ok te ->
  pullAt_in (formDirty s) path index = Ok td ->
  pullAt_in (formUniqueIds s) path index = Ok tu ->
  arrayRemove path index s
  = (Ok tt,
     with_rendered (rendered s ++ default [] (assoc path (forceUpdatesByPath s)))
       (with_formUniqueIds tu
          (with_formDirty td (with_formError te (with_formValue tv s))))).
Proof.
  intros Hv Hpv Hpe Hpd Hpu.
  unfold arrayRemove. unfold bind at 1, gets at 1. cbv beta iota. rewrite Hv.
  unfold bind at 1, ret at 1. cbv beta iota.
  cbn [forEach fst snd].
  unfold bind at 1. unfold bind at 1. unfold bind at 1. unfold gets at 1.
  cbv beta iota. unfold bind at 1. unfold lift at 1. rewrite Hpv. cbv beta iota.
  unfold modify at 1. cbv beta iota.
  unfold bind at 1. unfold bind at 1. unfold gets at 1.
  cbv beta iota. cbn [formError with_formValue].
  unfold bind at 1. unfold lift at 1. rewrite Hpe. cbv beta iota.
  unfold modify at 1. cbv beta iota.
  unfold bind at 1. unfold bind at 1. unfold gets at 1.
  cbv beta iota. cbn [formDirty with_formValue with_formError].
  unfold bind at 1. unfold lift at 1. rewrite Hpd. cbv beta iota.
  unfold modify at 1. cbv beta iota.
  unfold bind at 1. unfold bind at 1. unfold gets at 1.
  cbv beta iota. cbn [formUniqueIds with_formValue with_formError with_formDirty].
  unfold bind at 1. unfold lift at 1. rewrite Hpu. cbv beta iota.
  unfold modify at 1. unfold ret. cbv beta iota.
  unfold forceUpdatePath. unfold bind, gets. rewrite forEach_forceUpdate.
  reflexivity.
Qed.

(** X2. When the value tree holds an array at [path], the index is
    not negative and the three overlay trees are aligned with the value tree
    at [path], [arrayRemove(path, index)] returns normally, has removed the
    element at [index] from the array of each of the four trees, and has
    called the observers registered for [path]. *)
Lemma arrayRemove_aligned path index s xs :
  get (formValue s) path VUndef = VArr xs ->
  (0 <= index)%Z ->
  array_or_absent (get (formError s) path VUndef) ->
  array_or_absent (get (formDirty s) path VUndef) ->
  array_or_absent (get (formUniqueIds s) path VUndef) ->
  exists s',
    arrayRemove path index s = (Ok tt, s')
    /\ get (formValue s') path VUndef = VArr (remove_nth (Z.to_nat index) xs)
    /\ get (formError s') path VUndef = shifted index (get (formError s) path VUndef)
    /\ get (formDirty s') path VUndef = shifted index (get (formDirty s) path VUndef)
    /\ get (formUniqueIds s') path VUndef
       = shifted index (get (formUniqueIds s) path VUndef)
    /\ rendered s' = rendered s ++ default [] (assoc path (forceUpdatesByPath s)).
Proof.
  intros Hv Hi He Hd Hu.
  assert (Hva : array_or_absent (get (formValue s) path VUndef))
    by (rewrite Hv; exact I).
  destruct (pullAt_in_aligned _ path index Hva Hi) as (tv & Hpv & Hgv).
  destruct (pullAt_in_aligned _ path index He Hi) as (te & Hpe & Hge).
  destruct (pullAt_in_aligned _ path index Hd Hi) as (td & Hpd & Hgd).
  destruct (pullAt_in_aligned _ path index Hu Hi) as (tu & Hpu & Hgu).
  eexists. split.
  - exact (arrayRemove_pulls path index s xs tv te td tu Hv Hpv Hpe Hpd Hpu).
  - cbn. rewrite Hgv, Hv. cbn [shifted]. rewrite (proj2 (Z.leb_le 0 index) Hi).
    repeat split; assumption.
Qed.

Lemma arrayRemove_aligned_witness :
  exists s',
    arrayRemove "items" 0 (FormProvider two_items) = (Ok tt, s')
    /\ get (formValue s') "items" VUndef = VArr [Some (VNum 2)].
Proof.
  destruct (arrayRemove_aligned "items" 0 (FormProvider two_items)
              [Some (VNum 1); Some (VNum 2)]) as (s' & Hrun & Hv & _).
  - vm_compute. reflexivity.
  - lia.
  - vm_compute. exact I.
  - vm_compute. exact I.
  - vm_compute. exact I.
  - exists s'. split; [exact Hrun|exact Hv].
Defined.

Lemma arrayRemove_not_array path index s :
  match get (formValue s) path VUndef with VArr _ => False | _ => True end ->
  arrayRemove path index s = (Throw (NotAnArray path), s).
Proof.
  intros H. unfold arrayRemove. unfold bind at 1, gets at 1. cbv beta iota.
  destruct (get (formValue s) path VUndef); try reflexivity. contradiction.
Qed.

(** * Further properties *)

(** ** Runs and stores *)

Lemma run_Ok {A : Type} (r : outcome A * store) (a : A) :
  fst r = Ok a -> r = (Ok a, snd r).
Proof. destruct r as [o s]. cbn. intros ->. reflexivity. Qed.

Lemma bind_assoc {A B C : Type} (m : M A) (f : A -> M B) (g : B -> M C) s :
  bind (bind m f) g s = bind m (fun a => bind (f a) g) s.
Proof. unfold bind. destruct (m s) as [[a|e] s1]; reflexivity. Qed.

Lemma bind_ext {A B : Type} (m : M A) (f f' : A -> M B) s :
  (forall a s1, f a s1 = f' a s1) -> bind m f s = bind m f' s.
Proof. intros H. unfold bind. destruct (m s) as [[a|e] s1]; [apply H|reflexivity]. Qed.

Lemma bind_post {A B : Type} (P : store -> Prop) (m : M A) (f : A -> M B) s :
  P (snd (m s)) ->
  (forall a s1, m s = (Ok a, s1) -> P s1 -> P (snd (f a s1))) ->
  P (snd (bind m f s)).
Proof.
  unfold bind. destruct (m s) as [[a|e] s1]; cbn [snd]; intros H1 H2;
    [exact (H2 a s1 eq_refl H1)|exact H1].
Qed.

(** Two stores with the same refs are the same store. *)
Lemma store_eq s s' :
  initState s = initState s' -> formValue s = formValue s' ->
  formDirty s = formDirty s' -> formError s = formError s' ->
  formUniqueIds s = formUniqueIds s' -> localValidators s = localValidators s' ->
  formValid s = formValid s' -> invalidPathSet s = invalidPathSet s' ->
  forceUpdates s = forceUpdates s' -> forceUpdatesByPath s = forceUpdatesByPath s' ->
  idCounter s = idCounter s' -> rendered s = rendered s' -> s = s'.
Proof. destruct s, s'; cbn; intros; subst; reflexivity. Qed.

(** The refs that an action leaves alone. *)
Ltac only_changes :=
  apply store_eq;
  cbn [initState formValue formDirty formError formUniqueIds localValidators formValid
       invalidPathSet forceUpdates forceUpdatesByPath idCounter rendered
       with_initState with_formValue with_formDirty with_formError with_formUniqueIds
       with_localValidators with_formValid with_invalidPathSet with_forceUpdates
       with_forceUpdatesByPath with_idCounter with_rendered];
  try reflexivity;
  match goal with
  | |- ?proj ?s = ?proj (snd (?m ?s)) =>
      symmetry; revert s; change (preserves proj m)
  end.

(** ** The observers that a write calls *)

Lemma triggerForceUpdates_run path s :
  triggerForceUpdates path s
  = (Ok tt, with_rendered (rendered s ++ observers_of s path) s).
Proof.
  unfold triggerForceUpdates, forceUpdatePath, observers_of.
  unfold bind at 1, gets at 1. cbv beta iota.
  unfold bind at 1. rewrite forEach_forceUpdate. cbv beta iota.
  unfold bind at 1, gets at 1. cbv beta iota.
  rewrite forEach_forceUpdate. cbn. rewrite <- app_assoc. reflexivity.
Qed.

Section Notify.
Variable call : nat -> value -> value.
Variable contextValidator : option (value -> value -> value).

Lemma setFormValue_split path v s :
  setFormValue call contextValidator path v s
  = (before_notify call contextValidator path v ;; triggerForceUpdates path) s.
Proof.
  symmetry. unfold setFormValue, before_notify.
  repeat (rewrite bind_assoc; apply bind_ext; intros ? ?).
  reflexivity.
Qed.

Lemma before_notify_frame path v s :
  rendered (snd (before_notify call contextValidator path v s)) = rendered s
  /\ forceUpdates (snd (before_notify call contextValidator path v s)) = forceUpdates s
  /\ forceUpdatesByPath (snd (before_notify call contextValidator path v s)) = forceUpdatesByPath s.
Proof.
  split; [|split].
  - revert s. change (preserves rendered (before_notify call contextValidator path v)).
    unfold before_notify. unfold_store. preserve.
  - revert s. change (preserves forceUpdates (before_notify call contextValidator path v)).
    unfold before_notify. unfold_store. preserve.
  - revert s. change (preserves forceUpdatesByPath (before_notify call contextValidator path v)).
    unfold before_notify. unfold_store. preserve.
Qed.

End Notify.

(** What a call of [setFormValue] adds to the log, and the observers it
    leaves. *)
Lemma setFormValue_log call contextValidator path v s :
  rendered (snd (setFormValue call contextValidator path v s))
  = rendered s
    ++ match fst (setFormValue call contextValidator path v s) with
       | Ok _ => observers_of s path
       | Throw _ => []
       end
  /\ forceUpdates (snd (setFormValue call contextValidator path v s)) = forceUpdates s
  /\ forceUpdatesByPath (snd (setFormValue call contextValidator path v s))
     = forceUpdatesByPath s.
Proof.
  rewrite setFormValue_split.
  destruct (before_notify_frame call contextValidator path v s) as (Hr & Hf & Hp).
  unfold bind.
  destruct (before_notify call contextValidator path v s) as [[[]|e] s1];
    cbn [fst snd] in *.
  - rewrite triggerForceUpdates_run.
    cbn [fst snd rendered forceUpdates forceUpdatesByPath with_rendered].
    unfold observers_of. rewrite Hr, Hf, Hp. repeat split; reflexivity.
  - rewrite app_nil_r. repeat split; assumption.
Qed.

(** X3. Inside the modelled fragment, a call of [setValue(path, value)]
    that returns has called the observers of the whole form and then those
    of [path], in the order of their subscription, and nothing else; a call
    that throws has called no observer. The observers of every path are the
    same after the call. *)
Theorem setFormValue_notifies
    (call : nat -> value -> value)
    (contextValidator : option (value -> value -> value))
    (path : string) (v : value) (s : store) :
  in_model (setFormValue call contextValidator path v s) ->
  rendered (snd (setFormValue call contextValidator path v s))
  = rendered s
    ++ match fst (setFormValue call contextValidator path v s) with
       | Ok _ => observers_of s path
       | Throw _ => []
       end
  /\ forall q,
       observers_of (snd (setFormValue call contextValidator path v s)) q
       = observers_of s q.
Proof.
  intros _.
  destruct (setFormValue_log call contextValidator path v s) as (Hlog & Hf & Hp).
  split; [exact Hlog|]. intros q. unfold observers_of. rewrite Hf, Hp. reflexivity.
Qed.

Lemma setFormValue_notifies_witness :
  rendered (snd (setFormValue example_call None "username" (VStr "ann") login_mounted))
  = rendered login_mounted ++ [7].
Proof.
  destruct (setFormValue_notifies example_call None "username" (VStr "ann") login_mounted)
    as [H _].
  - vm_compute. exact I.
  - etransitivity; [exact H|vm_compute; reflexivity].
Defined.

(** ** A context validator that returns nothing *)

Lemma setFormValue_halves call contextValidator path v s :
  setFormValue call contextValidator path v s
  = (write_and_validate call path v ;; after_validation contextValidator path) s.
Proof.
  symmetry. unfold setFormValue, write_and_validate, after_validation.
  repeat (rewrite bind_assoc; apply bind_ext; intros ? ?).
  reflexivity.
Qed.

Lemma after_validation_None path s : fst (after_validation None path s) = Ok tt.
Proof.
  unfold after_validation, runContextValidator, trackInvalidPath, updateFormValid.
  unfold bind, ret, gets, modify. rewrite triggerForceUpdates_run. reflexivity.
Qed.

Lemma keyify_nullish v prefix : is_nullish v = true -> keyify v prefix = Throw TypeError.
Proof. destruct v; try discriminate; reflexivity. Qed.

Lemma after_validation_nullish validate path s :
  is_nullish (validate (formValue s) (formError s)) = true ->
  after_validation (Some validate) path s = (Throw TypeError, s).
Proof.
  intros H. unfold after_validation. unfold bind at 1.
  rewrite runContextValidator_run, (keyify_nullish _ _ H). reflexivity.
Qed.

Lemma write_and_validate_frame call path v s :
  invalidPathSet (snd (write_and_validate call path v s)) = invalidPathSet s
  /\ formValid (snd (write_and_validate call path v s)) = formValid s
  /\ rendered (snd (write_and_validate call path v s)) = rendered s.
Proof.
  split; [|split].
  - revert s. change (preserves invalidPathSet (write_and_validate call path v)).
    unfold write_and_validate. unfold_store. preserve.
  - revert s. change (preserves formValid (write_and_validate call path v)).
    unfold write_and_validate. unfold_store. preserve.
  - revert s. change (preserves rendered (write_and_validate call path v)).
    unfold write_and_validate. unfold_store. preserve.
Qed.

(** X4. If the context validator returns [null] or [undefined], no
    call of [setValue] returns normally: where the call would return without
    a context validator, it throws a [TypeError]. The value tree is written
    as without a context validator, but the set of invalid paths and the
    validity flag stay as they were, and no observer is called. *)
Theorem setFormValue_context_nullish
    (call : nat -> value -> value) (validate : value -> value -> value)
    (path : string) (v : value) (s : store) :
  (forall values errors, is_nullish (validate values errors) = true) ->
  fst (setFormValue call (Some validate) path v s) <> Ok tt
  /\ (fst (setFormValue call None path v s) = Ok tt ->
      fst (setFormValue call (Some validate) path v s) = Throw TypeError)
  /\ formValue (snd (setFormValue call (Some validate) path v s))
     = formValue (snd (setFormValue call None path v s))
  /\ invalidPathSet (snd (setFormValue call (Some validate) path v s)) = invalidPathSet s
  /\ formValid (snd (setFormValue call (Some validate) path v s)) = formValid s
  /\ rendered (snd (setFormValue call (Some validate) path v s)) = rendered s.
Proof.
  intros Hnull.
  assert (Hv : formValue (snd (setFormValue call (Some validate) path v s))
               = formValue (snd (setFormValue call None path v s))).
  { destruct (set (formValue s) path v) as [t|e] eqn:E.
    - rewrite !(setFormValue_formValue _ _ _ _ _ _ E). reflexivity.
    - rewrite !(setFormValue_formValue_thrown _ _ _ _ _ _ E). reflexivity. }
  revert Hv. rewrite !setFormValue_halves.
  destruct (write_and_validate_frame call path v s) as (Hset & Hflag & Hlog).
  unfold bind.
  destruct (write_and_validate call path v s) as [[[]|e] s1]; cbn [fst snd] in *.
  - rewrite after_validation_nullish by apply Hnull. cbn [fst snd].
    intros Hv. repeat split; try assumption; discriminate.
  - intros Hv. repeat split; try assumption; discriminate.
Qed.

Lemma setFormValue_context_nullish_witness :
  fst (setFormValue example_call (Some silent_validator) "username" (VStr "ann")
         (FormProvider login_form)) = Throw TypeError
  /\ formValue (snd (setFormValue example_call (Some silent_validator) "username"
                       (VStr "ann") (FormProvider login_form)))
     = VObj [("username", VStr "ann"); ("password", VStr "123")].
Proof.
  destruct (setFormValue_context_nullish example_call silent_validator "username"
              (VStr "ann") (FormProvider login_form)) as (_ & H & Hv & _).
  { intros values errors. reflexivity. }
  split; [apply H; vm_compute; reflexivity|].
  etransitivity; [exact Hv|vm_compute; reflexivity].
Defined.

(** ** [submit] *)

Lemma forceUpdatePath_run path s :
  forceUpdatePath path s
  = (Ok tt, with_rendered (rendered s ++ default [] (assoc path (forceUpdatesByPath s))) s).
Proof.
  unfold forceUpdatePath. unfold bind, gets. apply forEach_forceUpdate.
Qed.

(** The loop of [setAllFormDirty(boolean)] over the keys of a flat dirty
    tree. *)
Lemma mark_flat b keys : forall s s',
  forallb flat_key keys = true ->
  (exists kvs, formDirty s = VObj kvs) ->
  forEach keys (fun path => setFormDirty path (VBool b) ;; forceUpdatePath path) s
  = (Ok tt, s') ->
  (exists kvs', formDirty s' = VObj kvs')
  /\ (forall k, In k keys -> prop (formDirty s') k = VBool b)
  /\ (forall k, ~ In k keys -> prop (formDirty s') k = prop (formDirty s) k)
  /\ rendered s' = rendered s ++ observers_of_paths s keys
  /\ s' = with_rendered (rendered s') (with_formDirty (formDirty s') s).
Proof.
  induction keys as [|k keys IH]; intros s s' Hkeys Hroot H.
  - cbn in H. injection H as <-. split; [exact Hroot|].
    split; [intros k []|]. split; [reflexivity|].
    split; [cbn; rewrite app_nil_r; reflexivity|destruct s; reflexivity].
  - cbn [forallb] in Hkeys. apply andb_prop in Hkeys as [Hk Hkeys].
    apply andb_prop in Hk as [Hk _].
    cbn [forEach] in H. apply bind_Ok_inv in H as ([] & s1 & H1 & H).
    apply bind_Ok_inv in H1 as ([] & sa & Ha & H1).
    unfold setFormDirty in Ha.
    apply bind_Ok_inv in Ha as (d & sb & Hb & Ha).
    unfold gets in Hb. injection Hb as <- <-.
    apply bind_Ok_inv in Ha as (t & sc & Hc & Ha).
    unfold lift in Hc. injection Hc as Hset <-.
    unfold modify in Ha. injection Ha as <-.
    rewrite forceUpdatePath_run in H1. injection H1 as <-.
    destruct Hroot as [kvs Hroot]. rewrite Hroot in Hset.
    apply set_object_plain in Hset; [|exact Hk]. subst t.
    match type of H with
    | forEach _ _ ?s1 = _ =>
        assert (Hroot1 : exists kvs1, formDirty s1 = VObj kvs1)
          by (eexists; reflexivity);
        destruct (IH s1 s' Hkeys Hroot1 H) as (Hroot' & Hin & Hout & Hlog & Hframe)
    end.
    cbn [formDirty with_formDirty with_rendered rendered forceUpdatesByPath] in *.
    split; [exact Hroot'|]. split; [|split; [|split]].
    + intros k' [<-|Hk'].
      * destruct (in_dec string_dec k keys) as [Hmem|Hmem]; [exact (Hin k Hmem)|].
        rewrite (Hout k Hmem). cbn [prop]. rewrite assoc_obj_put_eq. reflexivity.
      * exact (Hin k' Hk').
    + intros k' Hk'.
      assert (Hne : k' <> k) by (intros ->; apply Hk'; left; reflexivity).
      rewrite Hout by (intros Hmem; apply Hk'; right; exact Hmem).
      rewrite Hroot. cbn [prop]. rewrite assoc_obj_put_ne by exact Hne. reflexivity.
    + rewrite Hlog. unfold observers_of_paths. cbn [map concat].
      rewrite app_assoc. reflexivity.
    + rewrite Hframe at 1. destruct s; reflexivity.
Qed.

Lemma setAllFormDirty_flat b s s' kvs :
  formDirty s = VObj kvs -> flat_form (VObj kvs) = true ->
  setAllFormDirty b s = (Ok tt, s') ->
  (forall k, In k (map fst kvs) -> getFormDirty k s' = VBool b)
  /\ rendered s' = rendered s ++ observers_of_paths s (map fst kvs)
  /\ s' = with_rendered (rendered s') (with_formDirty (formDirty s') s).
Proof.
  intros Hd Hflat H. unfold setAllFormDirty in H.
  apply bind_Ok_inv in H as (d & sa & Ha & H). unfold gets in Ha. injection Ha as <- <-.
  apply bind_Ok_inv in H as (paths & sb & Hb & H). unfold lift in Hb.
  injection Hb as Hb <-. rewrite Hd, (keyify_flat _ Hflat) in Hb. injection Hb as <-.
  destruct (mark_flat b (map fst kvs) s s' (flat_form_keys _ Hflat)
              (ex_intro _ kvs Hd) H) as ([kvs' Hroot'] & Hin & _ & Hlog & Hframe).
  split; [|split; assumption].
  intros k Hk. specialize (Hin k Hk).
  pose proof (flat_form_keys _ Hflat) as Hall. rewrite forallb_forall in Hall.
  specialize (Hall k Hk). unfold flat_key in Hall. apply andb_prop in Hall as [Hplain Hne].
  unfold getFormDirty. apply negb_true_iff in Hne. rewrite Hne, Hroot'.
  rewrite get_object_plain by exact Hplain. rewrite Hroot' in Hin. rewrite Hin. reflexivity.
Qed.

Lemma setAllFormDirty_frame b s :
  snd (setAllFormDirty b s)
  = with_rendered (rendered (snd (setAllFormDirty b s)))
      (with_formDirty (formDirty (snd (setAllFormDirty b s))) s).
Proof.
  symmetry. only_changes; unfold setAllFormDirty; unfold_store; preserve.
Qed.

(** X5. [submit()], when it returns, reports the validity flag, the
    value tree and the error tree as they were before the call, and changes
    nothing but the dirty tree and the log of the observers. On a flat dirty
    tree every key is dirty afterwards, and the observers of the keys have
    been called, key after key. *)
Theorem submit_reports (s : store) (r : submission) (s' : store) :
  submit s = (Ok r, s') ->
  r = mkSubmission (formValid s) (formValue s) (formError s)
  /\ s' = with_rendered (rendered s') (with_formDirty (formDirty s') s)
  /\ (forall kvs, formDirty s = VObj kvs -> flat_form (VObj kvs) = true ->
        (forall k, In k (map fst kvs) -> getFormDirty k s' = VBool true)
        /\ rendered s' = rendered s ++ observers_of_paths s (map fst kvs)).
Proof.
  unfold submit. intros H. apply bind_Ok_inv in H as ([] & s1 & H1 & H).
  unfold gets in H. injection H as <- <-.
  pose proof (setAllFormDirty_frame true s) as Hframe. rewrite H1 in Hframe.
  cbn [snd] in Hframe.
  split; [|split].
  - unfold getFormValid, getFormValues, getFormError. cbn [String.eqb].
    rewrite Hframe. reflexivity.
  - exact Hframe.
  - intros kvs Hd Hflat.
    destruct (setAllFormDirty_flat true s s1 kvs Hd Hflat H1) as (Hin & Hlog & _).
    split; assumption.
Qed.

Lemma submit_reports_witness :
  fst (submit login_mounted)
  = Ok (mkSubmission true login_form (VObj [("username", VStr EmptyString)]))
  /\ getFormDirty "username" (snd (submit login_mounted)) = VBool true
  /\ rendered (snd (submit login_mounted)) = rendered login_mounted ++ [7].
Proof.
  assert (Hrun : fst (submit login_mounted)
                 = Ok (mkSubmission true login_form (VObj [("username", VStr EmptyString)])))
    by (vm_compute; reflexivity).
  destruct (submit_reports login_mounted _ _ (run_Ok _ _ Hrun)) as (_ & _ & H).
  destruct (H [("username", VStr EmptyString)]) as [Hdirty Hlog];
    [vm_compute; reflexivity|reflexivity|].
  split; [exact Hrun|]. split.
  - apply Hdirty. left. reflexivity.
  - etransitivity; [exact Hlog|vm_compute; reflexivity].
Defined.

(** ** [initialize] *)

Section Initialize.
Variable call : nat -> value -> value.
Variable contextValidator : option (value -> value -> value).

(** [initialize], step by step. *)
Lemma initialize_run newFormState replaceInitState options s :
  is_nullish options = false ->
  initialize call contextValidator newFormState replaceInitState options s
  = let s0 := if replaces_snapshot replaceInitState
              then with_initState (cloneDeep newFormState) s else s in
    match keyify newFormState EmptyString with
    | Ok paths =>
        (forEach paths (fun path =>
           setFormValue call contextValidator path (get newFormState path VUndef)) ;;
         if keeps_dirty options then ret tt else setAllFormDirty false) s0
    | Throw e => (Throw e, s0)
    end.
Proof.
  intros Hopt. unfold initialize, replaces_snapshot, keeps_dirty. rewrite Hopt.
  unfold bind at 1, ret at 1. cbv beta iota zeta.
  assert (Hk : truthy match prop options "keepDirty" with
                      | VUndef => VBool false
                      | k => k
                      end = truthy (prop options "keepDirty"))
    by (destruct (prop options "keepDirty"); reflexivity).
  rewrite Hk.
  destruct (truthy match replaceInitState with VUndef => VBool true | r => r end).
  - unfold bind at 1, modify at 1. cbv beta iota.
    unfold bind at 1, lift at 1.
    destruct (keyify newFormState EmptyString); [|reflexivity].
    cbv beta iota. apply bind_ext. intros _ s1.
    destruct (truthy (prop options "keepDirty")); reflexivity.
  - unfold bind at 1, ret at 1. cbv beta iota.
    unfold bind at 1, lift at 1.
    destruct (keyify newFormState EmptyString); [|reflexivity].
    cbv beta iota. apply bind_ext. intros _ s1.
    destruct (truthy (prop options "keepDirty")); reflexivity.
Qed.

Lemma initialize_nullish_options newFormState replaceInitState options s :
  is_nullish options = true ->
  initialize call contextValidator newFormState replaceInitState options s
  = (Throw TypeError, s).
Proof. intros H. unfold initialize. rewrite H. reflexivity. Qed.

Lemma preserves_formDirty_loop (i : value) paths :
  preserves formDirty
    (forEach paths (fun path =>
       setFormValue call contextValidator path (get i path VUndef))).
Proof. apply preserves_forEach. intros path. apply preserves_formDirty_setFormValue. Qed.

Lemma preserves_initState_loop (i : value) paths :
  preserves initState
    (forEach paths (fun path =>
       setFormValue call contextValidator path (get i path VUndef))).
Proof. apply preserves_forEach. intros path. apply preserves_initState_setFormValue. Qed.

Lemma preserves_initState_setAllFormDirty b : preserves initState (setAllFormDirty b).
Proof. unfold setAllFormDirty. unfold_store. preserve. Qed.

(** The values after the loop of [initialize] or [reset] over a flat
    tree [i]. *)
Lemma loop_flat kvs s sa :
  flat_form (VObj kvs) = true -> rooted s ->
  forEach (map fst kvs) (fun path =>
    setFormValue call contextValidator path (get (VObj kvs) path VUndef)) s
  = (Ok tt, sa) ->
  (forall k, In k (map fst kvs) ->
     getFormValues k sa = get (VObj kvs) k (VStr EmptyString))
  /\ (forall k, flat_key k = true -> ~ In k (map fst kvs) ->
        getFormValues k sa = getFormValues k s).
Proof.
  intros Hflat Hroot Hloop.
  pose proof Hroot as [kvs0 Hroot0].
  apply (restore_flat call contextValidator (VObj kvs) (map fst kvs) s sa
           (flat_form_keys _ Hflat) Hroot) in Hloop.
  destruct Hloop as ([kvsa Hroota] & Hin & Hout).
  split.
  - intros k Hk.
    assert (Hflatk : flat_key k = true).
    { pose proof (flat_form_keys _ Hflat) as Hall.
      rewrite forallb_forall in Hall. exact (Hall k Hk). }
    rewrite (getFormValues_flat_key k sa kvsa Hflatk Hroota).
    specialize (Hin k Hk). rewrite Hroota in Hin. rewrite Hin.
    apply get_undefined_default.
  - intros k Hflatk Hk.
    rewrite (getFormValues_flat_key k sa kvsa Hflatk Hroota).
    rewrite (getFormValues_flat_key k s kvs0 Hflatk Hroot0).
    specialize (Hout k Hk). rewrite Hroota, Hroot0 in Hout. rewrite Hout. reflexivity.
Qed.

(** The snapshot after [initialize], however it ends. *)
Lemma initialize_snapshot newFormState replaceInitState options s :
  initState (snd (initialize call contextValidator newFormState replaceInitState options s))
  = if negb (is_nullish options) && replaces_snapshot replaceInitState
    then cloneDeep newFormState else initState s.
Proof.
  destruct (is_nullish options) eqn:Hopt;
    [rewrite initialize_nullish_options by exact Hopt; reflexivity|].
  rewrite initialize_run by exact Hopt. cbv zeta. cbn [negb andb].
  set (s0 := if replaces_snapshot replaceInitState
             then with_initState (cloneDeep newFormState) s else s).
  assert (Hi0 : initState s0
                = if replaces_snapshot replaceInitState
                  then cloneDeep newFormState else initState s)
    by (subst s0; destruct (replaces_snapshot _); reflexivity).
  destruct (keyify newFormState EmptyString) as [paths|e]; [|exact Hi0].
  rewrite <- Hi0. revert s0 Hi0. intros s0 _.
  refine (preserves_bind initState _ _ _ _ s0).
  - apply preserves_initState_loop.
  - intros _. destruct (keeps_dirty options);
      [apply preserves_ret|apply preserves_initState_setAllFormDirty].
Qed.

Lemma getFormValues_same path s s' :
  formValue s' = formValue s -> getFormValues path s' = getFormValues path s.
Proof. intros H. unfold getFormValues. rewrite H. reflexivity. Qed.

End Initialize.

(** X6. [initialize(newFormState, replaceInitState, options)] with a
    flat tree, on a store whose value tree is an object, when it returns:
    every key of the tree reads its new value (the empty string for
    [undefined]), every other flat key reads what it read before, the
    snapshot is the new tree when [replaceInitState] is truthy or omitted and
    is unchanged otherwise, and with [keepDirty] the dirty tree is
    unchanged. *)
Theorem initialize_flat
    (call : nat -> value -> value)
    (contextValidator : option (value -> value -> value))
    (newFormState replaceInitState options : value) (s s' : store) :
  flat_form newFormState = true ->
  rooted s ->
  initialize call contextValidator newFormState replaceInitState options s = (Ok tt, s') ->
  (forall k, In k (object_keys newFormState) ->
     getFormValues k s' = get newFormState k (VStr EmptyString))
  /\ (forall k, flat_key k = true -> ~ In k (object_keys newFormState) ->
        getFormValues k s' = getFormValues k s)
  /\ initState s' = (if replaces_snapshot replaceInitState then newFormState else initState s)
  /\ (keeps_dirty options = true -> formDirty s' = formDirty s).
Proof.
  intros Hflat Hroot H. pose proof H as Hinit.
  destruct (is_nullish options) eqn:Hopt;
    [rewrite initialize_nullish_options in H by exact Hopt; discriminate H|].
  rewrite initialize_run in H by exact Hopt. cbv zeta in H.
  destruct newFormState as [| | | | | | |kvs]; try discriminate Hflat.
  rewrite (keyify_flat _ Hflat) in H.
  set (s0 := if replaces_snapshot replaceInitState
             then with_initState (cloneDeep (VObj kvs)) s else s) in *.
  assert (Hroot0 : rooted s0) by (subst s0; destruct (replaces_snapshot _); exact Hroot).
  assert (Hv0 : formValue s0 = formValue s)
    by (subst s0; destruct (replaces_snapshot _); reflexivity).
  assert (Hd0 : formDirty s0 = formDirty s)
    by (subst s0; destruct (replaces_snapshot _); reflexivity).
  apply bind_Ok_inv in H as ([] & sa & Hloop & Hlast).
  pose proof (preserves_formDirty_loop call contextValidator (VObj kvs) (map fst kvs) s0)
    as Hda.
  rewrite Hloop in Hda. cbn [snd] in Hda.
  destruct (loop_flat call contextValidator kvs s0 sa Hflat Hroot0 Hloop) as [Hin Hout].
  assert (Hva : formValue s' = formValue sa).
  { destruct (keeps_dirty options).
    - unfold ret in Hlast. injection Hlast as <-. reflexivity.
    - pose proof (preserves_formValue_setAllFormDirty false sa) as Hsame.
      rewrite Hlast in Hsame. exact Hsame. }
  split; [|split; [|split]].
  - intros k Hk. rewrite (getFormValues_same k sa s' Hva). exact (Hin k Hk).
  - intros k Hk Hnot. rewrite (getFormValues_same k sa s' Hva).
    rewrite (Hout k Hk Hnot). apply getFormValues_same, Hv0.
  - pose proof (initialize_snapshot call contextValidator (VObj kvs) replaceInitState
                  options s) as Hsnap.
    rewrite Hopt, Hinit in Hsnap. cbn [snd negb andb] in Hsnap.
    rewrite Hsnap. destruct (replaces_snapshot _); [|reflexivity].
    apply cloneDeep_flat, Hflat.
  - intros Hkeep. rewrite Hkeep in Hlast. unfold ret in Hlast. injection Hlast as <-.
    rewrite Hda. exact Hd0.
Qed.

Lemma initialize_flat_witness :
  getFormValues "username" login_initialized = VStr "123"
  /\ getFormValues "password" login_initialized = VStr "123"
  /\ initState login_initialized = login_form.
Proof.
  unfold login_initialized.
  destruct (initialize_flat example_call None login_form VUndef (VObj [])
              (FormProvider (VObj []))
              (snd (initialize example_call None login_form VUndef (VObj [])
                      (FormProvider (VObj [])))))
    as (Hin & _ & Hsnap & _).
  - reflexivity.
  - exists []. reflexivity.
  - apply run_Ok. vm_compute. reflexivity.
  - split; [|split].
    + etransitivity; [apply (Hin "username"); left; reflexivity|reflexivity].
    + etransitivity; [apply (Hin "password"); right; left; reflexivity|reflexivity].
    + exact Hsnap.
Defined.

Section ResetAfter.
Variable call : nat -> value -> value.
Variable contextValidator : option (value -> value -> value).

Lemma maintains_rooted_preserved {A : Type} (m : M A) :
  preserves formValue m -> maintains rooted m.
Proof.
  intros H. exact (preserves_maintains formValue (fun v => exists kvs, v = VObj kvs) m H).
Qed.

Lemma maintains_rooted_initialize newFormState replaceInitState options :
  maintains rooted (initialize call contextValidator newFormState replaceInitState options).
Proof.
  unfold initialize.
  apply maintains_bind; [apply maintains_rooted_preserved; preserve|intros _].
  apply maintains_bind; [apply maintains_rooted_preserved; preserve|intros _].
  apply maintains_bind; [apply maintains_rooted_preserved; preserve|intros paths].
  apply maintains_bind.
  - apply maintains_forEach. intros path. apply maintains_rooted_setFormValue.
  - intros _. apply maintains_rooted_preserved.
    destruct (negb _); [apply preserves_formValue_setAllFormDirty|preserve].
Qed.

(** [reset()] on a store whose snapshot is a flat tree. *)
Lemma reset_flat kvs s s' :
  initState s = VObj kvs -> flat_form (VObj kvs) = true -> rooted s ->
  reset call contextValidator s = (Ok tt, s') ->
  (forall k, In k (map fst kvs) ->
     getFormValues k s' = get (VObj kvs) k (VStr EmptyString))
  /\ initState s' = VObj kvs.
Proof.
  intros Hinit Hflat Hroot H. split.
  - rewrite reset_run, Hinit, (keyify_flat _ Hflat) in H.
    apply bind_Ok_inv in H as ([] & sa & Hloop & Hlast).
    destruct (loop_flat call contextValidator kvs s sa Hflat Hroot Hloop) as [Hin _].
    pose proof (preserves_formValue_setAllFormDirty false sa) as Hsame.
    rewrite Hlast in Hsame. cbn [snd] in Hsame.
    intros k Hk. rewrite (getFormValues_same k sa s' Hsame). exact (Hin k Hk).
  - pose proof (preserves_initState_reset call contextValidator s) as Hsame.
    rewrite H in Hsame. cbn [snd] in Hsame. rewrite Hsame. exact Hinit.
Qed.

End ResetAfter.

(** X7. After [initialize] has replaced the snapshot by a flat tree,
    and after any calls of [setValue], a [reset()] that returns has restored
    the value of every key of that tree, and the snapshot is still that
    tree. *)
Theorem reset_after_initialize
    (call : nat -> value -> value)
    (contextValidator : option (value -> value -> value))
    (newFormState replaceInitState options : value)
    (calls : list (string * value)) (s s1 s2 : store) :
  flat_form newFormState = true ->
  rooted s ->
  replaces_snapshot replaceInitState = true ->
  initialize call contextValidator newFormState replaceInitState options s = (Ok tt, s1) ->
  reset call contextValidator (setValues call contextValidator calls s1) = (Ok tt, s2) ->
  (forall k, In k (object_keys newFormState) ->
     getFormValues k s2 = get newFormState k (VStr EmptyString))
  /\ initState s2 = newFormState.
Proof.
  intros Hflat Hroot Hrep Hinit Hreset.
  assert (Hsnap : initState s1 = newFormState).
  { pose proof (initialize_snapshot call contextValidator newFormState replaceInitState
                  options s) as Hsnap.
    rewrite Hinit, Hrep in Hsnap. cbn [snd] in Hsnap.
    destruct (is_nullish options) eqn:Hopt;
      [rewrite initialize_nullish_options in Hinit by exact Hopt; discriminate Hinit|].
    rewrite Hsnap. apply cloneDeep_flat, Hflat. }
  assert (Hroot1 : rooted s1).
  { pose proof (maintains_rooted_initialize call contextValidator newFormState
                  replaceInitState options s Hroot) as H.
    rewrite Hinit in H. exact H. }
  set (sc := setValues call contextValidator calls s1) in *.
  assert (Hrootc : rooted sc).
  { apply (setValues_invariant call contextValidator rooted); [|exact Hroot1].
    apply maintains_rooted_setFormValue. }
  assert (Hsnapc : initState sc = newFormState).
  { apply (setValues_invariant call contextValidator
             (fun s => initState s = newFormState)); [|exact Hsnap].
    intros path v. apply (preserves_maintains initState (fun i => i = newFormState)).
    apply preserves_initState_setFormValue. }
  destruct newFormState as [| | | | | | |kvs]; try discriminate Hflat.
  exact (reset_flat call contextValidator kvs sc s2 Hsnapc Hflat Hrootc Hreset).
Qed.

Lemma reset_after_initialize_witness :
  getFormValues "username"
    (snd (reset example_call None
            (setValues example_call None [("username", VStr "ann")] login_initialized)))
  = VStr "123".
Proof.
  unfold login_initialized.
  destruct (reset_after_initialize example_call None login_form VUndef (VObj [])
              [("username", VStr "ann")] (FormProvider (VObj []))
              (snd (initialize example_call None login_form VUndef (VObj [])
                      (FormProvider (VObj []))))
              (snd (reset example_call None
                      (setValues example_call None [("username", VStr "ann")]
                         (snd (initialize example_call None login_form VUndef (VObj [])
                                 (FormProvider (VObj []))))))))
    as [Hin _].
  - reflexivity.
  - exists []. reflexivity.
  - reflexivity.
  - apply run_Ok. vm_compute. reflexivity.
  - apply run_Ok. vm_compute. reflexivity.
  - etransitivity; [apply (Hin "username"); left; reflexivity|reflexivity].
Defined.

(** X8. No operation of the context changes the snapshot that [reset]
    restores, except [initialize] with options and with [replaceInitState]
    truthy or omitted: the snapshot is then the deep copy of the new tree,
    also when the call throws afterwards. *)
Theorem snapshot_changes_in_initialize_only
    (call : nat -> value -> value)
    (contextValidator : option (value -> value -> value))
    (o : operation) (s : store) :
  initState (snd (run call contextValidator o s))
  = match o with
    | Initialize newFormState replaceInitState options =>
        if negb (is_nullish options) && replaces_snapshot replaceInitState
        then cloneDeep newFormState else initState s
    | _ => initState s
    end.
Proof.
  destruct o; cbn [run];
    try (revert s;
         match goal with
         | |- forall s, initState (snd (?m s)) = initState s =>
             change (preserves initState m)
         end).
  - apply preserves_initState_setFormValue.
  - unfold_store. preserve.
  - apply initialize_snapshot.
  - apply preserves_initState_reset.
  - unfold submit, setAllFormDirty. unfold_store. preserve.
  - unfold arrayPush. unfold_store. preserve.
  - unfold arrayRemove. cbn [forEach]. unfold_store. preserve.
  - unfold subscribe. unfold_store. preserve.
  - unfold unsubscribe. preserve.
  - unfold subscribeForceUpdate. preserve.
  - unfold unsubscribeForceUpdate. preserve.
  - unfold getFormItemUniqueId, uniqueId. preserve.
Qed.

(** X9. [initialize] without its third argument throws a [TypeError]
    and changes nothing. With options and with [null] or [undefined] for the
    tree it throws a [TypeError] as well, after replacing the snapshot if
    [replaceInitState] is truthy or omitted; [reset()] then throws a
    [TypeError] too and changes nothing. *)
Theorem initialize_rejects
    (call : nat -> value -> value)
    (contextValidator : option (value -> value -> value))
    (newFormState replaceInitState options : value) (s : store) :
  (is_nullish options = true ->
   initialize call contextValidator newFormState replaceInitState options s
   = (Throw TypeError, s))
  /\ (is_nullish options = false -> is_nullish newFormState = true ->
      let s1 := if replaces_snapshot replaceInitState
                then with_initState newFormState s else s in
      initialize call contextValidator newFormState replaceInitState options s
      = (Throw TypeError, s1)
      /\ (replaces_snapshot replaceInitState = true ->
          reset call contextValidator s1 = (Throw TypeError, s1))).
Proof.
  split; [apply initialize_nullish_options|].
  intros Hopt Hnull s1.
  assert (Hclone : cloneDeep newFormState = newFormState)
    by (destruct newFormState; try discriminate Hnull; reflexivity).
  split.
  - rewrite initialize_run by exact Hopt. cbv zeta.
    rewrite (keyify_nullish _ _ Hnull), Hclone. reflexivity.
  - intros Hrep. subst s1. rewrite Hrep.
    unfold reset. unfold bind at 1, gets at 1. cbv beta iota.
    cbn [initState with_initState].
    rewrite initialize_run by reflexivity. cbv zeta.
    rewrite (keyify_nullish _ _ Hnull). reflexivity.
Qed.

(** ** Identifiers *)

Lemma getFormItemUniqueId_known path s :
  truthy (get (formUniqueIds s) path VUndef) = true ->
  getFormItemUniqueId path s = (Ok (get (formUniqueIds s) path VUndef), s).
Proof.
  intros H. unfold getFormItemUniqueId. unfold bind at 1, gets at 1. cbv beta iota.
  rewrite H. reflexivity.
Qed.

Lemma getFormItemUniqueId_new path s :
  truthy (get (formUniqueIds s) path VUndef) = false ->
  getFormItemUniqueId path s
  = let id := "formItem_" +:+ pretty (N.succ (idCounter s)) in
    match set (formUniqueIds s) path (VStr id) with
    | Ok t =>
        (Ok (VStr id), with_formUniqueIds t (with_idCounter (N.succ (idCounter s)) s))
    | Throw e => (Throw e, with_idCounter (N.succ (idCounter s)) s)
    end.
Proof.
  intros H. unfold getFormItemUniqueId. unfold bind at 1, gets at 1. cbv beta iota.
  rewrite H. unfold uniqueId. unfold bind, gets, modify, lift, ret. cbn.
  destruct (set (formUniqueIds s) path _); reflexivity.
Qed.

(** X10. When the tree of identifiers is an object and the path has a
    key, an identifier that [getFormItemUniqueId(path)] has returned is
    returned again by the next call, which changes nothing; the identifier
    is truthy. *)
Theorem getFormItemUniqueId_stable (path : string) (s s1 : store) (id : value) :
  isObject (formUniqueIds s) = true ->
  castPath path (formUniqueIds s) <> [] ->
  getFormItemUniqueId path s = (Ok id, s1) ->
  getFormItemUniqueId path s1 = (Ok id, s1)
  /\ truthy id = true.
Proof.
  intros Hobj Hsegs H.
  destruct (truthy (get (formUniqueIds s) path VUndef)) eqn:Hknown.
  - rewrite getFormItemUniqueId_known in H by exact Hknown. injection H as <- <-.
    split; [apply getFormItemUniqueId_known|]; exact Hknown.
  - rewrite getFormItemUniqueId_new in H by exact Hknown. cbv zeta in H.
    destruct (set (formUniqueIds s) path _) as [t|e] eqn:Hset; [|discriminate H].
    injection H as <- <-.
    assert (Hget : get t path VUndef
                   = VStr ("formItem_" +:+ pretty (N.succ (idCounter s))))
      by (apply (get_after_set _ _ _ _ _ Hset Hobj Hsegs); discriminate).
    split; [|reflexivity].
    rewrite getFormItemUniqueId_known; cbn [formUniqueIds with_formUniqueIds];
      rewrite Hget; reflexivity.
Qed.

Lemma getFormItemUniqueId_stable_witness :
  getFormItemUniqueId "username"
    (snd (getFormItemUniqueId "username" (FormProvider login_form)))
  = (Ok (VStr "formItem_1"),
     snd (getFormItemUniqueId "username" (FormProvider login_form))).
Proof.
  apply (getFormItemUniqueId_stable "username" (FormProvider login_form)).
  - reflexivity.
  - vm_compute. discriminate.
  - apply run_Ok. vm_compute. reflexivity.
Defined.

Section Counter.
Variable call : nat -> value -> value.
Variable contextValidator : option (value -> value -> value).

Lemma idCounter_getFormItemUniqueId path s :
  (idCounter s <= idCounter (snd (getFormItemUniqueId path s)))%N.
Proof.
  destruct (truthy (get (formUniqueIds s) path VUndef)) eqn:Hknown.
  - rewrite getFormItemUniqueId_known by exact Hknown. cbn. lia.
  - rewrite getFormItemUniqueId_new by exact Hknown. cbv zeta.
    destruct (set (formUniqueIds s) path _); cbn; lia.
Qed.

Lemma idCounter_run o s :
  (idCounter s <= idCounter (snd (run call contextValidator o s)))%N.
Proof.
  destruct o; cbn [run].
  12:{ unfold bind.
       pose proof (idCounter_getFormItemUniqueId path s) as H.
       destruct (getFormItemUniqueId path s) as [[a|e] s1]; exact H. }
  all: apply N.eq_le_incl; symmetry; revert s;
    match goal with
    | |- forall s, idCounter (snd (?m s)) = idCounter s =>
        change (preserves idCounter m)
    end.
  - unfold_store. preserve.
  - unfold_store. preserve.
  - unfold initialize, setAllFormDirty. unfold_store. preserve.
  - unfold reset, initialize, setAllFormDirty. unfold_store. preserve.
  - unfold submit, setAllFormDirty. unfold_store. preserve.
  - unfold arrayPush. unfold_store. preserve.
  - unfold arrayRemove. cbn [forEach]. unfold_store. preserve.
  - unfold subscribe. unfold_store. preserve.
  - unfold unsubscribe. preserve.
  - unfold subscribeForceUpdate. preserve.
  - unfold unsubscribeForceUpdate. preserve.
Qed.

Lemma idCounter_runs ops : forall s,
  (idCounter s <= idCounter (runs call contextValidator ops s))%N.
Proof.
  induction ops as [|o ops IH]; intros s; [cbn; lia|].
  cbn [runs fold_left]. etransitivity; [apply (idCounter_run o s)|apply IH].
Qed.

End Counter.

(** X11. Two identifiers that [getFormItemUniqueId] has newly
    allocated, with any operations of the context in between, are
    different. *)
Theorem getFormItemUniqueId_fresh
    (call : nat -> value -> value)
    (contextValidator : option (value -> value -> value))
    (p q : string) (ops : list operation) (s s1 s3 : store) (id1 id2 : value) :
  truthy (get (formUniqueIds s) p VUndef) = false ->
  getFormItemUniqueId p s = (Ok id1, s1) ->
  truthy (get (formUniqueIds (runs call contextValidator ops s1)) q VUndef) = false ->
  getFormItemUniqueId q (runs call contextValidator ops s1) = (Ok id2, s3) ->
  id1 <> id2.
Proof.
  intros Hp H1 Hq H2.
  rewrite getFormItemUniqueId_new in H1 by exact Hp. cbv zeta in H1.
  destruct (set (formUniqueIds s) p _) as [t1|e]; [|discriminate H1].
  injection H1 as <- <-.
  rewrite getFormItemUniqueId_new in H2 by exact Hq. cbv zeta in H2.
  destruct (set _ q _) as [t2|e]; [|discriminate H2].
  injection H2 as <- _.
  pose proof (idCounter_runs call contextValidator ops
                (with_formUniqueIds t1 (with_idCounter (N.succ (idCounter s)) s))) as Hle.
  cbn [idCounter with_formUniqueIds with_idCounter] in Hle.
  intros Heq. injection Heq as Heq.
  apply pretty_N_inj in Heq. lia.
Qed.

Lemma getFormItemUniqueId_fresh_witness : VStr "formItem_1" <> VStr "formItem_2".
Proof.
  apply (getFormItemUniqueId_fresh example_call None "username" "password"
           [UpdateValue "username" (VStr "ann")] (FormProvider login_form)
           (snd (getFormItemUniqueId "username" (FormProvider login_form)))
           (snd (getFormItemUniqueId "password"
                   (runs example_call None [UpdateValue "username" (VStr "ann")]
                      (snd (getFormItemUniqueId "username" (FormProvider login_form)))))));
    first [apply run_Ok|idtac]; vm_compute; reflexivity.
Defined.

(** ** Decimal numerals *)

Lemma pretty_N_char_value d : (d < 10)%N -> (N_of_ascii (pretty_N_char d) - 48 = d)%N.
Proof.
  intros Hd.
  assert (H : (d = 0 \/ d = 1 \/ d = 2 \/ d = 3 \/ d = 4 \/ d = 5 \/ d = 6 \/ d = 7
              \/ d = 8 \/ d = 9)%N) by lia.
  repeat (destruct H as [->|H]; [reflexivity|]). subst d. reflexivity.
Qed.

Lemma digits_value_pretty_N_go x :
  exists k, forall acc s,
    digits_value acc (pretty_N_go x s) = digits_value (acc * k + x)%N s.
Proof.
  induction (N.lt_wf_0 x) as [x _ IH].
  destruct (N.eq_dec x 0%N) as [->|Hx].
  - exists 1%N. intros acc s. rewrite pretty_N_go_0. f_equal. lia.
  - destruct (IH (x / 10)%N) as [k Hk]; [apply N.div_lt; lia|].
    exists (k * 10)%N. intros acc s.
    rewrite pretty_N_go_step by lia. rewrite Hk. cbn [digits_value].
    rewrite pretty_N_char_value by (apply N.mod_lt; lia).
    f_equal. pose proof (N.div_mod x 10). lia.
Qed.

Lemma pretty_N_go_head x : forall s,
  (0 < x)%N ->
  exists c r, pretty_N_go x s = String c r /\ Ascii.eqb c "0" = false.
Proof.
  induction (N.lt_wf_0 x) as [x _ IH]. intros s Hx.
  rewrite pretty_N_go_step by exact Hx.
  destruct (N.eq_dec (x / 10)%N 0%N) as [Hq|Hq].
  - rewrite Hq, pretty_N_go_0. eexists _, _. split; [reflexivity|].
    assert (Hlt : (x < 10)%N) by (apply N.div_small_iff in Hq; lia).
    rewrite N.mod_small by exact Hlt.
    assert (H : (x = 1 \/ x = 2 \/ x = 3 \/ x = 4 \/ x = 5 \/ x = 6 \/ x = 7
                \/ x = 8 \/ x = 9)%N) by lia.
    repeat (destruct H as [->|H]; [reflexivity|]). subst x. reflexivity.
  - apply IH; [apply N.div_lt; lia|apply N.neq_0_lt_0, Hq].
Qed.

Lemma parse_uint_pretty (n : N) : parse_uint (pretty n) = Some n.
Proof.
  pose proof (pretty_N_digits n) as Hd. unfold parse_uint.
  unfold pretty, pretty_N in *. destruct (decide (n = 0%N)) as [->|Hn]; [reflexivity|].
  destruct (pretty_N_go_head n EmptyString) as (c & r & Hgo & Hc); [lia|].
  destruct (digits_value_pretty_N_go n) as [k Hk].
  specialize (Hk 0%N EmptyString). rewrite Hgo in *. rewrite Hd, Hc. cbn [negb orb andb].
  rewrite Hk. cbn [digits_value]. f_equal; lia.
Qed.

Lemma array_index_pretty (n : N) :
  (n < 4294967295)%N -> array_index (pretty n) = Some n.
Proof.
  intros Hn. unfold array_index. rewrite parse_uint_pretty.
  apply N.ltb_lt in Hn. rewrite Hn. reflexivity.
Qed.

Lemma isIndex_pretty (n : N) : (n < 4294967295)%N -> isIndex (pretty n) = true.
Proof.
  intros Hn. unfold isIndex. rewrite parse_uint_pretty. apply N.ltb_lt. lia.
Qed.

Lemma pretty_nonempty (n : N) : pretty n <> EmptyString.
Proof.
  intros H. pose proof (parse_uint_pretty n) as Hp. rewrite H in Hp. discriminate Hp.
Qed.

(** ** The keys of [`${key}[${n}]`] *)

Lemma append_empty_r (s : string) : s +:+ EmptyString = s.
Proof.
  induction s as [|c s IH]; [reflexivity|].
  change (String c (s +:+ EmptyString) = String c s). rewrite IH. reflexivity.
Qed.

Lemma take_digits_stop d c rest :
  string_forallb is_digit d = true -> is_digit c = false ->
  take_digits (d +:+ String c rest) = (d, String c rest).
Proof.
  intros Hd Hc. induction d as [|a d IH]; simpl.
  - rewrite Hc. reflexivity.
  - cbn [string_forallb] in Hd. apply andb_prop in Hd as [Ha Hd].
    rewrite Ha, (IH Hd). reflexivity.
Qed.

Lemma bracket_number_digits d rest :
  string_forallb is_digit d = true -> d <> EmptyString ->
  bracket_number (d +:+ String "]" rest) = Some (d, rest).
Proof.
  intros Hd Hne. unfold bracket_number.
  destruct d as [|a d]; [congruence|].
  assert (Ha : is_digit a = true)
    by (cbn [string_forallb] in Hd; apply andb_prop in Hd as [Ha _]; exact Ha).
  assert (Hsign : match String a d +:+ String "]" rest with
                  | String "-" r => ("-", r)
                  | _ => (EmptyString, String a d +:+ String "]" rest)
                  end = (EmptyString, String a d +:+ String "]" rest)).
  { simpl. destruct a as [[] [] [] [] [] [] [] []]; try reflexivity; discriminate Ha. }
  rewrite Hsign. rewrite take_digits_stop by (exact Hd || reflexivity).
  cbn [String.eqb]. change (EmptyString +:+ String a d +:+ EmptyString)
    with (String a d +:+ EmptyString). rewrite append_empty_r. reflexivity.
Qed.

Lemma no_special_plain k : reIsPlainProp k = true -> no_special k = true.
Proof.
  unfold reIsPlainProp, no_special.
  induction k as [|c k IH]; cbn [string_forallb]; [reflexivity|].
  intros H. apply andb_prop in H as [Hc Hk]. rewrite (IH Hk), andb_true_r.
  destruct c as [[] [] [] [] [] [] [] []]; first [reflexivity | discriminate Hc].
Qed.

Lemma take_plain_stop k c rest :
  no_special k = true -> is_special c = true ->
  take_plain (k +:+ String c rest) = (k, String c rest).
Proof.
  unfold no_special. intros Hk Hc. induction k as [|a k IH]; simpl.
  - rewrite Hc. reflexivity.
  - cbn [string_forallb] in Hk. apply andb_prop in Hk as [Ha Hk].
    apply negb_true_iff in Ha. rewrite Ha, (IH Hk). reflexivity.
Qed.

Lemma scan_empty fuel : scan fuel EmptyString = [].
Proof. destruct fuel; reflexivity. Qed.

(** The keys of [`${key}[${n}]`] are the key and the numeral. *)
Lemma scan_item k n fuel :
  no_special k = true -> k <> EmptyString ->
  scan (S (S fuel)) (item_path k n) = [k; pretty n].
Proof.
  intros Hk Hne. unfold item_path.
  destruct k as [|a k]; [congruence|].
  assert (Ha : is_special a = false).
  { unfold no_special in Hk. cbn [string_forallb] in Hk.
    apply andb_prop in Hk as [Ha _]. apply negb_true_iff in Ha. exact Ha. }
  change (scan (S (S fuel)) (String a k +:+ "[" +:+ pretty n +:+ "]"))
    with (scan (S (S fuel)) (String a (k +:+ "[" +:+ pretty n +:+ "]"))).
  cbn [scan]. rewrite Ha. cbn [negb].
  change (String a (k +:+ "[" +:+ pretty n +:+ "]"))
    with (String a k +:+ String "[" (pretty n +:+ "]")).
  rewrite take_plain_stop by (exact Hk || reflexivity).
  cbn [is_special N_of_ascii]. cbn [negb Ascii.eqb Bool.eqb].
  unfold bracket_token.
  rewrite bracket_number_digits by (apply pretty_N_digits || apply pretty_nonempty).
  rewrite scan_empty. reflexivity.
Qed.

Lemma string_forallb_stop p a c b :
  p c = false -> string_forallb p (a +:+ String c b) = false.
Proof.
  intros Hc. rewrite string_forallb_append. cbn [string_forallb]. rewrite Hc.
  apply andb_false_r.
Qed.

Lemma reIsDeepProp_append a b : reIsDeepProp b = true -> reIsDeepProp (a +:+ b) = true.
Proof.
  intros Hb. induction a as [|c a IH]; [exact Hb|].
  change (reIsDeepProp (String c (a +:+ b)) = true). cbn [reIsDeepProp].
  rewrite IH. apply orb_true_r.
Qed.

Lemma simple_bracket_digits d rest :
  string_forallb is_digit d = true -> simple_bracket (d +:+ String "]" rest) = true.
Proof.
  induction d as [|c d IH]; [reflexivity|].
  cbn [string_forallb]. intros H. apply andb_prop in H as [Hc Hd].
  change (simple_bracket (String c (d +:+ String "]" rest)) = true).
  cbn [simple_bracket]. rewrite (IH Hd).
  destruct c as [[] [] [] [] [] [] [] []]; first [reflexivity | discriminate Hc].
Qed.

Lemma item_path_not_plain k n : reIsPlainProp (item_path k n) = false.
Proof. unfold item_path, reIsPlainProp. apply string_forallb_stop. reflexivity. Qed.

Lemma item_path_deep k n : reIsDeepProp (item_path k n) = true.
Proof.
  unfold item_path. apply reIsDeepProp_append.
  change (reIsDeepProp (String "[" (pretty n +:+ "]")) = true).
  cbn [reIsDeepProp]. rewrite simple_bracket_digits by apply pretty_N_digits.
  reflexivity.
Qed.

Lemma stringToPath_item k n :
  no_special k = true -> k <> EmptyString ->
  stringToPath (item_path k n) = [k; pretty n].
Proof.
  intros Hk Hne. unfold stringToPath.
  assert (Hlen : exists fuel, String.length (item_path k n) = S (S fuel)).
  { unfold item_path. destruct k as [|a k]; [congruence|].
    change (String a k +:+ "[" +:+ pretty n +:+ "]")
      with (String a (k +:+ String "[" (pretty n +:+ "]"))).
    cbn [String.length]. rewrite length_append. cbn [String.length].
    exists (String.length k + String.length (pretty n +:+ "]")). lia. }
  destruct Hlen as [fuel Hlen]. rewrite Hlen, scan_item by assumption.
  unfold item_path. destruct k as [|a k]; [congruence|].
  assert (Ha : is_special a = false).
  { unfold no_special in Hk. cbn [string_forallb] in Hk.
    apply andb_prop in Hk as [Ha _]. apply negb_true_iff in Ha. exact Ha. }
  change (String a k +:+ "[" +:+ pretty n +:+ "]")
    with (String a (k +:+ "[" +:+ pretty n +:+ "]")).
  destruct a as [[] [] [] [] [] [] [] []]; first [reflexivity | discriminate Ha].
Qed.

Lemma castPath_item k n o :
  no_special k = true -> k <> EmptyString ->
  has_prop o (item_path k n) = false ->
  castPath (item_path k n) o = [k; pretty n].
Proof.
  intros Hk Hne Hhas. unfold castPath, isKey.
  rewrite item_path_not_plain, item_path_deep, Hhas, andb_false_r.
  apply stringToPath_item; assumption.
Qed.

Lemma unsafe_key_digits d : string_forallb is_digit d = true -> unsafe_key d = false.
Proof.
  destruct d as [|c d]; [reflexivity|]. cbn [string_forallb]. intros H.
  apply andb_prop in H as [Hc _]. unfold unsafe_key.
  destruct c as [[] [] [] [] [] [] [] []]; first [reflexivity | discriminate Hc].
Qed.

Lemma arr_put_end v xs :
  arr_put (N.of_nat (List.length xs)) v xs = xs ++ [Some v].
Proof.
  unfold arr_put. rewrite Nat2N.id, Nat.ltb_irrefl, Nat.sub_diag. reflexivity.
Qed.

Lemma flat_key_inv k :
  flat_key k = true -> reIsPlainProp k = true /\ no_special k = true /\ k <> EmptyString.
Proof.
  unfold flat_key. intros H. apply andb_prop in H as [Hp Hne].
  split; [exact Hp|]. split; [apply no_special_plain, Hp|].
  intros ->. discriminate Hne.
Qed.

(** Writing one element past the end of the list that a key holds. *)
Lemma set_item_end kvs k xs v :
  flat_key k = true -> unsafe_key k = false ->
  assoc k kvs = Some (VArr xs) ->
  (N.of_nat (List.length xs) < 4294967295)%N ->
  assoc (item_path k (N.of_nat (List.length xs))) kvs = None ->
  set (VObj kvs) (item_path k (N.of_nat (List.length xs))) v
  = Ok (VObj (obj_put k (VArr (xs ++ [Some v])) kvs)).
Proof.
  intros Hk Hsafe Hxs Hlen Hnone.
  destruct (flat_key_inv k Hk) as (_ & Hns & Hne).
  unfold set. cbn [is_nullish isObject negb].
  rewrite castPath_item by (try assumption; cbn [has_prop]; rewrite Hnone; reflexivity).
  assert (Hin : assignValue (VArr xs) (pretty (N.of_nat (List.length xs))) v
                = Ok (VArr (xs ++ [Some v]))).
  { unfold assignValue.
    rewrite unsafe_key_digits by apply pretty_N_digits.
    rewrite array_index_pretty by exact Hlen. rewrite arr_put_end. reflexivity. }
  cbn [baseSet_loop prop]. rewrite Hxs. cbn [default isObject]. unfold id.
  cbn [isObject]. rewrite Hin.
  cbn [outcome_bind]. unfold assignValue. rewrite Hsafe. reflexivity.
Qed.

(** ** [arrayPush] *)

Section ArrayPush.
Variable call : nat -> value -> value.
Variable contextValidator : option (value -> value -> value).

Lemma arrayPush_run path v s xs :
  truthy v = true ->
  get (formValue s) path VUndef = VArr xs ->
  arrayPush call contextValidator path v s
  = (setFormValue call contextValidator (item_path path (N.of_nat (List.length xs))) v ;;
     forceUpdatePath path) s.
Proof.
  intros Hv Hget. unfold arrayPush.
  assert (Hsame : match v with VUndef => VNull | _ => v end = v)
    by (destruct v; try reflexivity; discriminate Hv).
  rewrite Hsame. unfold bind at 1, gets at 1. cbv beta iota.
  rewrite Hget, Hv. reflexivity.
Qed.

End ArrayPush.



(** ** The registry as [get] sees it *)

Lemma assoc_registry k c :
  assoc k (map (fun e => (fst e, VArr (map (fun f => Some (VFun f)) (snd e)))) c)
  = option_map validator_list (assoc k c).
Proof.
  induction c as [|[p l] c IH]; [reflexivity|].
  cbn [map assoc fst snd]. destruct (String.eqb k p); [reflexivity|exact IH].
Qed.

Lemma castPath_own o p : is_nullish o = false -> has_prop o p = true -> castPath p o = [p].
Proof.
  intros Hn Hh. unfold castPath, isKey. rewrite Hn, Hh. cbn [negb andb].
  rewrite !orb_true_r. reflexivity.
Qed.

Lemma get_registered c path fs d :
  assoc path c = Some fs -> get (registry_object c) path d = validator_list fs.
Proof.
  intros H. unfold get, baseGet, registry_object. cbn [is_nullish].
  rewrite castPath_own by (try reflexivity; cbn [has_prop]; rewrite assoc_registry, H;
                           reflexivity).
  cbn [walk is_nullish prop]. rewrite assoc_registry, H. reflexivity.
Qed.

Lemma get_unregistered_plain c path d :
  reIsPlainProp path = true -> assoc path c = None ->
  get (registry_object c) path d = d.
Proof.
  intros Hp H. unfold registry_object. rewrite get_object_plain by exact Hp.
  cbn [prop]. rewrite assoc_registry, H. reflexivity.
Qed.

Lemma reduce_validators_list (call : nat -> value -> value) fs v : forall acc,
  reduce_validators call (map (fun f => Some (VFun f)) fs) v acc
  = Ok (fold_left (fun acc f => if truthy acc then acc else call f v) fs acc).
Proof.
  induction fs as [|f fs IH]; intros acc; [reflexivity|].
  cbn [map reduce_validators fold_left]. destruct (truthy acc); apply IH.
Qed.

Lemma fold_truthy (call : nat -> value -> value) fs v : forall acc,
  truthy acc = true ->
  fold_left (fun acc f => if truthy acc then acc else call f v) fs acc = acc.
Proof.
  induction fs as [|f fs IH]; intros acc Hacc; [reflexivity|].
  cbn [fold_left]. rewrite Hacc. apply IH, Hacc.
Qed.

Lemma fold_first (call : nat -> value -> value) l1 f l2 v : forall acc,
  truthy acc = false ->
  (forall g, In g l1 -> truthy (call g v) = false) ->
  truthy (call f v) = true ->
  fold_left (fun acc f => if truthy acc then acc else call f v) (l1 ++ f :: l2) acc
  = call f v.
Proof.
  induction l1 as [|g l1 IH]; intros acc Hacc Hl1 Hf.
  - cbn [app fold_left]. rewrite Hacc. apply fold_truthy, Hf.
  - cbn [app fold_left]. rewrite Hacc. apply IH.
    + apply Hl1. left. reflexivity.
    + intros g' Hg'. apply Hl1. right. exact Hg'.
    + exact Hf.
Qed.

Lemma fold_none (call : nat -> value -> value) fs v : forall acc,
  truthy acc = false ->
  (forall g, In g fs -> truthy (call g v) = false) ->
  truthy (fold_left (fun acc f => if truthy acc then acc else call f v) fs acc) = false.
Proof.
  induction fs as [|g fs IH]; intros acc Hacc Hfs; [exact Hacc|].
  cbn [fold_left]. rewrite Hacc. apply IH.
  - apply Hfs. left. reflexivity.
  - intros g' Hg'. apply Hfs. right. exact Hg'.
Qed.

(** [get] after [set] at the same path, with the default [undefined]. *)
Lemma get_after_set_any o p v t :
  set o p v = Ok t -> isObject o = true -> castPath p o <> [] ->
  get t p VUndef = v.
Proof.
  intros Hset Ho Hsegs.
  pose proof (castPath_after_set _ _ _ _ Hset Ho) as Hcast.
  unfold set in Hset. destruct (is_nullish o) eqn:En; [destruct o; discriminate|].
  rewrite Ho in Hset. cbn [negb] in Hset.
  apply walk_baseSet_loop in Hset as [Hw Hn]; [|exact Hsegs].
  unfold get, baseGet. rewrite Hn, Hcast.
  destruct (castPath p o) as [|k rest]; [congruence|].
  rewrite Hw. destruct v; reflexivity.
Qed.

Lemma truthy_get_default o p :
  truthy (get o p (VBool false)) = truthy (get o p VUndef).
Proof.
  rewrite <- (get_undefined_default o p (VBool false)).
  destruct (get o p VUndef); reflexivity.
Qed.

Section LocalValidators.
Variable call : nat -> value -> value.

(** [runLocalValidators] for a path with registered validators. *)
Lemma runLocalValidators_registered path v s fs :
  assoc path (localValidators s) = Some fs ->
  runLocalValidators call path v s = setFormError path (first_message call fs v) s.
Proof.
  intros H. unfold runLocalValidators. unfold bind at 1, gets at 1. cbv beta iota.
  rewrite (get_registered _ _ _ _ H). unfold validator_list.
  unfold bind at 1, lift at 1. rewrite reduce_validators_list. reflexivity.
Qed.

Lemma setFormValue_None_Ok_inv path v s s' :
  setFormValue call None path v s = (Ok tt, s') ->
  exists s1 s2,
    runLocalValidators call path v s1 = (Ok tt, s2)
    /\ localValidators s1 = localValidators s
    /\ formError s1 = formError s
    /\ formError s' = formError s2.
Proof.
  unfold setFormValue. intros H.
  apply bind_Ok_inv in H as (o & sa & Ha & H). unfold gets in Ha. injection Ha as <- <-.
  apply bind_Ok_inv in H as (t & sb & Hb & H). unfold lift in Hb. injection Hb as Hset <-.
  apply bind_Ok_inv in H as ([] & sc & Hc & H). unfold modify in Hc. injection Hc as <-.
  apply bind_Ok_inv in H as ([] & s2 & Hlocal & H).
  exists (with_formValue t s), s2. split; [exact Hlocal|].
  split; [reflexivity|]. split; [reflexivity|].
  assert (Hp : preserves formError
                 (runContextValidator None path ;; trackInvalidPath path ;;
                  updateFormValid ;; triggerForceUpdates path))
    by (unfold_store; preserve).
  specialize (Hp s2). rewrite H in Hp. exact Hp.
Qed.

End LocalValidators.

Lemma setFormValue_Ok_valid call contextValidator path v s s' :
  setFormValue call contextValidator path v s = (Ok tt, s') -> validity_invariant s'.
Proof.
  unfold setFormValue. intros H.
  apply bind_Ok_inv in H as (o & sa & _ & H).
  apply bind_Ok_inv in H as (t & sb & _ & H).
  apply bind_Ok_inv in H as ([] & sc & _ & H).
  apply bind_Ok_inv in H as ([] & sd & _ & H).
  apply bind_Ok_inv in H as ([] & se & _ & H).
  pose proof (establishes_validity path se) as Hv. rewrite H in Hv. apply Hv. exact I.
Qed.

Lemma invalid_not_valid s path :
  validity_invariant s -> path ∈ invalidPathSet s -> getFormValid s = false.
Proof.
  intros Hinv Hin. destruct (getFormValid s) eqn:E; [|reflexivity].
  apply Hinv in E. rewrite E in Hin. exfalso. exact (not_elem_of_empty _ Hin).
Qed.

(** X13. Without a context validator, after [setValue(path, v)] has
    returned on a non-empty path with registered validators whose error can
    be written:
    if every validator returns a falsy message the error of the path is falsy
    and the path is not invalid; otherwise the error of the path is the
    message of the first validator, in the order of registration, whose
    message is truthy, the path is invalid and the form is not valid. *)
Theorem first_failing_validator_wins
    (call : nat -> value -> value)
    (path : string) (v : value) (s s' : store) (fs : list nat) :
  path <> EmptyString ->
  assoc path (localValidators s) = Some fs ->
  addressable path (formError s) ->
  setFormValue call None path v s = (Ok tt, s') ->
  ((forall g, In g fs -> truthy (call g v) = false) ->
   truthy (getFormError path s') = false
   /\ path ∉ invalidPathSet s')
  /\ (forall l1 f l2,
        fs = l1 ++ f :: l2 ->
        (forall g, In g l1 -> truthy (call g v) = false) ->
        truthy (call f v) = true ->
        getFormError path s' = call f v
        /\ path ∈ invalidPathSet s'
        /\ getFormValid s' = false).
Proof.
  intros Hpath Hreg [Hobj Hsegs] H.
  pose proof (setFormValue_tracks_path call None path v s s' H) as Htrack.
  pose proof (setFormValue_Ok_valid call None path v s s' H) as Hvalid.
  apply setFormValue_None_Ok_inv in H as (s1 & s2 & Hlocal & Hc1 & He1 & He').
  rewrite (runLocalValidators_registered call path v s1 fs) in Hlocal
    by (rewrite Hc1; exact Hreg).
  unfold setFormError in Hlocal.
  apply bind_Ok_inv in Hlocal as (e & sa & Ha & Hlocal).
  unfold gets in Ha. injection Ha as <- <-.
  apply bind_Ok_inv in Hlocal as (te & sb & Hb & Hlocal).
  unfold lift in Hb. injection Hb as Hset <-.
  unfold modify in Hlocal. injection Hlocal as <-.
  cbn [formError with_formError] in He'. rewrite He1 in Hset.
  pose proof (get_after_set_any _ _ _ _ Hset Hobj Hsegs) as Hget.
  rewrite <- He' in Hget.
  assert (Herr : truthy (getFormError path s') = truthy (first_message call fs v)).
  { unfold getFormError. apply String.eqb_neq in Hpath. rewrite Hpath.
    rewrite truthy_get_default, Hget. reflexivity. }
  split.
  - intros Hnone.
    assert (Hm : truthy (first_message call fs v) = false)
      by (apply fold_none; [reflexivity|exact Hnone]).
    split; [rewrite Herr; exact Hm|].
    intros Hin. apply Htrack in Hin. rewrite Hget, Hm in Hin. discriminate Hin.
  - intros l1 f l2 -> Hl1 Hf.
    assert (Hm : first_message call (l1 ++ f :: l2) v = call f v)
      by (apply fold_first; [reflexivity|exact Hl1|exact Hf]).
    assert (Hin : path ∈ invalidPathSet s')
      by (apply Htrack; rewrite Hget, Hm; exact Hf).
    split; [|split; [exact Hin|exact (invalid_not_valid s' path Hvalid Hin)]].
    unfold getFormError. apply String.eqb_neq in Hpath. rewrite Hpath.
    rewrite <- (get_undefined_default (formError s') path (VBool false)), Hget, Hm.
    destruct (call f v); try reflexivity. discriminate Hf.
Qed.

Lemma first_failing_validator_wins_witness :
  getFormError "username"
    (snd (setFormValue example_call None "username" (VStr EmptyString) login_mounted))
  = VStr "required"
  /\ getFormValid
       (snd (setFormValue example_call None "username" (VStr EmptyString) login_mounted))
     = false.
Proof.
  destruct (first_failing_validator_wins example_call "username" (VStr EmptyString)
              login_mounted
              (snd (setFormValue example_call None "username" (VStr EmptyString)
                      login_mounted)) [0])
    as [_ H].
  - discriminate.
  - vm_compute. reflexivity.
  - split; [reflexivity|vm_compute; discriminate].
  - apply run_Ok. vm_compute. reflexivity.
  - destruct (H [] 0 []) as (Herr & _ & Hvalid).
    + reflexivity.
    + intros g [].
    + reflexivity.
    + split; [exact Herr|exact Hvalid].
Defined.

(** ** A validator on the path of a list *)

Lemma nth_elem_validator_list fs i f :
  nth_error fs i = Some f ->
  nth_elem (N.of_nat i) (map (fun f => Some (VFun f)) fs) = VFun f.
Proof.
  intros H. unfold nth_elem. rewrite Nat2N.id, nth_error_map, H. reflexivity.
Qed.

Lemma get_registered_item c k fs i f d :
  flat_key k = true ->
  assoc k c = Some fs ->
  nth_error fs i = Some f ->
  (N.of_nat i < 4294967295)%N ->
  assoc (item_path k (N.of_nat i)) c = None ->
  get (registry_object c) (item_path k (N.of_nat i)) d = VFun f.
Proof.
  intros Hk Hfs Hf Hi Hnone.
  destruct (flat_key_inv k Hk) as (_ & Hns & Hne).
  unfold get, baseGet, registry_object. cbn [is_nullish].
  rewrite castPath_item
    by (try assumption; cbn [has_prop]; rewrite assoc_registry, Hnone; reflexivity).
  cbn [walk is_nullish prop]. rewrite assoc_registry, Hfs.
  cbn [option_map default]. unfold id, validator_list. cbn [is_nullish prop].
  rewrite array_index_pretty by exact Hi.
  rewrite (nth_elem_validator_list _ _ _ Hf). reflexivity.
Qed.

(** X14. When validators are registered on the path of a list and none
    on the item [i], with [i] below the number of those validators,
    [setValue] on the item [i], where the value can be written, writes it
    and then throws a [TypeError]: the lookup of the validators of the item
    finds the validator [i] of the list, a function, and not a list of
    validators. [arrayPush] with a truthy value on that list, when it has
    [i] items, does not return either. *)
Theorem validator_on_list_breaks_items
    (call : nat -> value -> value)
    (contextValidator : option (value -> value -> value))
    (k : string) (i : nat) (f : nat) (fs : list nat) (v : value) (s : store) :
  flat_key k = true ->
  assoc k (localValidators s) = Some fs ->
  nth_error fs i = Some f ->
  (N.of_nat i < 4294967295)%N ->
  assoc (item_path k (N.of_nat i)) (localValidators s) = None ->
  (forall t, set (formValue s) (item_path k (N.of_nat i)) v = Ok t ->
     setFormValue call contextValidator (item_path k (N.of_nat i)) v s
     = (Throw TypeError, with_formValue t s))
  /\ (forall xs, get (formValue s) k VUndef = VArr xs -> List.length xs = i ->
      truthy v = true ->
      fst (arrayPush call contextValidator k v s) <> Ok tt).
Proof.
  intros Hk Hfs Hf Hi Hnone.
  assert (Hset : forall t, set (formValue s) (item_path k (N.of_nat i)) v = Ok t ->
            setFormValue call contextValidator (item_path k (N.of_nat i)) v s
            = (Throw TypeError, with_formValue t s)).
  { intros t Ht. unfold setFormValue.
    unfold bind at 1, gets at 1. cbv beta iota.
    unfold bind at 1, lift at 1. rewrite Ht. cbv beta iota.
    unfold bind at 1, modify at 1. cbv beta iota.
    unfold bind at 1. unfold runLocalValidators.
    unfold bind at 1, gets at 1. cbv beta iota.
    cbn [localValidators with_formValue].
    rewrite (get_registered_item _ k fs i f _ Hk Hfs Hf Hi Hnone). reflexivity. }
  split; [exact Hset|].
  intros xs Hxs Hlen Hv.
  rewrite (arrayPush_run call contextValidator k v s xs Hv Hxs), Hlen.
  unfold bind.
  destruct (set (formValue s) (item_path k (N.of_nat i)) v) as [t|e] eqn:Ht.
  - rewrite (Hset t eq_refl). discriminate.
  - unfold setFormValue. unfold bind at 1, gets at 1. cbv beta iota.
    unfold bind at 1, lift at 1. rewrite Ht. discriminate.
Qed.

Lemma validator_on_list_breaks_items_witness :
  fst (arrayPush example_call None "items" (VStr "a") watched_list) <> Ok tt.
Proof.
  destruct (validator_on_list_breaks_items example_call None "items" 0 0 [0] (VStr "a")
              watched_list) as [_ H];
    try (vm_compute; reflexivity).
  apply (H []); vm_compute; reflexivity.
Defined.

(** ** Fields do not interfere *)

Lemma set_get_same o p d t :
  d <> VUndef -> set o p (get o p d) = Ok t -> get t p d = get o p d.
Proof.
  intros Hd Hset.
  assert (Hv : get o p d <> VUndef).
  { unfold get. destruct (if is_nullish o then VUndef else baseGet o p); congruence. }
  destruct (isObject o) eqn:Ho.
  - destruct (castPath p o) as [|k rest] eqn:Hsegs.
    + unfold set in Hset. rewrite Ho, Hsegs in Hset.
      destruct (is_nullish o); cbn in Hset; injection Hset as <-; reflexivity.
    + apply (get_after_set _ _ _ _ _ Hset Ho); [rewrite Hsegs; discriminate|exact Hv].
  - unfold set in Hset. rewrite Ho in Hset.
    destruct (is_nullish o); cbn in Hset; injection Hset as <-; reflexivity.
Qed.

Section Frame.
Variable call : nat -> value -> value.
Variable contextValidator : option (value -> value -> value).

Lemma preserves_formError_quiet path :
  quiet contextValidator ->
  preserves formError (after_validation contextValidator path).
Proof.
  intros Hq. unfold after_validation.
  apply preserves_bind.
  - intros s. destruct contextValidator as [validate|]; [|reflexivity].
    rewrite runContextValidator_run, (Hq _ _). reflexivity.
  - intros _. unfold_store. preserve.
Qed.

(** [runLocalValidators] throws and leaves the store, or writes one message. *)
Lemma runLocalValidators_cases path v s :
  (exists e, runLocalValidators call path v s = (Throw e, s))
  \/ (exists msg te,
        set (formError s) path msg = Ok te
        /\ runLocalValidators call path v s = (Ok tt, with_formError te s)).
Proof.
  unfold runLocalValidators, setFormError, bind, gets, lift, modify, throw.
  destruct (get (registry_object (localValidators s)) path (VArr []));
    try (left; eexists; reflexivity).
  destruct (reduce_validators call elems v (VStr EmptyString)) as [msg|e];
    [|left; eexists; reflexivity].
  destruct (set (formError s) path msg) as [te|e] eqn:Hset;
    [|left; eexists; reflexivity].
  right. exists msg, te. split; [exact Hset|reflexivity].
Qed.

(** The error tree after the local validators of a plain key. *)
Lemma runLocalValidators_plain k v s evs :
  reIsPlainProp k = true -> formError s = VObj evs ->
  formError (snd (runLocalValidators call k v s)) = VObj evs
  \/ exists msg, formError (snd (runLocalValidators call k v s)) = VObj (obj_put k msg evs).
Proof.
  intros Hk He.
  destruct (runLocalValidators_cases k v s) as [[e ->]|(msg & te & Hset & ->)].
  - left. exact He.
  - right. exists msg. rewrite He in Hset. cbn.
    exact (set_object_plain _ _ _ _ Hk Hset).
Qed.

Lemma write_and_validate_run path v s :
  write_and_validate call path v s
  = match set (formValue s) path v with
    | Ok t => runLocalValidators call path v (with_formValue t s)
    | Throw e => (Throw e, s)
    end.
Proof.
  unfold write_and_validate. unfold bind at 1, gets at 1. cbv beta iota.
  unfold bind at 1, lift at 1.
  destruct (set (formValue s) path v) as [t|e]; reflexivity.
Qed.

Lemma write_and_validate_error k v s evs :
  reIsPlainProp k = true -> formError s = VObj evs ->
  formError (snd (write_and_validate call k v s)) = VObj evs
  \/ exists msg,
       formError (snd (write_and_validate call k v s)) = VObj (obj_put k msg evs).
Proof.
  intros Hk He. rewrite write_and_validate_run.
  destruct (set (formValue s) k v) as [t|e]; [|left; exact He].
  apply runLocalValidators_plain; assumption.
Qed.

End Frame.

Lemma get_flat_other kvs k q x d :
  reIsPlainProp q = true -> q <> k ->
  get (VObj (obj_put k x kvs)) q d = get (VObj kvs) q d.
Proof.
  intros Hq Hne. rewrite !get_object_plain by exact Hq. cbn [prop].
  rewrite assoc_obj_put_ne by exact Hne. reflexivity.
Qed.

(** X15. On a store whose value tree and error tree are objects, and
    with a context validator that reports nothing (or with none), a call
    of [setValue] on a flat key, inside the modelled fragment, changes
    neither the value, the dirtiness, the error nor the membership in the
    set of invalid paths of another flat key, whether it returns or
    throws. *)
Theorem fields_do_not_interfere
    (call : nat -> value -> value)
    (contextValidator : option (value -> value -> value))
    (k q : string) (v : value) (s : store) :
  flat_key k = true -> flat_key q = true -> q <> k ->
  (exists kvs, formValue s = VObj kvs) ->
  (exists evs, formError s = VObj evs) ->
  quiet contextValidator ->
  in_model (setFormValue call contextValidator k v s) ->
  getFormValues q (snd (setFormValue call contextValidator k v s)) = getFormValues q s
  /\ getFormDirty q (snd (setFormValue call contextValidator k v s)) = getFormDirty q s
  /\ getFormError q (snd (setFormValue call contextValidator k v s)) = getFormError q s
  /\ (q ∈ invalidPathSet (snd (setFormValue call contextValidator k v s))
      <-> q ∈ invalidPathSet s).
Proof.
  intros Hk Hq Hne [kvs Hroot] [evs Herr] Hquiet _.
  destruct (flat_key_inv k Hk) as (Hkp & _ & _).
  destruct (flat_key_inv q Hq) as (Hqp & _ & Hqne).
  apply String.eqb_neq in Hqne.
  split; [|split; [|split]].
  - unfold getFormValues. rewrite Hqne.
    destruct (set (formValue s) k v) as [t|e] eqn:Hset.
    + rewrite (setFormValue_formValue call contextValidator k v s t Hset).
      rewrite Hroot in Hset. apply set_object_plain in Hset; [|exact Hkp]. subst t.
      rewrite Hroot. apply get_flat_other; assumption.
    + rewrite (setFormValue_formValue_thrown call contextValidator k v s e Hset).
      reflexivity.
  - unfold getFormDirty.
    rewrite (preserves_formDirty_setFormValue call contextValidator k v s). reflexivity.
  - unfold getFormError. rewrite Hqne. rewrite setFormValue_halves.
    pose proof (write_and_validate_error call k v s evs Hkp Herr) as Hw.
    pose proof (preserves_formError_quiet contextValidator k Hquiet) as Ha.
    unfold bind.
    destruct (write_and_validate call k v s) as [[[]|e] s1]; cbn [fst snd] in *.
    + rewrite Ha. rewrite Herr.
      destruct Hw as [->|[msg ->]]; [reflexivity|apply get_flat_other; assumption].
    + rewrite Herr.
      destruct Hw as [->|[msg ->]]; [reflexivity|apply get_flat_other; assumption].
  - apply (elsewhere_setFormValue call contextValidator k v s q Hne).
Qed.

Lemma fields_do_not_interfere_witness :
  getFormValues "password"
    (snd (setFormValue example_call None "username" (VStr "ann") (FormProvider login_form)))
  = VStr "123".
Proof.
  destruct (fields_do_not_interfere example_call None "username" "password" (VStr "ann")
              (FormProvider login_form)) as (H & _).
  - reflexivity.
  - reflexivity.
  - discriminate.
  - eexists. reflexivity.
  - eexists. reflexivity.
  - exact I.
  - vm_compute. exact I.
  - etransitivity; [exact H|vm_compute; reflexivity].
Defined.

(** ** The messages of the context validator *)

(** The loop of [setFormValue] over the keys of a flat error object. *)
Lemma merge_flat path errorObject keys : forall s s',
  forallb flat_key keys = true ->
  (exists evs, formError s = VObj evs) ->
  forEach keys (mergeErrorPath path errorObject) s = (Ok tt, s') ->
  (exists evs', formError s' = VObj evs')
  /\ (forall q, In q keys -> prop (formError s') q = get errorObject q VUndef)
  /\ (forall q, ~ In q keys -> prop (formError s') q = prop (formError s) q).
Proof.
  induction keys as [|k keys IH]; intros s s' Hkeys Hroot H.
  - cbn in H. injection H as <-. split; [exact Hroot|].
    split; [intros q []|reflexivity].
  - cbn [forallb] in Hkeys. apply andb_prop in Hkeys as [Hk Hkeys].
    apply andb_prop in Hk as [Hk _].
    cbn [forEach] in H. apply bind_Ok_inv in H as ([] & s1 & H1 & H).
    unfold mergeErrorPath in H1.
    apply bind_Ok_inv in H1 as ([] & sa & Ha & H1).
    unfold modify in Ha. injection Ha as <-.
    unfold setFormError in H1.
    apply bind_Ok_inv in H1 as (e & sb & Hb & H1).
    unfold gets in Hb. injection Hb as <- <-.
    apply bind_Ok_inv in H1 as (t & sc & Hc & H1).
    unfold lift in Hc. injection Hc as Hset <-.
    unfold modify in H1. injection H1 as <-.
    cbn [formError with_invalidPathSet] in Hset.
    destruct Hroot as [evs Hroot]. rewrite Hroot in Hset.
    apply set_object_plain in Hset; [|exact Hk]. subst t.
    match type of H with
    | forEach _ _ ?s1 = _ =>
        assert (Hroot1 : exists evs1, formError s1 = VObj evs1)
          by (eexists; reflexivity);
        destruct (IH s1 s' Hkeys Hroot1 H) as (Hroot' & Hin & Hout)
    end.
    cbn [formError with_formError with_invalidPathSet] in *.
    split; [exact Hroot'|]. split.
    + intros q [<-|Hq].
      * destruct (in_dec string_dec k keys) as [Hmem|Hmem]; [exact (Hin k Hmem)|].
        rewrite (Hout k Hmem). cbn [prop]. rewrite assoc_obj_put_eq. reflexivity.
      * exact (Hin q Hq).
    + intros q Hq.
      assert (Hne : q <> k) by (intros ->; apply Hq; left; reflexivity).
      rewrite Hout by (intros Hmem; apply Hq; right; exact Hmem).
      rewrite Hroot. cbn [prop]. rewrite assoc_obj_put_ne by exact Hne. reflexivity.
Qed.

Lemma getFormError_flat_key q s evs :
  flat_key q = true -> formError s = VObj evs ->
  getFormError q s
  = match prop (VObj evs) q with VUndef => VBool false | _ => prop (VObj evs) q end.
Proof.
  intros Hq He. destruct (flat_key_inv q Hq) as (Hplain & _ & Hne).
  unfold getFormError. rewrite (proj2 (String.eqb_neq q EmptyString) Hne), He.
  apply get_object_plain, Hplain.
Qed.

(** The local validators of a flat key leave the first message of the
    validators registered for it. *)
Lemma runLocalValidators_flat (call : nat -> value -> value) k v s :
  flat_key k = true ->
  runLocalValidators call k v s
  = setFormError k (first_message call (validators_at s k) v) s.
Proof.
  intros Hk. destruct (flat_key_inv k Hk) as (Hplain & _ & _).
  unfold validators_at, validators_in.
  destruct (assoc k (localValidators s)) as [fs|] eqn:E.
  - exact (runLocalValidators_registered call k v s fs E).
  - unfold runLocalValidators. unfold bind at 1, gets at 1. cbv beta iota.
    rewrite (get_unregistered_plain _ _ _ Hplain E). reflexivity.
Qed.

Lemma setFormError_Ok_inv path v s s' :
  setFormError path v s = (Ok tt, s') ->
  exists t, set (formError s) path v = Ok t /\ s' = with_formError t s.
Proof.
  unfold setFormError, bind, gets, lift, modify.
  destruct (set (formError s) path v) as [t|e]; [|discriminate].
  intros H. injection H as <-. exists t. split; reflexivity.
Qed.

(** X16. With a context validator that returns flat trees, after
    [setValue] on a flat key has returned: the validator was called on the
    new value tree and on the error tree in which the key holds the message
    of its own validators, the first truthy result among them or else the
    empty string. Every key of the tree that the validator returned shows
    the message of that tree as its error, the other flat keys show the
    error they showed before the call, and the key that was set, if the
    validator did not report it, shows the message of its own validators. *)
Theorem context_errors_merge
    (call : nat -> value -> value) (validate : value -> value -> value)
    (k : string) (v : value) (s s' : store) (evs : list (string * value)) :
  flat_key k = true ->
  formError s = VObj evs ->
  (forall values errors, flat_form (validate values errors) = true) ->
  setFormValue call (Some validate) k v s = (Ok tt, s') ->
  let message := first_message call (validators_at s k) v in
  let errorObject := validate (formValue s') (VObj (obj_put k message evs)) in
  (forall q, In q (object_keys errorObject) ->
     getFormError q s' = get errorObject q (VBool false))
  /\ (forall q, flat_key q = true -> q <> k -> ~ In q (object_keys errorObject) ->
        getFormError q s' = getFormError q s)
  /\ (~ In k (object_keys errorObject) ->
      getFormError k s' = match message with VUndef => VBool false | _ => message end).
Proof.
  intros Hk Herr Hflat H message.
  destruct (flat_key_inv k Hk) as (Hplain & _ & _).
  pose proof (setFormValue_Ok_inv call (Some validate) k v s s' H) as (tv & Hsetv & Hfv).
  rewrite setFormValue_halves in H.
  apply bind_Ok_inv in H as ([] & s1 & Hw & Ha).
  rewrite write_and_validate_run, Hsetv in Hw.
  rewrite (runLocalValidators_flat call k v _ Hk) in Hw.
  change (validators_at (with_formValue tv s) k) with (validators_at s k) in Hw.
  fold message in Hw.
  apply setFormError_Ok_inv in Hw as (te & Hsete & ->).
  cbn [formError with_formValue] in Hsete. rewrite Herr in Hsete.
  apply set_object_plain in Hsete; [|exact Hplain]. subst te.
  cbv zeta.
  unfold after_validation in Ha.
  apply bind_Ok_inv in Ha as ([] & s2 & Hctx & Hrest).
  rewrite runContextValidator_run in Hctx.
  cbn [formValue formError with_formValue with_formError] in Hctx.
  rewrite Hfv.
  set (eo := validate tv (VObj (obj_put k message evs))) in *.
  specialize (Hflat tv (VObj (obj_put k message evs))). fold eo in Hflat.
  destruct eo as [| | | | | | |ekvs] eqn:Eeo; try discriminate Hflat.
  rewrite (keyify_flat _ Hflat) in Hctx.
  apply merge_flat in Hctx as ([evs2 Hroot2] & Hin & Hout);
    [|exact (flat_form_keys _ Hflat)|eexists; reflexivity].
  assert (Hsame : formError s' = formError s2).
  { assert (Hp : preserves formError
                   (trackInvalidPath k ;; updateFormValid ;; triggerForceUpdates k))
      by (unfold_store; preserve).
    specialize (Hp s2). rewrite Hrest in Hp. exact Hp. }
  assert (Hroot' : formError s' = VObj evs2) by (rewrite Hsame; exact Hroot2).
  pose proof (flat_form_keys _ Hflat) as Hkeys. rewrite forallb_forall in Hkeys.
  cbn [object_keys]. split; [|split].
  - intros q Hq. rewrite (getFormError_flat_key q s' evs2 (Hkeys q Hq) Hroot').
    rewrite <- Hroot2, (Hin q Hq). apply get_undefined_default.
  - intros q Hflatq Hne Hq. rewrite (getFormError_flat_key q s' evs2 Hflatq Hroot').
    rewrite <- Hroot2, (Hout q Hq).
    cbn [formError with_formValue with_formError].
    rewrite (getFormError_flat_key q s evs Hflatq Herr). cbn [prop].
    rewrite assoc_obj_put_ne by exact Hne. reflexivity.
  - intros Hq. rewrite (getFormError_flat_key k s' evs2 Hk Hroot').
    rewrite <- Hroot2, (Hout k Hq).
    cbn [formError with_formValue with_formError prop].
    rewrite assoc_obj_put_eq. reflexivity.
Qed.

Lemma context_errors_merge_witness :
  first_message example_call (validators_at login_mounted "username") (VStr EmptyString)
  = VStr "required"
  /\ getFormError "other"
       (snd (setFormValue example_call (Some example_contextValidator) "username"
               (VStr EmptyString) login_mounted))
     = VStr "bad"
  /\ getFormError "username"
       (snd (setFormValue example_call (Some example_contextValidator) "username"
               (VStr EmptyString) login_mounted))
     = VStr "required".
Proof.
  pose proof (context_errors_merge example_call example_contextValidator "username"
                (VStr EmptyString) login_mounted
                (snd (setFormValue example_call (Some example_contextValidator) "username"
                        (VStr EmptyString) login_mounted))
                [("username", VStr EmptyString)]) as H.
  assert (H1 : flat_key "username" = true) by reflexivity.
  assert (H2 : formError login_mounted = VObj [("username", VStr EmptyString)])
    by (vm_compute; reflexivity).
  assert (H3 : forall values errors,
            flat_form (example_contextValidator values errors) = true)
    by (intros values errors; reflexivity).
  assert (H4 : setFormValue example_call (Some example_contextValidator) "username"
                 (VStr EmptyString) login_mounted
               = (Ok tt,
                  snd (setFormValue example_call (Some example_contextValidator)
                         "username" (VStr EmptyString) login_mounted)))
    by (apply run_Ok; vm_compute; reflexivity).
  specialize (H H1 H2 H3 H4). cbv zeta in H. destruct H as (Hin & _ & Hown).
  split; [vm_compute; reflexivity|]. split.
  - etransitivity; [apply (Hin "other"); left; reflexivity|reflexivity].
  - etransitivity; [apply Hown; intros [E|[]]; discriminate E|vm_compute; reflexivity].
Defined.

(** ** [arrayPush], then [arrayRemove] *)

Lemma remove_nth_end {A : Type} (xs : list A) (x : A) :
  remove_nth (List.length xs) (xs ++ [x]) = xs.
Proof.
  unfold remove_nth. induction xs as [|a xs IH]; [reflexivity|].
  cbn [List.length app firstn skipn] in *. rewrite IH. reflexivity.
Qed.

(** Writing an item of the list that a key holds, or of the list that the
    write puts in the place of what is no object. *)
Lemma set_item kvs k n v :
  flat_key k = true -> unsafe_key k = false ->
  (n < 4294967295)%N ->
  assoc (item_path k n) kvs = None ->
  (isObject (prop (VObj kvs) k) = true -> exists ys, prop (VObj kvs) k = VArr ys) ->
  set (VObj kvs) (item_path k n) v
  = Ok (VObj (obj_put k
                (VArr (arr_put n v match prop (VObj kvs) k with
                                   | VArr ys => ys
                                   | _ => []
                                   end)) kvs)).
Proof.
  intros Hk Hsafe Hn Hnone Ha.
  destruct (flat_key_inv k Hk) as (_ & Hns & Hne).
  unfold set. cbn [is_nullish isObject negb].
  rewrite castPath_item by (try assumption; cbn [has_prop]; rewrite Hnone; reflexivity).
  assert (Hin : forall ys, assignValue (VArr ys) (pretty n) v = Ok (VArr (arr_put n v ys))).
  { intros ys. unfold assignValue.
    rewrite unsafe_key_digits by apply pretty_N_digits.
    rewrite array_index_pretty by exact Hn. reflexivity. }
  assert (Hidx : isIndex (pretty n) = true) by (apply isIndex_pretty; exact Hn).
  cbn [baseSet_loop]. rewrite Hidx.
  destruct (prop (VObj kvs) k) as [| |b|z|str|f|ys|o];
    try (destruct (Ha eq_refl) as [ys' Hys']; discriminate Hys');
    cbn [isObject]; rewrite Hin; cbn [outcome_bind]; unfold assignValue;
    rewrite Hsafe; reflexivity.
Qed.

Lemma array_or_absent_list a :
  array_or_absent a -> isObject a = true -> exists ys, a = VArr ys.
Proof.
  destruct a as [| | | | | |ys|]; try discriminate; try contradiction.
  intros _ _. exists ys. reflexivity.
Qed.

Lemma getFormValues_list k s xs :
  k <> EmptyString -> get (formValue s) k VUndef = VArr xs ->
  getFormValues k s = VArr xs.
Proof.
  intros Hne Hget. unfold getFormValues.
  rewrite (proj2 (String.eqb_neq k EmptyString) Hne).
  rewrite <- (get_undefined_default (formValue s) k (VStr EmptyString)), Hget.
  reflexivity.
Qed.

(** X17. After [arrayPush(key, value)] with a truthy value has
    returned, [arrayRemove] of the new item returns, and the list at the key
    and its length are as before the push. The key is a flat key (other than
    [__proto__], [constructor] and [prototype]) that holds a list; the value tree and the error tree are objects without a key
    spelled like the new item; the error, dirty and identifier trees hold an
    array, or nothing that [pullAt] would trip over, at the key; the context
    validator reports nothing. *)
Theorem arrayPush_then_arrayRemove
    (call : nat -> value -> value)
    (contextValidator : option (value -> value -> value))
    (k : string) (v : value) (s s1 : store)
    (kvs evs : list (string * value)) (xs : list (option value)) :
  flat_key k = true ->
  unsafe_key k = false ->
  formValue s = VObj kvs ->
  assoc k kvs = Some (VArr xs) ->
  (N.of_nat (List.length xs) < 4294967295)%N ->
  assoc (item_path k (N.of_nat (List.length xs))) kvs = None ->
  truthy v = true ->
  formError s = VObj evs ->
  assoc (item_path k (N.of_nat (List.length xs))) evs = None ->
  array_or_absent (prop (VObj evs) k) ->
  array_or_absent (get (formDirty s) k VUndef) ->
  array_or_absent (get (formUniqueIds s) k VUndef) ->
  quiet contextValidator ->
  arrayPush call contextValidator k v s = (Ok tt, s1) ->
  exists s2,
    arrayRemove k (Z.of_nat (List.length xs)) s1 = (Ok tt, s2)
    /\ getFormValues k s2 = VArr xs
    /\ useFormArrayLength k s2 = useFormArrayLength k s.
Proof.
  intros Hk Hsafe Hroot Hxs Hlen Hnone Hv Herr Hnone_e Hae Had Hau Hquiet Hpush.
  destruct (flat_key_inv k Hk) as (Hplain & Hns & Hne).
  set (p := item_path k (N.of_nat (List.length xs))) in *.
  assert (Hget : get (formValue s) k VUndef = VArr xs).
  { rewrite Hroot, get_object_plain by exact Hplain. cbn [prop]. rewrite Hxs. reflexivity. }
  rewrite (arrayPush_run call contextValidator k v s xs Hv Hget) in Hpush. fold p in Hpush.
  apply bind_Ok_inv in Hpush as ([] & sa & Hset & Hobs).
  rewrite forceUpdatePath_run in Hobs. injection Hobs as <-.
  (* the value tree *)
  assert (Hfv : formValue sa = VObj (obj_put k (VArr (xs ++ [Some v])) kvs)).
  { pose proof (setFormValue_formValue call contextValidator p v s _
                  (eq_trans (f_equal (fun o => set o p v) Hroot)
                     (set_item_end kvs k xs v Hk Hsafe Hxs Hlen Hnone))) as H.
    rewrite Hset in H. exact H. }
  (* the dirty tree and the identifiers *)
  assert (Hfd : formDirty sa = formDirty s).
  { pose proof (preserves_formDirty_setFormValue call contextValidator p v s) as H.
    rewrite Hset in H. exact H. }
  assert (Hfu : formUniqueIds sa = formUniqueIds s).
  { assert (H : preserves formUniqueIds (setFormValue call contextValidator p v))
      by (unfold_store; preserve).
    specialize (H s). rewrite Hset in H. exact H. }
  (* the error tree *)
  assert (Hfe : exists ys, formError sa = VObj (obj_put k (VArr ys) evs)).
  { rewrite setFormValue_halves in Hset.
    apply bind_Ok_inv in Hset as ([] & sw & Hw & Hafter).
    pose proof (preserves_formError_quiet contextValidator p Hquiet sw) as Hsame.
    rewrite Hafter in Hsame. cbn [snd] in Hsame. rewrite Hsame.
    rewrite write_and_validate_run in Hw.
    destruct (set (formValue s) p v) as [t|e]; [|discriminate Hw].
    destruct (runLocalValidators_cases call p v (with_formValue t s))
      as [[e He]|(message & te & Hsete & Hrun)]; [rewrite He in Hw; discriminate Hw|].
    rewrite Hrun in Hw. injection Hw as <-.
    cbn [formError with_formValue with_formError] in *. rewrite Herr in Hsete.
    pose proof (set_item evs k (N.of_nat (List.length xs)) message Hk Hsafe Hlen Hnone_e
                  (array_or_absent_list _ Hae)) as Hys.
    fold p in Hys. rewrite Hys in Hsete. injection Hsete as <-.
    eexists. reflexivity. }
  destruct Hfe as [ys Hfe].
  set (s1 := with_rendered _ sa).
  assert (Hv1 : get (formValue s1) k VUndef = VArr (xs ++ [Some v])).
  { subst s1. cbn [formValue with_rendered]. rewrite Hfv.
    rewrite get_object_plain by exact Hplain. cbn [prop].
    rewrite assoc_obj_put_eq. reflexivity. }
  assert (Hi : (0 <= Z.of_nat (List.length xs))%Z) by lia.
  destruct (pullAt_in_aligned (formValue s1) k (Z.of_nat (List.length xs)))
    as (tv & Hpv & Hgv); [rewrite Hv1; exact I|exact Hi|].
  destruct (pullAt_in_aligned (formError s1) k (Z.of_nat (List.length xs))) as (te & Hpe & _);
    [|exact Hi|].
  { subst s1. cbn [formError with_rendered]. rewrite Hfe.
    rewrite get_object_plain by exact Hplain. cbn [prop].
    rewrite assoc_obj_put_eq. exact I. }
  destruct (pullAt_in_aligned (formDirty s1) k (Z.of_nat (List.length xs))) as (td & Hpd & _);
    [|exact Hi|].
  { subst s1. cbn [formDirty with_rendered]. rewrite Hfd. exact Had. }
  destruct (pullAt_in_aligned (formUniqueIds s1) k (Z.of_nat (List.length xs)))
    as (tu & Hpu & _); [|exact Hi|].
  { subst s1. cbn [formUniqueIds with_rendered]. rewrite Hfu. exact Hau. }
  eexists. split; [exact (arrayRemove_pulls k _ s1 _ tv te td tu Hv1 Hpv Hpe Hpd Hpu)|].
  assert (Hback : get tv k VUndef = VArr xs).
  { rewrite Hgv, Hv1. cbn [shifted]. rewrite (proj2 (Z.leb_le 0 _) Hi).
    rewrite Nat2Z.id, remove_nth_end. reflexivity. }
  assert (Hshown : forall s2, formValue s2 = tv -> getFormValues k s2 = VArr xs)
    by (intros s2 E; apply getFormValues_list; [exact Hne|rewrite E; exact Hback]).
  split; [apply Hshown; reflexivity|].
  unfold useFormArrayLength. rewrite Hshown by reflexivity.
  rewrite (getFormValues_list k s xs Hne Hget). reflexivity.
Qed.

Lemma arrayPush_then_arrayRemove_witness :
  exists s2,
    arrayRemove "items" 2
      (snd (arrayPush example_call None "items" (VNum 3) (FormProvider two_items)))
    = (Ok tt, s2)
    /\ getFormValues "items" s2 = VArr [Some (VNum 1); Some (VNum 2)].
Proof.
  destruct (arrayPush_then_arrayRemove example_call None "items" (VNum 3)
              (FormProvider two_items)
              (snd (arrayPush example_call None "items" (VNum 3) (FormProvider two_items)))
              [("items", VArr [Some (VNum 1); Some (VNum 2)])] []
              [Some (VNum 1); Some (VNum 2)])
    as (s2 & Hrun & Hlist & _).
  - reflexivity.
  - reflexivity.
  - reflexivity.
  - reflexivity.
  - reflexivity.
  - vm_compute. reflexivity.
  - reflexivity.
  - reflexivity.
  - reflexivity.
  - exact I.
  - vm_compute. exact I.
  - vm_compute. exact I.
  - exact I.
  - apply run_Ok. vm_compute. reflexivity.
  - exists s2. split; [exact Hrun|exact Hlist].
Defined.

(** ** [arrayPush] where there is no list *)

Lemma arrayPush_first (call : nat -> value -> value)
    (contextValidator : option (value -> value -> value)) path v s :
  truthy v = true ->
  match get (formValue s) path VUndef with VArr _ => False | _ => True end ->
  arrayPush call contextValidator path v s
  = (setFormValue call contextValidator (item_path path 0) v ;; forceUpdatePath path) s.
Proof.
  intros Hv Hget. unfold arrayPush.
  assert (Hsame : match v with VUndef => VNull | _ => v end = v)
    by (destruct v; try reflexivity; discriminate Hv).
  rewrite Hsame. unfold bind at 1, gets at 1. cbv beta iota.
  rewrite Hv. destruct (get (formValue s) path VUndef); try reflexivity. contradiction.
Qed.

(** X24. [arrayPush(key, value)] with a truthy value, on a flat key
    (other than [__proto__], [constructor] and [prototype]) of an object
    that has no key spelled like the new item, where the key is absent or
    holds a value that is no object, array or function: the key then holds
    the list with the one item [value], in the place of what it held, also
    when the call throws in a validator after the write; the other keys of
    the value tree are as before. *)
Theorem arrayPush_creates_list
    (call : nat -> value -> value)
    (contextValidator : option (value -> value -> value))
    (k : string) (v : value) (s : store) (kvs : list (string * value)) :
  flat_key k = true ->
  unsafe_key k = false ->
  formValue s = VObj kvs ->
  isObject (prop (VObj kvs) k) = false ->
  assoc (item_path k 0) kvs = None ->
  truthy v = true ->
  let r := arrayPush call contextValidator k v s in
  getFormValues k (snd r) = VArr [Some v]
  /\ useFormArrayLength k (snd r) = 1
  /\ (forall q, q <> k -> prop (formValue (snd r)) q = prop (formValue s) q).
Proof.
  intros Hk Hsafe Hroot Hscalar Hnone Hv r.
  destruct (flat_key_inv k Hk) as (Hplain & Hns & Hne).
  set (p := item_path k 0) in *.
  assert (Hget : match get (formValue s) k VUndef with VArr _ => False | _ => True end).
  { rewrite Hroot, get_object_plain by exact Hplain.
    destruct (prop (VObj kvs) k); try exact I. discriminate Hscalar. }
  assert (Hset : set (formValue s) p v = Ok (VObj (obj_put k (VArr [Some v]) kvs))).
  { rewrite Hroot. subst p. rewrite set_item; try assumption; try reflexivity.
    - destruct (prop (VObj kvs) k); try reflexivity; discriminate Hscalar.
    - intros E. rewrite E in Hscalar. discriminate Hscalar. }
  pose proof (setFormValue_formValue call contextValidator p v s _ Hset) as Hwritten.
  assert (Hfv : formValue (snd r) = VObj (obj_put k (VArr [Some v]) kvs)).
  { subst r. rewrite (arrayPush_first call contextValidator k v s Hv Hget). fold p.
    unfold bind.
    destruct (setFormValue call contextValidator p v s) as [[[]|e] s1];
      cbn [fst snd] in *; [rewrite forceUpdatePath_run|]; exact Hwritten. }
  assert (Hlist : getFormValues k (snd r) = VArr [Some v]).
  { apply getFormValues_list; [exact Hne|]. rewrite Hfv.
    rewrite get_object_plain by exact Hplain. cbn [prop].
    rewrite assoc_obj_put_eq. reflexivity. }
  split; [exact Hlist|]. split.
  - unfold useFormArrayLength. rewrite Hlist. reflexivity.
  - intros q Hq. rewrite Hfv, Hroot. cbn [prop].
    rewrite assoc_obj_put_ne by exact Hq. reflexivity.
Qed.

Lemma arrayPush_creates_list_witness :
  getFormValues "tags"
    (snd (arrayPush example_call None "tags" (VStr "new") (FormProvider login_form)))
  = VArr [Some (VStr "new")].
Proof.
  destruct (arrayPush_creates_list example_call None "tags" (VStr "new")
              (FormProvider login_form)
              [("username", VStr "123"); ("password", VStr "123")])
    as (H & _).
  - reflexivity.
  - reflexivity.
  - reflexivity.
  - reflexivity.
  - reflexivity.
  - reflexivity.
  - exact H.
Defined.

(** ** Subscribing keeps what the field shows *)

Section Subscribe.
Variable call : nat -> value -> value.
Variable contextValidator : option (value -> value -> value).

Lemma subscribe_split path validate s :
  subscribe call contextValidator path validate s
  = (register_validators path validate ;; initialise_path call contextValidator path validate) s.
Proof.
  symmetry. unfold subscribe, register_validators, initialise_path.
  rewrite bind_assoc. apply bind_ext. intros _ s1. reflexivity.
Qed.

Lemma register_validators_frame path validate s :
  formValue (snd (register_validators path validate s)) = formValue s
  /\ formDirty (snd (register_validators path validate s)) = formDirty s.
Proof.
  split.
  - revert s. change (preserves formValue (register_validators path validate)).
    unfold register_validators. preserve.
  - revert s. change (preserves formDirty (register_validators path validate)).
    unfold register_validators. preserve.
Qed.

Lemma getFormDirty_same path s s' :
  formDirty s' = formDirty s -> getFormDirty path s' = getFormDirty path s.
Proof. intros H. unfold getFormDirty. rewrite H. reflexivity. Qed.

Lemma setFormValue_keeps_shown path s :
  path <> EmptyString ->
  getFormValues path
    (snd (setFormValue call contextValidator path (getFormValues path s) s))
  = getFormValues path s.
Proof.
  intros Hpath. apply String.eqb_neq in Hpath.
  destruct (set (formValue s) path (getFormValues path s)) as [t|e] eqn:Hset.
  - unfold getFormValues at 1. rewrite Hpath.
    rewrite (setFormValue_formValue call contextValidator path _ s t Hset).
    unfold getFormValues in *. rewrite Hpath in *.
    apply set_get_same; [discriminate|exact Hset].
  - apply getFormValues_same.
    apply (setFormValue_formValue_thrown call contextValidator path _ s e Hset).
Qed.

Lemma setFormDirty_keeps_shown path s :
  path <> EmptyString ->
  getFormDirty path (snd (setFormDirty path (getFormDirty path s) s))
  = getFormDirty path s.
Proof.
  intros Hpath. apply String.eqb_neq in Hpath.
  unfold setFormDirty, bind, gets, lift, modify.
  destruct (set (formDirty s) path (getFormDirty path s)) as [t|e] eqn:Hset;
    [|reflexivity].
  cbn [snd]. unfold getFormDirty in *. rewrite Hpath in *.
  cbn [formDirty with_formDirty]. apply set_get_same; [discriminate|exact Hset].
Qed.

End Subscribe.

(** X18. [subscribe({ path, validate })] with a non-empty path, inside
    the modelled fragment, changes neither the value nor the dirtiness that
    the getters show for the path, whether it returns or throws. *)
Theorem subscribe_keeps_value
    (call : nat -> value -> value)
    (contextValidator : option (value -> value -> value))
    (path : string) (validate : value) (s : store) :
  path <> EmptyString ->
  in_model (subscribe call contextValidator path validate s) ->
  getFormValues path (snd (subscribe call contextValidator path validate s))
  = getFormValues path s
  /\ getFormDirty path (snd (subscribe call contextValidator path validate s))
     = getFormDirty path s.
Proof.
  intros Hpath _. rewrite subscribe_split.
  set (P := fun s' => getFormValues path s' = getFormValues path s
                      /\ getFormDirty path s' = getFormDirty path s).
  change (P (snd ((register_validators path validate ;;
                   initialise_path call contextValidator path validate) s))).
  assert (Hsame : forall s1 s2, formValue s2 = formValue s1 ->
                    formDirty s2 = formDirty s1 -> P s1 -> P s2).
  { intros s1 s2 Hv Hd [H1 H2]. split.
    - rewrite (getFormValues_same path s1 s2 Hv). exact H1.
    - rewrite (getFormDirty_same path s1 s2 Hd). exact H2. }
  apply bind_post.
  { destruct (register_validators_frame path validate s) as [Hv Hd].
    apply (Hsame s); [exact Hv|exact Hd|split; reflexivity]. }
  intros [] s1 _ H1. unfold initialise_path.
  rewrite (proj2 (String.eqb_neq path EmptyString) Hpath).
  apply bind_post; [exact H1|]. intros [] s2 E2 H2. injection E2 as <-.
  apply bind_post; [exact H1|]. intros v s3 E3 H3. injection E3 as <- <-.
  apply bind_post.
  { destruct H1 as [Hv Hd]. split.
    - rewrite (setFormValue_keeps_shown call contextValidator path s1 Hpath). exact Hv.
    - rewrite (getFormDirty_same path s1 _
                 (preserves_formDirty_setFormValue call contextValidator path _ s1)).
      exact Hd. }
  intros [] s4 _ H4.
  apply bind_post; [exact H4|]. intros d s5 E5 H5. injection E5 as <- <-.
  apply bind_post.
  { destruct H4 as [Hv Hd]. split.
    - rewrite (getFormValues_same path s4 _); [exact Hv|].
      apply (fun H : preserves formValue (setFormDirty path (getFormDirty path s4)) => H s4).
      unfold setFormDirty. preserve.
    - rewrite (setFormDirty_keeps_shown path s4 Hpath). exact Hd. }
  intros [] s6 _ H6.
  apply (Hsame s6); [| |exact H6].
  - apply (fun H : preserves formValue
                     (e <- gets (getFormError path) ;;
                      setFormError path e ;; ret (unsubscribe path validate)) => H s6).
    unfold setFormError. preserve.
  - apply (fun H : preserves formDirty
                     (e <- gets (getFormError path) ;;
                      setFormError path e ;; ret (unsubscribe path validate)) => H s6).
    unfold setFormError. preserve.
Qed.

Lemma subscribe_keeps_value_witness :
  getFormValues "username"
    (snd (subscribe example_call None "username" (VFun 0) (FormProvider login_form)))
  = VStr "123".
Proof.
  destruct (subscribe_keeps_value example_call None "username" (VFun 0)
              (FormProvider login_form)) as [H _].
  - discriminate.
  - vm_compute. exact I.
  - etransitivity; [exact H|vm_compute; reflexivity].
Defined.

(** ** Subscribing an observer *)

Lemma filter_app_self (f : nat) l :
  ~ In f l -> List.filter (fun func => negb (Nat.eqb func f)) (l ++ [f]) = l.
Proof.
  intros H. rewrite List.filter_app. cbn [List.filter]. rewrite Nat.eqb_refl. cbn [negb].
  rewrite app_nil_r. apply filter_all_true. intros x Hx.
  apply negb_true_iff, Nat.eqb_neq. intros ->. exact (H Hx).
Qed.

Lemma filter_differs (f : nat) l :
  List.filter (fun func => differs func (VFun f)) l
  = List.filter (fun func => negb (Nat.eqb func f)) l.
Proof. apply filter_ext. intros g. reflexivity. Qed.

Lemma not_in_filter (f : nat) l :
  ~ In f (List.filter (fun func => negb (Nat.eqb func f)) l).
Proof.
  intros H. apply filter_In in H as [_ H]. rewrite Nat.eqb_refl in H. discriminate H.
Qed.

(** X19. For a path that names no member inherited from
    [Object.prototype], [subscribeForceUpdate(path, f)] and its disposer
    return. After the subscription [f] is among the observers that a write
    at [path] calls (at every path, when [path] is empty), and the observers
    of the other paths are as before. After the disposer [f] is not among the
    observers of a path where it was not before the subscription; and if it
    was not among the observers of [path] before, the observers of every path
    are as before the subscription. *)
Theorem observer_subscription (path : string) (f : nat) (s : store) :
  inherited path = false ->
  let s1 := snd (subscribeForceUpdate path f s) in
  let s2 := snd (unsubscribeForceUpdate path f s1) in
  fst (subscribeForceUpdate path f s) = Ok tt
  /\ fst (unsubscribeForceUpdate path f s1) = Ok tt
  /\ (forall q, path = EmptyString \/ q = path -> In f (observers_of s1 q))
  /\ (forall q, path <> EmptyString -> q <> path -> observers_of s1 q = observers_of s q)
  /\ (forall q, ~ In f (observers_of s q) -> ~ In f (observers_of s2 q))
  /\ (~ In f (observers_of s path) -> forall q, observers_of s2 q = observers_of s q).
Proof.
  intros _ s1 s2. subst s1 s2. unfold subscribeForceUpdate, unsubscribeForceUpdate.
  destruct (String.eqb path EmptyString) eqn:Hpath; cbn [negb].
  - apply String.eqb_eq in Hpath. subst path.
    unfold modify, observers_of.
    cbn [fst snd forceUpdates forceUpdatesByPath with_forceUpdates].
    split; [reflexivity|]. split; [reflexivity|]. split; [|split; [|split]].
    + intros q _. apply in_or_app. left. apply in_or_app. right. left. reflexivity.
    + intros q Hne. congruence.
    + intros q Hq Hin. apply in_app_or in Hin as [Hin|Hin].
      * exact (not_in_filter f _ Hin).
      * apply Hq. apply in_or_app. right. exact Hin.
    + intros Hq q. rewrite filter_app_self; [reflexivity|].
      intros Hin. apply Hq. apply in_or_app. left. exact Hin.
  - apply String.eqb_neq in Hpath.
    unfold modify, observers_of.
    cbn [fst snd forceUpdates forceUpdatesByPath with_forceUpdatesByPath].
    split; [reflexivity|]. split; [reflexivity|]. split; [|split; [|split]].
    + intros q [Hq|Hq]; [congruence|]. subst q. apply in_or_app. right.
      unfold push. rewrite assoc_reg_put_eq. cbn [default].
      apply in_or_app. right. left. reflexivity.
    + intros q _ Hq. unfold push. rewrite assoc_reg_put_ne by exact Hq. reflexivity.
    + intros q Hq Hin. apply in_app_or in Hin as [Hin|Hin].
      * apply Hq. apply in_or_app. left. exact Hin.
      * destruct (String.eqb q path) eqn:E.
        -- apply String.eqb_eq in E. subst q. unfold remove in Hin.
           rewrite assoc_reg_put_eq in Hin. cbn [default] in Hin.
           rewrite filter_differs in Hin. exact (not_in_filter f _ Hin).
        -- apply String.eqb_neq in E. unfold remove, push in Hin.
           rewrite !assoc_reg_put_ne in Hin by exact E.
           apply Hq. apply in_or_app. right. exact Hin.
    + intros Hq q. f_equal. destruct (String.eqb q path) eqn:E.
      * apply String.eqb_eq in E. subst q. unfold remove, push.
        rewrite !assoc_reg_put_eq. cbn [default]. rewrite filter_differs.
        apply filter_app_self. intros Hin. apply Hq. apply in_or_app. right. exact Hin.
      * apply String.eqb_neq in E. unfold remove, push.
        rewrite !assoc_reg_put_ne by exact E. reflexivity.
Qed.

(** Observer [7] subscribed to [username] on the form of the demonstration,
    and disposed of again. *)
Lemma observer_subscription_witness :
  inherited "username" = false
  /\ observers_of (snd (subscribeForceUpdate "username" 7 (FormProvider login_form)))
       "username" = [7]
  /\ observers_of
       (snd (unsubscribeForceUpdate "username" 7
               (snd (subscribeForceUpdate "username" 7 (FormProvider login_form)))))
       "username" = [].
Proof.
  pose proof (observer_subscription "username" 7 (FormProvider login_form) eq_refl) as H.
  cbv zeta in H. destruct H as (_ & _ & _ & _ & _ & H).
  split; [reflexivity|]. split; [reflexivity|].
  etransitivity; [apply H; intros []|reflexivity].
Defined.

(** ** A form item after its update *)

Lemma setFormDirty_Ok_inv path v s s' :
  setFormDirty path v s = (Ok tt, s') ->
  exists t, set (formDirty s) path v = Ok t /\ s' = with_formDirty t s.
Proof.
  unfold setFormDirty, bind, gets, lift, modify.
  destruct (set (formDirty s) path v) as [t|e]; [|discriminate].
  intros H. injection H as <-. exists t. split; reflexivity.
Qed.

(** X20. After the [update] of a form item has returned, for a new
    value other than [undefined] and a non-empty path that can be written in
    the value tree and in the dirty tree, the item shows the new value and
    is dirty; it is valid exactly when its path is not in the set of invalid
    paths; and when it is not valid, the form is not valid. *)
Theorem update_shows
    (call : nat -> value -> value)
    (contextValidator : option (value -> value -> value))
    (path : string) (v : value) (s s' : store) :
  path <> EmptyString ->
  v <> VUndef ->
  addressable path (formValue s) ->
  addressable path (formDirty s) ->
  setLocalState call contextValidator path v s = (Ok tt, s') ->
  item_value (useFormItem path s') = v
  /\ item_dirty (useFormItem path s') = VBool true
  /\ (item_valid (useFormItem path s') = true <-> path ∉ invalidPathSet s')
  /\ (item_valid (useFormItem path s') = false -> getFormValid s' = false).
Proof.
  intros Hpath Hv [Hvo Hvs] [Hdo Hds] H. unfold setLocalState in H.
  apply bind_Ok_inv in H as ([] & s1 & Hdirty & Hvalue).
  apply setFormDirty_Ok_inv in Hdirty as (td & Hsetd & ->).
  pose proof (setFormValue_tracks_path call contextValidator path v _ s' Hvalue) as Htrack.
  pose proof (setFormValue_Ok_valid call contextValidator path v _ s' Hvalue) as Hvalid.
  pose proof (preserves_formDirty_setFormValue call contextValidator path v
                (with_formDirty td s)) as Hd.
  rewrite Hvalue in Hd. cbn [snd formDirty with_formDirty] in Hd.
  apply setFormValue_Ok_inv in Hvalue as (tv & Hsetv & Hfv).
  cbn [formValue with_formDirty] in Hsetv.
  unfold useFormItem. cbn [item_value item_dirty item_valid].
  assert (Hp : String.eqb path EmptyString = false) by (apply String.eqb_neq; exact Hpath).
  assert (Hiff : negb (truthy (getFormError path s')) = true <-> path ∉ invalidPathSet s').
  { unfold getFormError. rewrite Hp, truthy_get_default.
    destruct (truthy (get (formError s') path VUndef)) eqn:E; cbn [negb]; split.
    - discriminate.
    - intros Hn. exfalso. apply Hn, Htrack. reflexivity.
    - intros _ Hin. apply Htrack in Hin. discriminate Hin.
    - reflexivity. }
  split; [|split; [|split]].
  - unfold getFormValues. rewrite Hp, Hfv.
    exact (get_after_set _ _ _ _ _ Hsetv Hvo Hvs Hv).
  - unfold getFormDirty. rewrite Hp, Hd.
    apply (get_after_set _ _ _ _ _ Hsetd Hdo Hds). discriminate.
  - exact Hiff.
  - intros Hfalse.
    destruct (decide (path ∈ invalidPathSet s')) as [Hin|Hout].
    + exact (invalid_not_valid s' path Hvalid Hin).
    + apply Hiff in Hout. congruence.
Qed.

Lemma update_shows_witness :
  item_value
    (useFormItem "username"
       (snd (setLocalState example_call None "username" (VStr "ann")
               (FormProvider login_form))))
  = VStr "ann"
  /\ item_dirty
       (useFormItem "username"
          (snd (setLocalState example_call None "username" (VStr "ann")
                  (FormProvider login_form))))
     = VBool true.
Proof.
  destruct (update_shows example_call None "username" (VStr "ann")
              (FormProvider login_form)
              (snd (setLocalState example_call None "username" (VStr "ann")
                      (FormProvider login_form))))
    as (Hvalue & Hdirty & _).
  - discriminate.
  - discriminate.
  - split; [reflexivity|vm_compute; discriminate].
  - split; [reflexivity|vm_compute; discriminate].
  - apply run_Ok. vm_compute. reflexivity.
  - split; [exact Hvalue|exact Hdirty].
Defined.

(** ** When [keyify] throws *)

Lemma fails_when_bind {A B : Type} (x : outcome A) (f : A -> outcome B) b1 b2 :
  fails_when x b1 -> (forall a, fails_when (f a) b2) ->
  fails_when (outcome_bind x f) (b1 || b2).
Proof.
  destruct x as [a|e]; cbn.
  - intros -> H. apply H.
  - intros [-> ->] _. split; reflexivity.
Qed.

Lemma nested_trips_child c :
  nested_trips c || trips c = has_nullish_item c || trips c.
Proof.
  destruct c as [| | | | | |ys|kvs]; try reflexivity.
  cbn [nested_trips has_nullish_item trips].
  induction ys as [|[z|] ys IH]; [reflexivity| |exact IH].
  cbn [existsb].
  destruct (is_nullish z), (trips z), (has_nullish_item z); cbn [orb];
    rewrite ?orb_true_r; try reflexivity; exact IH.
Qed.

Lemma trips_scalar c : is_object_non_null c = false -> trips c = false.
Proof. destruct c; try reflexivity; discriminate. Qed.

Lemma nested_trips_scalar c : is_object_non_null c = false -> nested_trips c = false.
Proof. destruct c; try reflexivity; discriminate. Qed.

(** One step of the [reduce]. *)
Lemma keyify_entry_fails_when prefix el c nested deeper res :
  fails_when nested (nested_trips c) ->
  fails_when deeper (is_nullish c || trips c) ->
  fails_when (keyify_entry prefix el c nested deeper res)
    (has_nullish_item c || trips c).
Proof.
  intros Hn Hd. rewrite <- nested_trips_child. unfold keyify_entry.
  apply fails_when_bind; [exact Hn|]. intros _.
  destruct (is_object_non_null c) eqn:Hc.
  - assert (Hnull : is_nullish c = false) by (destruct c; try reflexivity; discriminate).
    rewrite Hnull in Hd. cbn [orb] in Hd.
    rewrite <- (orb_false_r (trips c)).
    apply fails_when_bind; [exact Hd|]. intros r. reflexivity.
  - rewrite (trips_scalar c Hc). reflexivity.
Qed.

Lemma fails_when_nested v :
  items_fail_when v ->
  forall prefix,
    fails_when
      match v with
      | VArr ys =>
          (fix each (ys : list (option value)) (i : N) {struct ys} : outcome unit :=
             match ys with
             | [] => Ok tt
             | None :: r => each r (N.succ i)
             | Some nestedObj :: r =>
                 outcome_bind (keyify nestedObj (prefix +:+ "[" +:+ pretty i +:+ "]."))
                   (fun _ => each r (N.succ i))
             end) ys 0%N
      | _ => Ok tt
      end
      (nested_trips v).
Proof.
  intros Hitems prefix. destruct v as [| | | | | |ys|kvs]; try reflexivity.
  cbn [items_fail_when nested_trips] in *. generalize 0%N as i.
  induction Hitems as [|y ys Hy _ IH]; intros i; [reflexivity|].
  destruct y as [z|]; cbn [existsb].
  - apply fails_when_bind; [apply Hy|]. intros _. apply IH.
  - apply IH.
Qed.

Lemma keyify_fails_when_all v : keyify_fails_when v /\ items_fail_when v.
Proof.
  induction v as [| | | | | |xs IH|kvs IH] using value_induction;
    try (split; [intros prefix; cbn; repeat split; reflexivity|exact I]).
  - assert (Hitems : items_fail_when (VArr xs)).
    { cbn [items_fail_when]. induction IH as [|x xs Hx _ IHxs]; constructor.
      - destruct x as [y|]; [exact (proj1 Hx)|exact I].
      - exact IHxs. }
    split; [|exact Hitems]. clear Hitems.
    intros prefix. cbn [keyify is_nullish orb trips].
    match goal with
    | |- fails_when (?elems xs 0%N []) _ =>
        enough (H : forall i res,
                  fails_when (elems xs i res)
                    (existsb (fun x => match x with
                                       | Some c => has_nullish_item c || trips c
                                       | None => false
                                       end) xs))
          by apply H
    end.
    induction IH as [|x xs Hx _ IHxs]; intros i res; [reflexivity|].
    destruct x as [c|]; cbn [existsb]; [|apply IHxs].
    destruct Hx as [Hc Hitems].
    apply fails_when_bind; [|intros r; apply IHxs].
    apply keyify_entry_fails_when; [apply fails_when_nested, Hitems|apply Hc].
  - split; [|exact I].
    intros prefix. cbn [keyify is_nullish orb trips].
    match goal with
    | |- fails_when (?entries kvs []) _ =>
        enough (H : forall res,
                  fails_when (entries kvs res)
                    (existsb (fun kv => has_nullish_item (snd kv) || trips (snd kv)) kvs))
          by apply H
    end.
    induction IH as [|[el c] kvs Hx _ IHkvs]; intros res; [reflexivity|].
    cbn [existsb snd]. destruct Hx as [Hc Hitems]. cbn [snd] in Hc, Hitems.
    apply fails_when_bind; [|intros r; apply IHkvs].
    apply keyify_entry_fails_when; [apply fails_when_nested, Hitems|apply Hc].
Qed.

(** X21. [keyify] throws exactly on [null], on [undefined] and on the
    trees in which an array below the root holds [null] or [undefined]; what
    it throws is a [TypeError]. On every other value it returns. *)
Theorem keyify_throws (v : value) (prefix : string) :
  (is_nullish v || trips v = true -> keyify v prefix = Throw TypeError)
  /\ (is_nullish v || trips v = false -> exists paths, keyify v prefix = Ok paths).
Proof.
  pose proof (proj1 (keyify_fails_when_all v) prefix) as H. unfold fails_when in H.
  destruct (keyify v prefix) as [paths|e].
  - split; [rewrite H; discriminate|]. intros _. exists paths. reflexivity.
  - destruct H as [-> ->]. split; [reflexivity|discriminate].
Qed.

(** ** What [keyify] returns *)

Lemma append_assoc3 (a b c : string) : (a +:+ b) +:+ c = a +:+ b +:+ c.
Proof.
  induction a as [|x a IH]; [reflexivity|].
  change (String x ((a +:+ b) +:+ c) = String x (a +:+ b +:+ c)). rewrite IH. reflexivity.
Qed.

Lemma leaves_keys v l : In l (leaves v) -> fst l <> [].
Proof.
  destruct v as [| | | |s| |xs|kvs]; cbn [leaves]; try contradiction.
  - generalize 0%N. induction s as [|c s IH]; intros i; [contradiction|].
    intros [<-|H]; [discriminate|exact (IH _ H)].
  - generalize 0%N. induction xs as [|[c|] xs IH]; intros i; [contradiction| |apply IH].
    intros H. apply in_app_or in H as [H|H]; [|exact (IH _ H)].
    destruct (is_object_non_null c).
    + apply in_map_iff in H as (l' & <- & _). discriminate.
    + destruct H as [<-|[]]. discriminate.
  - induction kvs as [|[k c] kvs IH]; [contradiction|].
    cbn [flat_map fst snd]. intros H. apply in_app_or in H as [H|H]; [|exact (IH H)].
    destruct (is_object_non_null c).
    + apply in_map_iff in H as (l' & <- & _). discriminate.
    + destruct H as [<-|[]]. discriminate.
Qed.

(** The paths of the leaves of a child, with the prefix that [keyify]
    passes down. *)
Lemma path_of_under prefix k c :
  map (path_of (prefix +:+ k +:+ ".")) (leaves c)
  = map (path_of prefix) (map (under k) (leaves c)).
Proof.
  rewrite map_map. apply map_ext_in. intros l Hl.
  unfold path_of, under. cbn [fst snd].
  pose proof (leaves_keys c l Hl) as Hne.
  destruct (fst l) as [|k' ks]; [congruence|].
  change (String.concat "." (k :: k' :: ks))
    with (k +:+ "." +:+ String.concat "." (k' :: ks)).
  rewrite !append_assoc3. reflexivity.
Qed.

Lemma keyify_entry_leaves prefix el c nested deeper res r :
  (forall paths, deeper = Ok paths ->
     paths = map (path_of (prefix +:+ el +:+ ".")) (leaves c)) ->
  keyify_entry prefix el c nested deeper res = Ok r ->
  r = res ++ map (path_of prefix)
               (if is_object_non_null c then map (under el) (leaves c)
                else [([el], c)]).
Proof.
  intros Hdeep. unfold keyify_entry.
  destruct nested as [[]|e]; [|discriminate]. cbn [outcome_bind].
  destruct (is_object_non_null c).
  - destruct deeper as [paths|e]; [|discriminate]. cbn [outcome_bind].
    intros H. injection H as <-. rewrite (Hdeep paths eq_refl), path_of_under.
    reflexivity.
  - intros H. injection H as <-. reflexivity.
Qed.

(** X22. When [keyify] returns, it returns the paths of the leaves of
    the tree, in the order of [Object.keys]: for each value under a key or an
    index that is neither an object nor an array, the prefix followed by the
    keys from the root, joined by dots. Empty containers contribute
    nothing. *)
Theorem keyify_lists_leaves (v : value) (prefix : string) (paths : list string) :
  keyify v prefix = Ok paths -> paths = map (path_of prefix) (leaves v).
Proof.
  revert prefix paths.
  induction v as [| | | |s| |xs IH|kvs IH] using value_induction;
    intros prefix paths; cbn [keyify leaves];
    try discriminate;
    try (intros H; injection H as <-; reflexivity).
  - intros H. injection H as <-. generalize 0%N.
    induction s as [|c s IHs]; intros i; [reflexivity|].
    cbn [char_indices map]. rewrite IHs. reflexivity.
  - match goal with
    | |- ?elems xs 0%N [] = Ok paths -> _ = map _ (?leaves_elems xs 0%N) =>
        enough (H : forall i res,
                  elems xs i res = Ok paths ->
                  paths = res ++ map (path_of prefix) (leaves_elems xs i))
          by (apply H)
    end.
    induction IH as [|x xs Hx _ IHxs]; intros i res.
    + intros H. injection H as <-. rewrite app_nil_r. reflexivity.
    + destruct x as [c|]; [|apply IHxs].
      match goal with
      | |- outcome_bind ?e _ = _ -> _ => destruct e as [r|e'] eqn:E
      end; [|discriminate].
      cbn [outcome_bind]. intros H. apply IHxs in H. rewrite H.
      apply keyify_entry_leaves in E; [|apply Hx].
      rewrite E, map_app, app_assoc. reflexivity.
  - match goal with
    | |- ?entries kvs [] = Ok paths -> _ =>
        enough (H : forall res,
                  entries kvs res = Ok paths ->
                  paths = res ++ map (path_of prefix) (leaves (VObj kvs)))
          by (apply H)
    end.
    cbn [leaves].
    induction IH as [|[el c] kvs Hc _ IHkvs]; intros res.
    + intros H. injection H as <-. rewrite app_nil_r. reflexivity.
    + match goal with
      | |- outcome_bind ?e _ = _ -> _ => destruct e as [r|e'] eqn:E
      end; [|discriminate].
      cbn [outcome_bind]. intros H. apply IHkvs in H. rewrite H.
      apply keyify_entry_leaves in E; [|apply Hc].
      cbn [flat_map fst snd]. rewrite E, map_app, app_assoc. reflexivity.
Qed.

Lemma keyify_lists_leaves_witness :
  ["k.0.x"; "k.1.x"] = map (path_of EmptyString) (leaves two_rows).
Proof. apply keyify_lists_leaves. reflexivity. Defined.

(** ** The paths of [keyify] read the leaves *)

Lemma simple_key_inv k :
  simple_key k = true ->
  no_special k = true /\ exists c r, k = String c r /\ is_special c = false.
Proof.
  unfold simple_key. intros H. apply andb_prop in H as [Hn Hne].
  split; [exact Hn|]. destruct k as [|c r]; [discriminate Hne|].
  exists c, r. split; [reflexivity|].
  unfold no_special in Hn. cbn [string_forallb] in Hn.
  apply andb_prop in Hn as [Hc _]. apply negb_true_iff, Hc.
Qed.

Lemma digits_no_special d : string_forallb is_digit d = true -> no_special d = true.
Proof.
  unfold no_special. induction d as [|c d IH]; cbn [string_forallb]; [reflexivity|].
  intros H. apply andb_prop in H as [Hc Hd]. rewrite (IH Hd), andb_true_r.
  destruct c as [[] [] [] [] [] [] [] []]; first [reflexivity | discriminate Hc].
Qed.

Lemma simple_key_pretty (n : N) : simple_key (pretty n) = true.
Proof.
  unfold simple_key. rewrite (digits_no_special _ (pretty_N_digits n)).
  destruct (pretty n) eqn:E; [exfalso; exact (pretty_nonempty n E)|reflexivity].
Qed.

Lemma take_plain_all k : no_special k = true -> take_plain k = (k, EmptyString).
Proof.
  unfold no_special. induction k as [|c k IH]; [reflexivity|].
  cbn [string_forallb take_plain]. intros H. apply andb_prop in H as [Hc Hk].
  apply negb_true_iff in Hc. rewrite Hc, (IH Hk). reflexivity.
Qed.

Lemma concat_simple_head ks :
  ks <> [] -> Forall (fun k => simple_key k = true) ks ->
  exists c r, String.concat "." ks = String c r /\ is_special c = false.
Proof.
  intros Hne Hks. destruct Hks as [|k ks Hk Hks]; [congruence|].
  destruct (simple_key_inv k Hk) as (_ & c & r & -> & Hc).
  destruct ks as [|k' ks]; [exists c, r; split; [reflexivity|exact Hc]|].
  eexists c, _. split; [reflexivity|exact Hc].
Qed.

(** The keys of a path made of simple keys joined by dots. *)
Lemma scan_joined ks :
  Forall (fun k => simple_key k = true) ks ->
  forall fuel, String.length (String.concat "." ks) <= fuel ->
               scan fuel (String.concat "." ks) = ks.
Proof.
  induction 1 as [|k ks Hk Hks IH]; intros fuel Hfuel; [apply scan_empty|].
  destruct (simple_key_inv k Hk) as (Hn & c & r & Ek & Hc).
  destruct ks as [|k' ks].
  - cbn [String.concat] in *. subst k. cbn [String.length] in Hfuel.
    destruct fuel as [|fuel]; [lia|]. cbn [scan]. rewrite Hc. cbn [negb].
    rewrite (take_plain_all _ Hn), scan_empty. reflexivity.
  - change (String.concat "." (k :: k' :: ks))
      with (k +:+ String "." (String.concat "." (k' :: ks))) in *.
    rewrite length_append in Hfuel. cbn [String.length] in Hfuel.
    assert (Hlen : 1 <= String.length k) by (subst k; cbn [String.length]; lia).
    destruct fuel as [|[|fuel]]; try lia.
    assert (Hfirst : scan (S (S fuel)) (k +:+ String "." (String.concat "." (k' :: ks)))
                     = k :: scan (S fuel) (String "." (String.concat "." (k' :: ks)))).
    { subst k.
      change (String c r +:+ String "." (String.concat "." (k' :: ks)))
        with (String c (r +:+ String "." (String.concat "." (k' :: ks)))).
      cbn [scan]. rewrite Hc. cbn [negb].
      change (String c (r +:+ String "." (String.concat "." (k' :: ks))))
        with (String c r +:+ String "." (String.concat "." (k' :: ks))).
      rewrite take_plain_stop by (exact Hn || reflexivity). reflexivity. }
    rewrite Hfirst. f_equal.
    destruct (concat_simple_head (k' :: ks)) as (c' & r' & Erest & Hc');
      [discriminate|exact Hks|].
    assert (Hdot : scan (S fuel) (String "." (String c' r')) = scan fuel (String c' r')).
    { cbn [scan is_special N_of_ascii]. cbn [negb Ascii.eqb Bool.eqb].
      unfold empty_key_here. cbn [separator].
      destruct c' as [[] [] [] [] [] [] [] []]; first [reflexivity | discriminate Hc']. }
    rewrite Erest, Hdot, <- Erest. apply IH. lia.
Qed.

Lemma stringToPath_joined ks :
  ks <> [] -> Forall (fun k => simple_key k = true) ks ->
  stringToPath (String.concat "." ks) = ks.
Proof.
  intros Hne Hks. unfold stringToPath. rewrite (scan_joined ks Hks) by lia.
  destruct (concat_simple_head ks Hne Hks) as (c & r & -> & Hc).
  destruct c as [[] [] [] [] [] [] [] []]; first [reflexivity | discriminate Hc].
Qed.

Lemma no_special_stop a b : no_special (a +:+ String "." b) = false.
Proof. unfold no_special. apply string_forallb_stop. reflexivity. Qed.

Lemma assoc_key {A : Type} p (kvs : list (string * A)) x :
  assoc p kvs = Some x -> In p (map fst kvs).
Proof.
  induction kvs as [|[k c] kvs IH]; [discriminate|].
  cbn [assoc map fst]. destruct (String.eqb p k) eqn:E.
  - apply String.eqb_eq in E. intros _. left. symmetry. exact E.
  - intros H. right. exact (IH H).
Qed.

(** A path with a dot is no own key of a tree with simple keys. *)
Lemma has_prop_dotted v a b :
  well_keyed v = true -> has_prop v (a +:+ String "." b) = false.
Proof.
  intros Hwf. pose proof (no_special_stop a b) as Hp.
  assert (Hnum : parse_uint (a +:+ String "." b) = None).
  { unfold parse_uint. destruct (a +:+ String "." b) as [|c r] eqn:E; [reflexivity|].
    rewrite <- E. rewrite string_forallb_stop by reflexivity. reflexivity. }
  assert (Hlen : String.eqb (a +:+ String "." b) "length" = false).
  { apply String.eqb_neq. intros E. rewrite E in Hp. discriminate Hp. }
  destruct v as [| | | |s| |xs|kvs]; try reflexivity; cbn [has_prop].
  - unfold array_index. rewrite Hnum. exact Hlen.
  - unfold array_index. rewrite Hnum. exact Hlen.
  - destruct (assoc _ kvs) as [x|] eqn:E; [|reflexivity].
    apply assoc_key in E. cbn [well_keyed] in Hwf. apply andb_prop in Hwf as [_ Hwf].
    rewrite forallb_forall in Hwf. apply in_map_iff in E as (kv & Ekv & Hkv).
    specialize (Hwf kv Hkv). apply andb_prop in Hwf as [Hs _].
    unfold simple_key in Hs. apply andb_prop in Hs as [Hs _].
    rewrite Ekv, Hp in Hs. discriminate Hs.
Qed.

(** The path of a leaf parses back to the keys of the leaf. *)
Lemma castPath_joined v ks :
  well_keyed v = true ->
  ks <> [] -> Forall (fun k => simple_key k = true) ks ->
  castPath (String.concat "." ks) v = ks.
Proof.
  intros Hwf Hne Hks. unfold castPath.
  destruct (isKey (String.concat "." ks) v) eqn:Hkey;
    [|apply stringToPath_joined; assumption].
  destruct ks as [|k [|k' ks]]; [congruence|reflexivity|]. exfalso.
  change (String.concat "." (k :: k' :: ks))
    with (k +:+ String "." (String.concat "." (k' :: ks))) in Hkey.
  unfold isKey in Hkey.
  rewrite (has_prop_dotted v _ _ Hwf), andb_false_r, orb_false_r in Hkey.
  unfold reIsPlainProp in Hkey. rewrite string_forallb_stop in Hkey by reflexivity.
  rewrite reIsDeepProp_append in Hkey by reflexivity. discriminate Hkey.
Qed.

Lemma assoc_distinct {A : Type} k (c : A) kvs :
  distinct (map fst kvs) = true -> In (k, c) kvs -> assoc k kvs = Some c.
Proof.
  induction kvs as [|[k' c'] kvs IH]; [contradiction|].
  cbn [map fst distinct assoc]. intros H. apply andb_prop in H as [Hk Hd].
  intros [E|Hin].
  - injection E as -> ->. rewrite String.eqb_refl. reflexivity.
  - destruct (String.eqb k k') eqn:E; [|exact (IH Hd Hin)].
    apply String.eqb_eq in E. subst k'. exfalso.
    apply negb_true_iff in Hk.
    assert (Hex : existsb (String.eqb k) (map fst kvs) = true).
    { apply existsb_exists. exists k. split; [|apply String.eqb_refl].
      apply in_map_iff. exists (k, c). split; [reflexivity|exact Hin]. }
    congruence.
Qed.

Lemma leaves_array xs l :
  In l (leaves (VArr xs)) ->
  exists j c, nth_error xs j = Some (Some c)
              /\ In l (leaves_below (pretty (N.of_nat j)) c).
Proof.
  cbn [leaves].
  match goal with
  | |- In l (?elems xs 0%N) -> _ =>
      enough (H : forall i, In l (elems xs i) ->
                exists j c, nth_error xs j = Some (Some c)
                            /\ In l (leaves_below (pretty (i + N.of_nat j)%N) c))
        by (intros Hin; destruct (H 0%N Hin) as (j & c & Hj & Hl);
            exists j, c; split; [exact Hj|exact Hl])
  end.
  induction xs as [|[c|] xs IH]; intros i; [contradiction| |].
  - intros H. apply in_app_or in H as [H|H].
    + exists 0, c. split; [reflexivity|].
      replace (i + N.of_nat 0)%N with i by lia. exact H.
    + destruct (IH _ H) as (j & c' & Hj & Hl). exists (S j), c'.
      split; [exact Hj|].
      replace (i + N.of_nat (S j))%N with (N.succ i + N.of_nat j)%N by lia. exact Hl.
  - intros H. destruct (IH _ H) as (j & c' & Hj & Hl). exists (S j), c'.
    split; [exact Hj|].
    replace (i + N.of_nat (S j))%N with (N.succ i + N.of_nat j)%N by lia. exact Hl.
Qed.

Lemma leaves_object kvs l :
  In l (leaves (VObj kvs)) -> exists k c, In (k, c) kvs /\ In l (leaves_below k c).
Proof.
  cbn [leaves]. intros H. apply in_flat_map in H as ([k c] & Hin & Hl).
  exists k, c. split; [exact Hin|exact Hl].
Qed.

(** Walking the keys of a leaf reaches the leaf. *)
Lemma walk_leaf v : forall l,
  well_keyed v = true -> is_object_non_null v = true -> In l (leaves v) ->
  walk v (fst l) = snd l
  /\ is_object_non_null (snd l) = false
  /\ Forall (fun k => simple_key k = true) (fst l).
Proof.
  induction v as [| | | |s| |xs IH|kvs IH] using value_induction;
    intros l Hwf Hobj Hl; try discriminate Hobj.
  - destruct (leaves_array xs l Hl) as (j & c & Hj & Hbelow).
    cbn [well_keyed] in Hwf. apply andb_prop in Hwf as [Hlen Hwf].
    apply N.leb_le in Hlen.
    assert (Hlt : j < List.length xs) by (apply nth_error_Some; congruence).
    assert (Hprop : prop (VArr xs) (pretty (N.of_nat j)) = c).
    { cbn [prop]. rewrite array_index_pretty by lia.
      unfold nth_elem. rewrite Nat2N.id, Hj. reflexivity. }
    assert (Hin : In (Some c) xs) by (apply nth_error_In with j; exact Hj).
    rewrite forallb_forall in Hwf. specialize (Hwf _ Hin). cbn in Hwf.
    rewrite List.Forall_forall in IH. specialize (IH _ Hin). cbn in IH.
    unfold leaves_below in Hbelow. destruct (is_object_non_null c) eqn:Hc.
    + apply in_map_iff in Hbelow as (l' & <- & Hl').
      destruct (IH l' Hwf eq_refl Hl') as (Hw & Hleaf & Hks).
      unfold under. cbn [fst snd walk is_nullish]. rewrite Hprop.
      split; [exact Hw|]. split; [exact Hleaf|].
      constructor; [apply simple_key_pretty|exact Hks].
    + destruct Hbelow as [<-|[]]. cbn [fst snd walk is_nullish]. rewrite Hprop.
      split; [reflexivity|]. split; [exact Hc|].
      constructor; [apply simple_key_pretty|constructor].
  - destruct (leaves_object kvs l Hl) as (k & c & Hin & Hbelow).
    cbn [well_keyed] in Hwf. apply andb_prop in Hwf as [Hdist Hwf].
    assert (Hprop : prop (VObj kvs) k = c)
      by (cbn [prop]; rewrite (assoc_distinct k c kvs Hdist Hin); reflexivity).
    rewrite forallb_forall in Hwf. specialize (Hwf _ Hin). cbn [fst snd] in Hwf.
    apply andb_prop in Hwf as [Hk Hwf].
    rewrite List.Forall_forall in IH. specialize (IH _ Hin). cbn [snd] in IH.
    unfold leaves_below in Hbelow. destruct (is_object_non_null c) eqn:Hc.
    + apply in_map_iff in Hbelow as (l' & <- & Hl').
      destruct (IH l' Hwf eq_refl Hl') as (Hw & Hleaf & Hks).
      unfold under. cbn [fst snd walk is_nullish]. rewrite Hprop.
      split; [exact Hw|]. split; [exact Hleaf|].
      constructor; [exact Hk|exact Hks].
    + destruct Hbelow as [<-|[]]. cbn [fst snd walk is_nullish]. rewrite Hprop.
      split; [reflexivity|]. split; [exact Hc|].
      constructor; [exact Hk|constructor].
Qed.

(** X23. In an object or array whose keys are distinct, not empty and
    without dots and brackets, and whose arrays are no longer than the
    language allows, the path that [keyify] writes for a leaf parses back to
    the keys of the leaf, and [get] reads the leaf at that path (the default
    when the leaf is [undefined]). *)
Theorem keyify_paths_read_leaves (v : value) (l : list string * value) (d : value) :
  is_object_non_null v = true ->
  well_keyed v = true ->
  In l (leaves v) ->
  castPath (path_of EmptyString l) v = fst l
  /\ is_object_non_null (snd l) = false
  /\ get v (path_of EmptyString l) d = match snd l with VUndef => d | _ => snd l end.
Proof.
  intros Hobj Hwf Hl.
  destruct (walk_leaf v l Hwf Hobj Hl) as (Hw & Hleaf & Hks).
  pose proof (leaves_keys v l Hl) as Hne.
  assert (Hcast : castPath (path_of EmptyString l) v = fst l)
    by (apply castPath_joined; assumption).
  split; [exact Hcast|]. split; [exact Hleaf|].
  unfold get, baseGet. rewrite Hcast.
  assert (Hn : is_nullish v = false) by (destruct v; try reflexivity; discriminate Hobj).
  rewrite Hn. destruct (fst l) as [|k ks] eqn:E; [congruence|]. rewrite Hw. reflexivity.
Qed.

Lemma keyify_paths_read_leaves_witness : get two_rows "k.1.x" VUndef = VNum 2.
Proof.
  destruct (keyify_paths_read_leaves two_rows (["k"; "1"; "x"], VNum 2) VUndef)
    as (_ & _ & H).
  - reflexivity.
  - reflexivity.
  - vm_compute. right. left. reflexivity.
  - exact H.
Defined.

(** * What [reset] restores *)

(** ** Indices are canonical numerals *)











(** ** Writes that leave the other leaves alone *)







(** ** The paths of leaves, read in another tree *)






(** ** Writing all the leaves *)


(** ** The leaves of a tree lie on different branches *)




(** ** [reset] on trees of any depth *)










Section ResetDeep.

Variable call : nat -> value -> value.
Variable contextValidator : option (value -> value -> value).




End ResetDeep.

Section ResetLeaves.

Variable call : nat -> value -> value.
Variable contextValidator : option (value -> value -> value).






End ResetLeaves.


